(** * StreetVision subnet: inference broker, client wrapper, reward engine
    and request handler

    A shallow embedding of four Python modules of the repository,

    - [src/client.py]                     (module [Client]),
    - [src/gpu_server_api_with_queue.py]  (module [Server]),
    - [src/natix/validator/reward.py]     (module [Reward]),
    - [src/neurons/miner_new.py]          (modules [Miner], [Metagraph]),

    together with the SHA-256 digest both sides use as the cache key
    (module [Hashlib]) and the library calls the scripts make on strings
    and directories (modules [Str], [Os]).  A [dict] whose order shows in
    what the code does is a list of pairs, in insertion order.

    Conventions.  Python [float] is Rocq's primitive binary64 [float];
    Python [bytes] is [list byte]; [str] is [string]; a [dict] is a stdpp
    [gmap].  Code that can raise returns a value of [Py.result]; code that
    mutates a store threads it explicitly.  Comments give the lines of the
    source a definition embeds.

    A Redis store is a finite map from fingerprints to floats: the code
    writes floats only, [float(rdb.get(k))] reads back what [rdb.set(k, v)]
    wrote, and the stored text of a float is never empty, so a key that is
    present is a hit.  The threads of the broker (request handlers, the
    worker) are interleaved as the actions of a transition system. *)

From Stdlib Require Import ZArith Floats Lia List Ascii String Sorted.
From Stdlib Require Import Strings.Byte.
From stdpp Require Import gmap strings list pretty.

Set Warnings "-inexact-float".

(* ===================================================================== *)
(** * Definitions *)
(* ===================================================================== *)

(** ** [hashlib.sha256(...).hexdigest()]

    FIPS 180-4 SHA-256 over 32-bit words held in [Z], wrap-around written
    out with [mod 2^32]. *)

Module Hashlib.

Local Open Scope Z_scope.

Definition w32 (x : Z) : Z := x mod 2 ^ 32.

Definition add32 (a b : Z) : Z := w32 (a + b).

Definition rotr (n x : Z) : Z :=
  Z.lor (Z.shiftr x n) (w32 (Z.shiftl x (32 - n))).

Definition Ch (x y z : Z) : Z :=
  Z.lxor (Z.land x y) (Z.land (w32 (Z.lnot x)) z).

Definition Maj (x y z : Z) : Z :=
  Z.lxor (Z.lxor (Z.land x y) (Z.land x z)) (Z.land y z).

Definition Sigma0 (x : Z) : Z :=
  Z.lxor (Z.lxor (rotr 2 x) (rotr 13 x)) (rotr 22 x).

Definition Sigma1 (x : Z) : Z :=
  Z.lxor (Z.lxor (rotr 6 x) (rotr 11 x)) (rotr 25 x).

Definition sigma0 (x : Z) : Z :=
  Z.lxor (Z.lxor (rotr 7 x) (rotr 18 x)) (Z.shiftr x 3).

Definition sigma1 (x : Z) : Z :=
  Z.lxor (Z.lxor (rotr 17 x) (rotr 19 x)) (Z.shiftr x 10).

(** The round constants are the first 32 bits of the fractional parts of
    the cube roots of the first 64 primes, the initial hash value those of
    the square roots of the first 8; both are computed here. *)

Definition is_prime (n : Z) : bool :=
  (1 <? n) &&
  forallb (fun d => negb (n mod d =? 0))
          (map Z.of_nat (seq 2 (Z.to_nat (Z.sqrt n) - 1))).

Definition primes (count : nat) : list Z :=
  firstn count (List.filter is_prime (map Z.of_nat (seq 2 400))).

(** The integer cube root of [x], one bit at a time from bit [bits - 1]. *)
Fixpoint cube_root (bits : nat) (x r : Z) : Z :=
  match bits with
  | O => r
  | S b =>
      let c := r + 2 ^ Z.of_nat b in
      if c * c * c <=? x then cube_root b x c else cube_root b x r
  end.

Definition K256 : list Z :=
  Eval vm_compute in map (fun p => w32 (cube_root 40 (p * 2 ^ 96) 0)) (primes 64).

Definition H256 : list Z :=
  Eval vm_compute in map (fun p => w32 (Z.sqrt (p * 2 ^ 64))) (primes 8).

(** Padding: a [0x80] byte, zero bytes up to 56 mod 64, then the bit length
    as a 64-bit big-endian integer. *)

Definition be_bytes (n : nat) (x : Z) : list Z :=
  map (fun i => Z.land (Z.shiftr x (8 * Z.of_nat i)) 255) (rev (seq 0 n)).

Definition pad (msg : list Z) : list Z :=
  let len := Z.of_nat (length msg) in
  let zeros := Z.to_nat ((55 - len) mod 64) in
  msg ++ [128] ++ repeat 0 zeros ++ be_bytes 8 ((8 * len) mod 2 ^ 64).

Fixpoint be_words (bs : list Z) : list Z :=
  match bs with
  | b0 :: b1 :: b2 :: b3 :: rest =>
      (((b0 * 256 + b1) * 256 + b2) * 256 + b3) :: be_words rest
  | _ => []
  end.

Fixpoint chunks (n : nat) (fuel : nat) (ws : list Z) : list (list Z) :=
  match fuel with
  | O => []
  | S fuel' =>
      match ws with
      | [] => []
      | _ => firstn n ws :: chunks n fuel' (skipn n ws)
      end
  end.

(** Message schedule: [w] holds the words computed so far, newest last. *)

Fixpoint schedule (n : nat) (w : list Z) : list Z :=
  match n with
  | O => w
  | S n' =>
      let t := length w in
      let at_ (k : nat) := nth (t - k) w 0 in
      schedule n'
        (w ++ [add32 (add32 (sigma1 (at_ 2%nat)) (at_ 7%nat))
                     (add32 (sigma0 (at_ 15%nat)) (at_ 16%nat))])
  end.

Record regs := Regs { ra : Z; rb : Z; rc : Z; rd : Z; re : Z; rf : Z; rg : Z; rh : Z }.

Definition round (r : regs) (kw : Z * Z) : regs :=
  let '(k, w) := kw in
  let t1 := add32 (add32 (add32 (add32 (rh r) (Sigma1 (re r))) (Ch (re r) (rf r) (rg r))) k) w in
  let t2 := add32 (Sigma0 (ra r)) (Maj (ra r) (rb r) (rc r)) in
  Regs (add32 t1 t2) (ra r) (rb r) (rc r) (add32 (rd r) t1) (re r) (rf r) (rg r).

Definition regs_of (h : list Z) : regs :=
  Regs (nth 0 h 0) (nth 1 h 0) (nth 2 h 0) (nth 3 h 0)
       (nth 4 h 0) (nth 5 h 0) (nth 6 h 0) (nth 7 h 0).

Definition list_of (r : regs) : list Z :=
  [ra r; rb r; rc r; rd r; re r; rf r; rg r; rh r].

Definition compress (h : list Z) (block : list Z) : list Z :=
  let w := schedule 48 block in
  let r := fold_left round (combine K256 w) (regs_of h) in
  map (fun p => add32 (fst p) (snd p)) (combine h (list_of r)).

Definition sha256 (msg : list byte) : list Z :=
  let bs := map (fun b => Z.of_N (Byte.to_N b)) msg in
  let ws := be_words (pad bs) in
  fold_left compress (chunks 16 (length ws) ws) H256.

(** [hexdigest]: eight lowercase hexadecimal digits per word. *)

Definition hex_digit (d : Z) : ascii :=
  nth (Z.to_nat d) (list_ascii_of_string "0123456789abcdef") "0"%char.

Definition hex_word (x : Z) : list ascii :=
  map (fun i => hex_digit (Z.land (Z.shiftr x (4 * Z.of_nat i)) 15)) (rev (seq 0 8)).

Definition hexdigest (h : list Z) : string :=
  string_of_list_ascii (concat (map hex_word h)).

End Hashlib.

(** ** Python values shared by the three modules *)

Module Py.

(** Exceptions, all of them subclasses of Python's [Exception]; the two
    [requests] classes are kept apart because [predict_with_cache] handles
    them differently.  [Timeout] is a subclass of [RequestException];
    [RequestException] below stands for every other member of that class
    ([ConnectionError], the [HTTPError] of [raise_for_status], ...). *)
Variant exn : Type :=
  | Timeout
  | RequestException (info : string)
  | KeyError (key : string)
  | TypeError (info : string)
  | UnboundLocalError (name : string)
  | Exception (info : string).

Definition isinstance_Timeout (e : exn) : bool :=
  match e with Timeout => true | _ => false end.

Definition isinstance_RequestException (e : exn) : bool :=
  match e with Timeout | RequestException _ => true | _ => false end.

Variant result (A : Type) : Type :=
  | Ok (a : A)
  | Raise (e : exn).

Arguments Ok {A} a.
Arguments Raise {A} e.

End Py.

(** ** Python [str] methods the scripts use *)

Module Str.

(** [str.lower] on one character.  Names are held as byte strings (UTF-8);
    the letters A-Z are the only bytes whose lower case is one of the ASCII
    letters the extension test compares with. *)
Definition lower_char (c : ascii) : ascii :=
  let n := nat_of_ascii c in
  if ((65 <=? n) && (n <=? 90))%nat then ascii_of_nat (n + 32) else c.

Fixpoint lower (s : string) : string :=
  match s with
  | EmptyString => EmptyString
  | String c s' => String (lower_char c) (lower s')
  end.

Definition startswith (s prefix : string) : bool := String.prefix prefix s.

(** [s.endswith(suffix)]: some tail of [s] is [suffix]. *)
Fixpoint endswith (s suffix : string) : bool :=
  (s =? suffix)%string ||
  match s with
  | EmptyString => false
  | String _ s' => endswith s' suffix
  end.

(** [s.endswith((t1, t2, ...))] *)
Definition endswith_any (s : string) (suffixes : list string) : bool :=
  existsb (endswith s) suffixes.

End Str.

(** ** [os.path.join] and [os.walk] *)

Module Os.

(** What a name in a directory leads to: a directory that can be listed,
    anything [os.walk] files under [files] (a regular file, a link to
    one), or a name it files under [dirs] without descending (a link to a
    directory, a directory it cannot list). *)
#[warnings="-register-all"] Inductive node : Type :=
  | File
  | Dir (entries : list (string * node))
  | Closed.

Definition is_dir (n : node) : bool :=
  match n with File => false | Dir _ | Closed => true end.

(** [posixpath.join(a, b)] *)
Definition path_join (a b : string) : string :=
  if Str.startswith b "/" then b
  else if (a =? "")%string || Str.endswith a "/" then a ++ b
  else a ++ "/" ++ b.

(** [os.walk(top)], top down: the triple of [top], then the walks of its
    subdirectories in the order of the listing.  A [top] that cannot be
    listed yields nothing. *)
Fixpoint walk (top : string) (n : node) : list (string * list string * list string) :=
  match n with
  | Dir entries =>
      (top,
       map fst (List.filter (fun e => is_dir (snd e)) entries),
       map fst (List.filter (fun e => negb (is_dir (snd e))) entries))
      :: flat_map (fun e => if is_dir (snd e) then walk (path_join top (fst e)) (snd e) else [])
           entries
  | File | Closed => []
  end.

End Os.

(** ** [src/client.py]: the Client Wrapper *)

Module Client.

Import Py.

(** The decoded body of a broker reply, [response.json()]: a JSON object
    of which the code reads three keys.  [None] is an absent key. *)
Record json : Type := Json {
  j_error : option string;
  j_from_cache : option bool;
  j_probability : option float
}.

(** What one call of [requests.post] yields: it raises, or it returns a
    response with a status code and a body. *)
Variant reply : Type :=
  | Fails (e : exn)
  | Response (status_code : Z) (body : json).

(** The client's surroundings: its local Redis ([rdb]) and the number of
    [requests.post] calls issued so far. *)
Record world : Type := World {
  rdb : gmap string float;
  posts : nat
}.

Definition hash_image_bytes (image_bytes : list byte) : string :=
  Hashlib.hexdigest (Hashlib.sha256 image_bytes).

(** [response.raise_for_status()]: an [HTTPError] for 4xx and 5xx. *)
Definition raise_for_status (status_code : Z) : result unit :=
  if ((400 <=? status_code) && (status_code <? 600))%Z
  then Raise (RequestException "HTTPError")
  else Ok tt.

(** How the body of the [try] statement ends. *)
Variant control : Type :=
  | Return (v : float)
  | Continue
  | Raised (e : exn).

Section Predict.

(** The broker as the client sees it: the reply to the [k]-th call of
    [requests.post], given the uploaded file and the timeout. *)
Variable requests_post : nat -> list byte -> Z -> reply.

(** Lines 27-41, the body of the [try]. *)
Definition attempt (image_hash : string) (image_bytes : list byte)
    (timeout_sec : Z) (w : world) : world * control :=
  let w1 := World (rdb w) (S (posts w)) in
  match requests_post (posts w) image_bytes timeout_sec with
  | Fails e => (w1, Raised e)
  | Response status_code result =>
      match raise_for_status status_code with
      | Raise e => (w1, Raised e)
      | Ok _ =>
          match j_error result with
          | Some _ => (w1, Continue)
          | None =>
              match j_from_cache result with
              | None => (w1, Raised (KeyError "from_cache"))
              | Some from_cache =>
                  match j_probability result with
                  | None => (w1, Raised (KeyError "probability"))
                  | Some probability =>
                      if negb from_cache
                      then (World (<[image_hash := probability]> (rdb w1)) (posts w1),
                            Return probability)
                      else (w1, Return probability)
                  end
              end
          end
      end
  end.

(** Lines 25-47, the [for] loop with [n] attempts left.  [Ok (Some v)]:
    the loop returned [v]; [Ok None]: the loop ended, by exhaustion or by
    [break]; [Raise e]: an exception neither handler catches. *)
Fixpoint retry_loop (n : nat) (image_hash : string) (image_bytes : list byte)
    (timeout_sec : Z) (w : world) : world * result (option float) :=
  match n with
  | O => (w, Ok None)
  | S n' =>
      let '(w1, c) := attempt image_hash image_bytes timeout_sec w in
      match c with
      | Return v => (w1, Ok (Some v))
      | Continue => retry_loop n' image_hash image_bytes timeout_sec w1
      | Raised e =>
          if isinstance_Timeout e
          then retry_loop n' image_hash image_bytes timeout_sec w1
          else if isinstance_RequestException e
          then (w1, Ok None)
          else (w1, Raise e)
      end
  end.

Definition predict_with_cache (image_bytes : list byte) (timeout_sec : Z)
    (max_retries : Z) (w : world) : world * result float :=
  let image_hash := hash_image_bytes image_bytes in
  match rdb w !! image_hash with
  | Some cached => (w, Ok cached)
  | None =>
      match retry_loop (Z.to_nat max_retries) image_hash image_bytes timeout_sec w with
      | (w', Ok (Some v)) => (w', Ok v)
      | (w', Ok None) => (w', Ok 0.999999999%float)
      | (w', Raise e) => (w', Raise e)
      end
  end.

(** A reply the loop returns from: a status that [raise_for_status] lets
    through and a body without an [error] key. *)
Definition succeeds (r : reply) : bool :=
  match r with
  | Fails _ => false
  | Response status_code result =>
      match raise_for_status status_code, j_error result with
      | Ok _, None => true
      | _, _ => false
      end
  end.

(** The broker keeps to the HTTP interface: [requests.post] raises only
    exceptions of the [requests] family, and a body without [error]
    carries [from_cache] and [probability]. *)
Definition well_formed (r : reply) : Prop :=
  match r with
  | Fails e => isinstance_RequestException e = true
  | Response _ result =>
      j_error result = None ->
      is_Some (j_from_cache result) /\ is_Some (j_probability result)
  end.

End Predict.

(** A scripted broker: the replies in order, then connection refused. *)
Definition scripted (script : list reply) : nat -> list byte -> Z -> reply :=
  fun k _ _ => nth k script (Fails (RequestException "ConnectionError")).

(** A reply that spends a pass and lets the loop go on: a timeout, or a
    body with an [error] key under a status that is no HTTP error. *)
Definition spends_attempt (r : reply) : bool :=
  match r with
  | Fails e => isinstance_Timeout e
  | Response status_code result =>
      match raise_for_status status_code, j_error result with
      | Ok _, Some _ => true
      | _, _ => false
      end
  end.

(** Line 55: the test on the name of a file. *)
Definition is_jpeg (file : string) : bool :=
  Str.endswith_any (Str.lower file) [".jpg"; ".jpeg"]%string.

(** Lines 51-58. *)
Definition scan_jpeg_files_recursive (folder_path : string) (tree : Os.node)
    : list string :=
  flat_map
    (fun '(root, _, files) =>
       map (Os.path_join root) (List.filter is_jpeg files))
    (Os.walk folder_path tree).

(** The files of a tree, told apart from the walk: [located n dirs file]
    when descending from [n] through the directories [dirs] leads to a
    directory that lists [file] as a file. *)
Inductive located : Os.node -> list string -> string -> Prop :=
  | located_here entries file :
      In (file, Os.File) entries -> located (Os.Dir entries) [] file
  | located_below entries d n dirs file :
      In (d, n) entries -> located n dirs file ->
      located (Os.Dir entries) (d :: dirs) file.

(** The entries [os.walk] reports as files whose name passes the test. *)
Fixpoint jpeg_count (tree : Os.node) : nat :=
  match tree with
  | Os.Dir entries =>
      list_sum
        (map (fun e =>
                match snd e with
                | Os.File => if is_jpeg (fst e) then 1 else 0
                | _ => jpeg_count (snd e)
                end)
             entries)
  | Os.File | Os.Closed => 0
  end.

End Client.

(** ** [src/gpu_server_api_with_queue.py]: the Inference Broker *)

Module Server.

Import Py.

Definition hash_image_bytes (image_bytes : list byte) : string :=
  Hashlib.hexdigest (Hashlib.sha256 image_bytes).

(** A job is a dict shared by the request handler that built it, the queue
    and the worker; [result_event] is the flag of its [threading.Event],
    [result] is [None] or [{"probability": prob}]. *)
Record job : Type := Job {
  image_hash : string;
  image_bytes : list byte;
  result_event : bool;
  result : option float
}.

(** Where the worker thread stands: at the head of its loop, holding the
    job it took from the queue, holding a job and the probability it has
    found for it, or ended: the model call raised while it held the job,
    and the only [try] of the loop is around the [get]. *)
Variant worker_state : Type :=
  | Idle
  | Holding (addr : nat)
  | Computed (addr : nat) (prob : float)
  | Crashed (addr : nat).

(** The job the thread took and has not completed. *)
Definition held (w : worker_state) : option nat :=
  match w with
  | Idle => None
  | Holding addr | Computed addr _ | Crashed addr => Some addr
  end.

(** The process state.  Job objects live in [heap], addressed by position;
    [job_queue] holds addresses, oldest first.  [inferences] logs the
    arguments of the [run_inference] calls made so far, and [clock] is the
    time the waits are measured against. *)
Record state : Type := State {
  rdb : gmap string float;
  job_queue : list nat;
  heap : list job;
  stop_event : bool;
  worker : worker_state;
  inferences : list (list byte);
  clock : Z
}.

(** What [predict] answers: the dict FastAPI sends with status 200, or
    [JSONResponse(content={"error": error}, status_code=status_code)]. *)
Variant response : Type :=
  | Dict (from_cache : bool) (probability : float)
  | JSONResponse (error : string) (status_code : Z).

Definition start (store : gmap string float) : state :=
  State store [] [] false Idle [] 0.

(** Lines 90-99 of [predict]: the job is built and put on the queue; the
    handler goes on to wait on the job at the address returned. *)
Definition put (image_bytes : list byte) (s : state) : state * nat :=
  let job := Job (hash_image_bytes image_bytes) image_bytes false None in
  let addr := length (heap s) in
  (State (rdb s) (job_queue s ++ [addr]) (heap s ++ [job])
         (stop_event s) (worker s) (inferences s) (clock s),
   addr).

(** Lines 81-99 of [predict]: the cache check and, on a miss, the put. *)
Definition predict_submit (image_bytes : list byte) (s : state)
    : state * (response + nat) :=
  let image_hash := hash_image_bytes image_bytes in
  match rdb s !! image_hash with
  | Some cached => (s, inl (Dict true cached))
  | None => let '(s', addr) := put image_bytes s in (s', inr addr)
  end.

(** Line 102, [result_event.wait(timeout)] for a wait begun at time [since]:
    [None] while the handler is still blocked, [Some true] once the flag is
    set, [Some false] once [timeout] has elapsed with the flag unset. *)
Definition wait (timeout since : Z) (addr : nat) (s : state) : option bool :=
  match heap s !! addr with
  | None => None
  | Some job =>
      if result_event job then Some true
      else if (since + timeout <=? clock s)%Z then Some false
      else None
  end.

(** Lines 104-108 of [predict], after the wait has returned [waited]. *)
Definition predict_respond (addr : nat) (waited : bool) (s : state)
    : Py.result response :=
  if negb waited
  then Ok (JSONResponse "Inference timeout" 504)
  else
    match heap s !! addr with
    | Some (Job _ _ _ (Some probability)) => Ok (Dict false probability)
    | _ => Raise (TypeError "'NoneType' object is not subscriptable")
    end.

(** The handler's second half as one step: blocked, or an answer. *)
Definition predict_wait (since : Z) (addr : nat) (s : state)
    : option (Py.result response) :=
  match wait 60 since addr s with
  | None => None
  | Some waited => Some (predict_respond addr waited s)
  end.

Section Worker.

(** The model call, lines 33-43: a probability, or the exception that
    [Image.open] raises on bytes it cannot decode or the model on a tensor
    it cannot take. *)
Variable run_inference : list byte -> Py.result float.

(** The [while] loop of [inference_worker], lines 52-71, one step at a
    time, so that the other threads can run in between.
    - At the loop head (lines 52-56): the loop ends if [stop_event] is set;
      else the oldest job is taken, or the [get] times out on an empty
      queue and the loop starts over.
    - Holding a job (lines 58-67): the cache is looked up again, and on a
      miss the model is run and its result written to the cache; an
      exception of the model call is caught nowhere and ends the thread.
    - With the probability in hand (lines 69-71): it is stored in the job
      and the job's event is set. *)
Definition inference_worker_step (s : state) : state :=
  match worker s with
  | Idle =>
      if stop_event s then s
      else
        match job_queue s with
        | [] => s
        | addr :: rest =>
            State (rdb s) rest (heap s) (stop_event s) (Holding addr)
                  (inferences s) (clock s)
        end
  | Holding addr =>
      match heap s !! addr with
      | None =>
          State (rdb s) (job_queue s) (heap s) (stop_event s) Idle
                (inferences s) (clock s)
      | Some job =>
          match rdb s !! image_hash job with
          | Some cached =>
              State (rdb s) (job_queue s) (heap s) (stop_event s)
                    (Computed addr cached) (inferences s) (clock s)
          | None =>
              match run_inference (image_bytes job) with
              | Ok prob =>
                  State (<[image_hash job := prob]> (rdb s)) (job_queue s) (heap s)
                        (stop_event s) (Computed addr prob)
                        (inferences s ++ [image_bytes job]) (clock s)
              | Raise _ =>
                  State (rdb s) (job_queue s) (heap s) (stop_event s)
                        (Crashed addr)
                        (inferences s ++ [image_bytes job]) (clock s)
              end
          end
      end
  | Computed addr prob =>
      State (rdb s) (job_queue s)
            (alter (fun job => Job (image_hash job) (image_bytes job) true (Some prob))
                   addr (heap s))
            (stop_event s) Idle (inferences s) (clock s)
  | Crashed _ => s
  end.

Fixpoint inference_worker (steps : nat) (s : state) : state :=
  match steps with
  | O => s
  | S n => inference_worker n (inference_worker_step s)
  end.

Definition shutdown_event (s : state) : state :=
  State (rdb s) (job_queue s) (heap s) true (worker s) (inferences s) (clock s).

(** The worker thread has ended with an exception. *)
Definition crashed (s : state) : bool :=
  match worker s with Crashed _ => true | _ => false end.

(** For examples: a 32 by 32 bitmap in binary PBM (the header [P4 32 32],
    a line feed, 32 rows of four bytes, each byte [fill]), which
    [Image.open] decodes and the model takes. *)
Definition pbm_image (fill : byte) : list byte :=
  ["P"; "4"; " "; "3"; "2"; " "; "3"; "2"]%byte ++ [Byte.x0a] ++ repeat fill 128.

(** For examples: a stand-in for the model that answers 0.25 for what
    begins as a binary PBM file and raises on everything else, as
    [Image.open] does on bytes it cannot identify. *)
Definition sample_model (image_bytes : list byte) : Py.result float :=
  match image_bytes with
  | b0 :: b1 :: _ =>
      if Byte.eqb b0 "P" && Byte.eqb b1 "4" then Ok 0.25%float
      else Raise (Exception "UnidentifiedImageError")
  | _ => Raise (Exception "UnidentifiedImageError")
  end.

(** The threads interleave.  A handler whose lookup missed puts its job,
    the worker takes a step, time passes, or the application shuts down.
    A handler's lookup, its wait and its answer change nothing in the
    state, so they are no actions. *)
Variant action : Type :=
  | Put (image_bytes : list byte)
  | Work
  | Tick (dt : nat)
  | Shutdown.

Definition step (s : state) (a : action) : state :=
  match a with
  | Put image_bytes => fst (put image_bytes s)
  | Work => inference_worker_step s
  | Tick dt =>
      State (rdb s) (job_queue s) (heap s) (stop_event s) (worker s)
            (inferences s) (clock s + Z.of_nat dt)
  | Shutdown => shutdown_event s
  end.

Definition run (acts : list action) (s : state) : state :=
  fold_left step acts s.

Definition is_work (a : action) : bool :=
  match a with Work => true | _ => false end.

(** The steps the worker takes in a schedule. *)
Definition worker_steps (acts : list action) : nat :=
  length (List.filter is_work acts).

Definition reachable (s : state) : Prop :=
  exists store acts, s = run acts (start store).

(** What holds of the job objects in every reachable state. *)
Record invariant (s : state) : Prop := Invariant {
  inv_queued : forall addr, addr ∈ job_queue s ->
    exists j, heap s !! addr = Some j /\ result_event j = false /\ result j = None;
  inv_nodup : NoDup (job_queue s);
  inv_held : forall addr, held (worker s) = Some addr ->
    (addr ∉ job_queue s) /\
    exists j, heap s !! addr = Some j /\ result_event j = false /\ result j = None;
  inv_computed : forall addr p j, worker s = Computed addr p ->
    heap s !! addr = Some j -> rdb s !! image_hash j = Some p;
  inv_pending : forall addr j, heap s !! addr = Some j ->
    result_event j = false -> addr ∈ job_queue s \/ held (worker s) = Some addr;
  inv_done : forall addr j, heap s !! addr = Some j ->
    result_event j = true ->
    exists p, result j = Some p /\ rdb s !! image_hash j = Some p;
  inv_hash : forall addr j, heap s !! addr = Some j ->
    image_hash j = hash_image_bytes (image_bytes j)
}.

(** The worker steps after which the job at [addr], not yet completed, will
    be: three for every job ahead of it in the queue and for itself, less
    those the worker has already taken on the job in its hands. *)
Definition owes (s : state) (addr : nat) (n : nat) : Prop :=
  match worker s with
  | Idle => exists k, job_queue s !! k = Some addr /\ n = 3 * k + 3
  | Holding a =>
      (a = addr /\ n = 2) \/
      exists k, job_queue s !! k = Some addr /\ n = 2 + (3 * k + 3)
  | Computed a _ =>
      (a = addr /\ n = 1) \/
      exists k, job_queue s !! k = Some addr /\ n = 1 + (3 * k + 3)
  | Crashed _ => False
  end.

(** What holds of the inference log and the cache in every state reached
    from [start store]: the model has been called on the logged bytes
    only, once per fingerprint and only for fingerprints the store did not
    have; the cache is the store together with the results of the calls
    that returned; a call that raised has ended the worker and left
    nothing in the cache; and every logged call belongs to a job taken off
    the queue. *)
Record log_invariant (store : gmap string float) (s : state) : Prop := LogInvariant {
  log_fresh : forall b, b ∈ inferences s ->
    store !! hash_image_bytes b = None /\
    match run_inference b with
    | Ok p => rdb s !! hash_image_bytes b = Some p
    | Raise _ => rdb s !! hash_image_bytes b = None /\ crashed s = true
    end;
  log_nodup : NoDup (map hash_image_bytes (inferences s));
  log_store : forall k p, store !! k = Some p -> rdb s !! k = Some p;
  log_cache : forall k p, rdb s !! k = Some p ->
    store !! k = Some p \/
    exists b, b ∈ inferences s /\ hash_image_bytes b = k /\ run_inference b = Ok p;
  log_jobs :
    length (inferences s) + length (job_queue s)
    + match worker s with Holding _ => 1 | _ => 0 end
    <= length (heap s)
}.

(** The jobs not yet completed, in the order the worker gets to them. *)
Definition in_flight (s : state) : list nat :=
  match held (worker s) with Some addr => [addr] | None => [] end ++ job_queue s.

(** Jobs are taken in the order they were put: the jobs in flight are the
    last ones put, oldest first. *)
Definition fifo (s : state) : Prop :=
  exists n, n <= length (heap s) /\ in_flight s = seq n (length (heap s) - n).

End Worker.

End Server.

(** ** [src/natix/validator/reward.py]: the Reward Engine *)

Module Reward.

Import Py.

Definition compute_penalty (y_pred : float) : float :=
  let bad := ((y_pred <? 0) || (1 <? y_pred))%float in
  if bad then 0%float else 1%float.

(** [bt.axon]: the engine reads its [hotkey] only. *)
Record axon : Type := Axon { hotkey : string }.

(** The interface [get_rewards] expects of [performance_trackers["image"]].
    A method changes the tracker in place and returns or raises; the
    tracker is the first component of its result either way. *)
Class PerformanceTracker (T : Type) : Type := {
  miner_hotkeys : T -> gmap Z string;
  reset_miner_history : Z -> string -> T -> T * result unit;
  update : Z -> float -> float -> string -> T -> T * result unit;
  get_metrics : Z -> Z -> T -> T * result (gmap string float)
}.

Section Engine.

Context {T : Type} {impl : PerformanceTracker T}.

(** What the loop of [get_rewards] carries from one miner to the next: the
    dict [tracker] (an alias of [performance_trackers]) whose objects it
    mutates, and the local variable [metrics_100], unbound until a first
    miner gets as far as assigning it. *)
Record frame : Type := Frame {
  tracker : gmap string T;
  metrics_100 : option (gmap string float)
}.

(** Statements that read or change the frame and may raise. *)
Definition stmt (A : Type) : Type := frame -> frame * result A.

Definition ret {A : Type} (a : A) : stmt A := fun fr => (fr, Ok a).

Definition bind {A B : Type} (m : stmt A) (k : A -> stmt B) : stmt B :=
  fun fr =>
    match m fr with
    | (fr', Ok a) => k a fr'
    | (fr', Raise e) => (fr', Raise e)
    end.

Local Notation "x <- m ;; k" := (bind m (fun x => k))
  (at level 100, m at next level, right associativity).
Local Notation "m ;;; k" := (bind m (fun _ => k))
  (at level 100, right associativity).

(** [tracker[modality].attr] *)
Definition attribute {A : Type} (attr : T -> A) : stmt A :=
  fun fr =>
    match tracker fr !! "image" with
    | None => (fr, Raise (KeyError "image"))
    | Some obj => (fr, Ok (attr obj))
    end.

(** [tracker[modality].method(...)] *)
Definition call {A : Type} (method : T -> T * result A) : stmt A :=
  fun fr =>
    match tracker fr !! "image" with
    | None => (fr, Raise (KeyError "image"))
    | Some obj =>
        let '(obj', r) := method obj in
        (Frame (<["image" := obj']> (tracker fr)) (metrics_100 fr), r)
    end.

Definition assign_metrics_100 (m : gmap string float) : stmt unit :=
  fun fr => (Frame (tracker fr) (Some m), Ok tt).

Definition read_metrics_100 : stmt (gmap string float) :=
  fun fr =>
    match metrics_100 fr with
    | Some m => (fr, Ok m)
    | None => (fr, Raise (UnboundLocalError "metrics_100"))
    end.

Definition subscript (d : gmap string float) (key : string) : stmt float :=
  fun fr =>
    match d !! key with
    | Some v => (fr, Ok v)
    | None => (fr, Raise (KeyError key))
    end.

(** Lines 73-77 of the [else] branch: a tracked hotkey that differs from
    the axon's resets the miner's history. *)
Definition reset_if_changed (uid : Z) (miner_hotkey : string) : stmt unit :=
  tracked_hotkeys <- attribute miner_hotkeys ;;
  match tracked_hotkeys !! uid with
  | Some tracked =>
      if decide (tracked = miner_hotkey) then ret tt
      else call (reset_miner_history uid miner_hotkey)
  | None => ret tt
  end.

(** Lines 79-84: the observation is recorded, the two windows are read and
    combined, and the penalty is applied. *)
Definition update_and_rate (label : float) (uid : Z) (pred_prob : float)
    (miner_hotkey : string) : stmt float :=
  call (update uid pred_prob label miner_hotkey) ;;;
  m100 <- call (get_metrics uid 100) ;;
  assign_metrics_100 m100 ;;;
  metrics_10 <- call (get_metrics uid 10) ;;
  mcc <- subscript m100 "mcc" ;;
  accuracy <- subscript metrics_10 "accuracy" ;;
  let reward := (0.5 * mcc + 0.5 * accuracy)%float in
  ret (reward * compute_penalty pred_prob)%float.

(** Lines 73-84, the [else] branch: the value of [reward] it ends with. *)
Definition score (label : float) (ax : axon) (uid : Z) (pred_prob : float)
    : stmt float :=
  let miner_hotkey := hotkey ax in
  reset_if_changed uid miner_hotkey ;;;
  update_and_rate label uid pred_prob miner_hotkey.

(** Lines 69-87, the [try] statement, begun with both per-miner dicts
    empty.  It yields the frame, the two dicts as it leaves them, and the
    exception its body raised, if any. *)
Definition try_block (label : float) (ax : axon) (uid : Z) (pred_prob : float)
    (fr : frame)
    : frame * gmap string float * gmap string (gmap string float) * option exn :=
  let '(fr1, r) :=
    (if (pred_prob =? -1)%float then ret 0%float
     else score label ax uid pred_prob) fr in
  match r with
  | Raise e => (fr1, ∅, ∅, Some e)
  | Ok reward =>
      let miner_modality_rewards : gmap string float := {["image" := reward]} in
      match read_metrics_100 fr1 with
      | (fr2, Ok m) => (fr2, miner_modality_rewards, {["image" := m]}, None)
      | (fr2, Raise e) => (fr2, miner_modality_rewards, ∅, Some e)
      end
  end.

(** One pass of the [for] loop.  The handler of [except Exception] logs and
    sets the local [reward], which nothing reads afterwards; the reward
    appended is [miner_modality_rewards.get("image", 0.0)]. *)
Definition iteration (label : float) (entry : axon * Z * float) (fr : frame)
    : frame * float * gmap string (gmap string float) :=
  let '(ax, uid, pred_prob) := entry in
  let '(fr', miner_modality_rewards, miner_modality_metrics, _) :=
    try_block label ax uid pred_prob fr in
  let total_reward := default 0%float (miner_modality_rewards !! "image") in
  (fr', total_reward, miner_modality_metrics).

Fixpoint for_loop (label : float) (batch : list (axon * Z * float)) (fr : frame)
    : frame * list float * list (gmap string (gmap string float)) :=
  match batch with
  | [] => (fr, [], [])
  | entry :: rest =>
      let '(fr1, total_reward, miner_modality_metrics) := iteration label entry fr in
      let '(fr2, miner_rewards, miner_metrics) := for_loop label rest fr1 in
      (fr2, total_reward :: miner_rewards, miner_modality_metrics :: miner_metrics)
  end.

(** [zip(axons, uids, responses)] stops at the shortest of the three. *)
Definition zip3 (axons : list axon) (uids : list Z) (responses : list float)
    : list (axon * Z * float) :=
  combine (combine axons uids) responses.

(** The rewards, the metrics, and the tracker dict as the call leaves it. *)
Definition get_rewards (label : float) (responses : list float) (uids : list Z)
    (axons : list axon) (performance_trackers : gmap string T)
    : list float * list (gmap string (gmap string float)) * gmap string T :=
  let '(fr, miner_rewards, miner_metrics) :=
    for_loop label (zip3 axons uids responses) (Frame performance_trackers None) in
  (miner_rewards, miner_metrics, tracker fr).

(** The frame in which the loop reaches the [i]-th miner of the batch. *)
Definition frame_before (label : float) (batch : list (axon * Z * float))
    (fr : frame) (i : nat) : frame :=
  (for_loop label (take i batch) fr).1.1.

(** The tracker's two windows combine to a float that is neither infinite
    nor NaN, whatever state they are read in. *)
Definition finite_scores : Prop :=
  forall uid t t1 t2 m100 m10 mcc accuracy,
    get_metrics uid 100 t = (t1, Ok m100) ->
    get_metrics uid 10 t1 = (t2, Ok m10) ->
    m100 !! "mcc" = Some mcc ->
    m10 !! "accuracy" = Some accuracy ->
    is_finite (0.5 * mcc + 0.5 * accuracy) = true.

End Engine.

Arguments frame T : clear implicits.
Arguments stmt T A : clear implicits.

(** Modelled from the spec: the [PerformanceTracker] class, which is not
    under src/.  Per miner it keeps a rolling history of (prediction,
    label) pairs, trimmed oldest first to the longest window (100), and the
    last-known hotkey; a metric over a window is a statistic of the last
    [window] pairs.  The statistic itself (MCC, accuracy) is a parameter. *)
Record rolling_tracker : Type := Tracker {
  history : gmap Z (list (float * float));
  hotkeys : gmap Z string
}.

Definition last_n {A : Type} (n : nat) (l : list A) : list A :=
  skipn (length l - n) l.

Definition observations (uid : Z) (t : rolling_tracker) : list (float * float) :=
  default [] (history t !! uid).

(** Modelled from the spec: the methods of that class.  A reset empties
    the miner's history and records the new hotkey; an update appends the
    pair, drops the oldest beyond 100 and records the hotkey; metrics are
    the statistic of the last [window] pairs. *)
Definition spec_tracker (statistic : list (float * float) -> gmap string float)
    : PerformanceTracker rolling_tracker := {|
  miner_hotkeys := hotkeys;
  reset_miner_history uid miner_hotkey t :=
    (Tracker (<[uid := []]> (history t)) (<[uid := miner_hotkey]> (hotkeys t)), Ok tt);
  update uid prediction label miner_hotkey t :=
    (Tracker (<[uid := last_n 100 (observations uid t ++ [(prediction, label)])]> (history t))
             (<[uid := miner_hotkey]> (hotkeys t)),
     Ok tt);
  get_metrics uid window t :=
    (t, Ok (statistic (last_n (Z.to_nat window) (observations uid t))))
|}.

(** A tracker, for examples, that counts its updates and whose [update]
    raises for the miner [bad]. *)
Definition failing_tracker (bad : Z) : PerformanceTracker nat := {|
  miner_hotkeys := fun _ => ∅;
  reset_miner_history := fun _ _ t => (t, Ok tt);
  update := fun uid _ _ _ t =>
    if (uid =? bad)%Z then (t, Raise (Exception "update failed"))
    else (S t, Ok tt);
  get_metrics := fun _ _ t =>
    (t, Ok ({["mcc" := 1%float; "accuracy" := 1%float]} : gmap string float))
|}.

(** A statistic that ignores the window, for examples. *)
Definition flat_statistic (mcc accuracy : float)
    : list (float * float) -> gmap string float :=
  fun _ => {["mcc" := mcc; "accuracy" := accuracy]}.

End Reward.

(** ** [src/neurons/miner_new.py]: the Miner-side Request Handler

    The request counters and their log are the same code, line for line,
    in [src/neurons/miner.py]. *)

(** [self.metagraph]: the registered hotkeys, position being the UID, and
    the per-UID arrays the handler reads. *)
Module Metagraph.

Record t : Type := Make {
  hotkeys : list string;
  S : list float;
  T : list float;
  I : list float;
  E : list float;
  validator_permit : list bool
}.

End Metagraph.

Module Miner.

Import Py.

(** A [dict] with [str] keys and [int] values, in insertion order. *)
Definition counter : Type := list (string * Z).

Fixpoint get (key : string) (d : counter) : option Z :=
  match d with
  | [] => None
  | (k, v) :: d' => if String.eqb k key then Some v else get key d'
  end.

(** [d[key] = value]: an existing key keeps its place, a new one goes last. *)
Fixpoint set (key : string) (value : Z) (d : counter) : counter :=
  match d with
  | [] => [(key, value)]
  | (k, v) :: d' =>
      if String.eqb k key then (k, value) :: d' else (k, v) :: set key value d'
  end.

(** [if key not in d: d[key] = 0] followed by [d[key] += 1] *)
Definition count (key : string) (d : counter) : counter :=
  let d1 := match get key d with Some _ => d | None => set key 0 d end in
  match get key d1 with
  | Some v => set key (v + 1) d1
  | None => d1
  end.

(** [sum(d.values())] *)
Definition sum_values (d : counter) : Z := foldr Z.add 0%Z (map snd d).

(** [self.request_stats] *)
Record request_stats : Type := Stats {
  total_requests : Z;
  requests_by_hotkey : counter;
  requests_by_uid : counter;
  requests_by_ip : counter;
  start_time : float
}.

(** [synapse.dendrite]: the sender's terminal, its fields typed as the
    signature of [_update_request_stats] takes them. *)
Record terminal : Type := Terminal {
  hotkey : string;
  ip : string
}.

(** The fields of the synapse the handler reads or writes. *)
Record synapse : Type := Synapse {
  image : string;
  prediction : float;
  model_url : string;
  testnet_label : Z;
  dendrite : option terminal
}.

(** The attributes of the miner the handler reads or writes;
    [image_detector] is [None] or the detector object. *)
Record miner : Type := Miner {
  image_detector : option unit;
  config_model_url : string;
  metagraph : Metagraph.t;
  stats : request_stats
}.

(** Lines 99-105 of [__init__]. *)
Definition init_request_stats (now : float) : request_stats :=
  Stats 0 [] [] [] now.

(** Lines 240-266. *)
Definition _update_request_stats (hotkey : string) (uid : option nat) (ip : string)
    (st : request_stats) : request_stats :=
  let uid_key := match uid with Some n => pretty n | None => "Unknown" end in
  Stats (total_requests st + 1)
        (count hotkey (requests_by_hotkey st))
        (count uid_key (requests_by_uid st))
        (count ip (requests_by_ip st))
        (start_time st).

(** [list.index(x)] for an [x] that is in the list: the first position. *)
Fixpoint index (x : string) (l : list string) : nat :=
  match l with
  | [] => 0
  | y :: l' => if String.eqb y x then 0 else S (index x l')
  end.

(** [array[uid]], an [IndexError] out of range. *)
Definition item {A : Type} (array : list A) (uid : nat) : result A :=
  match array !! uid with
  | Some a => Ok a
  | None => Raise (Exception "IndexError")
  end.

(** Lines 190-204 of [_log_sender_info]: the sender's UID, [None] for a
    hotkey that is not registered; the reads of the arrays may raise. *)
Definition sender_uid (sender_hotkey : string) (mg : Metagraph.t)
    : result (option nat) :=
  if negb (String.eqb sender_hotkey "Unknown")
     && bool_decide (sender_hotkey ∈ Metagraph.hotkeys mg)
  then
    let uid := index sender_hotkey (Metagraph.hotkeys mg) in
    match item (Metagraph.S mg) uid, item (Metagraph.T mg) uid,
          item (Metagraph.I mg) uid, item (Metagraph.E mg) uid,
          item (Metagraph.validator_permit mg) uid with
    | Ok _, Ok _, Ok _, Ok _, Ok _ => Ok (Some uid)
    | Raise e, _, _, _, _ => Raise e
    | _, Raise e, _, _, _ => Raise e
    | _, _, Raise e, _, _ => Raise e
    | _, _, _, Raise e, _ => Raise e
    | _, _, _, _, Raise e => Raise e
    end
  else Ok None.

(** Lines 176-238: what the method does to the miner.  Its log lines are
    left out; an exception raised before the counters are reached is
    caught by the handler of the method, which only logs. *)
Definition _log_sender_info (syn : synapse) (m : miner) : miner :=
  let sender_hotkey :=
    match dendrite syn with Some d => hotkey d | None => "Unknown" end in
  let sender_ip :=
    match dendrite syn with Some d => ip d | None => "Unknown" end in
  match sender_uid sender_hotkey (metagraph m) with
  | Ok uid =>
      Miner (image_detector m) (config_model_url m) (metagraph m)
            (_update_request_stats sender_hotkey uid sender_ip (stats m))
  | Raise _ => m
  end.

(** The requests a miner has seen, as the arguments of
    [_update_request_stats]. *)
Definition record_all (requests : list (string * option nat * string))
    (st : request_stats) : request_stats :=
  fold_left (fun st '(hotkey, uid, ip) => _update_request_stats hotkey uid ip st)
            requests st.

(** The per-UID arrays are as long as the list of hotkeys. *)
Definition consistent (mg : Metagraph.t) : Prop :=
  let n := length (Metagraph.hotkeys mg) in
  length (Metagraph.S mg) = n /\ length (Metagraph.T mg) = n /\
  length (Metagraph.I mg) = n /\ length (Metagraph.E mg) = n /\
  length (Metagraph.validator_permit mg) = n.

Section Forward.

(** [base64.b64decode] and the broker behind [predict_with_cache]. *)
Variable b64decode : string -> result (list byte).
Variable requests_post : nat -> list byte -> Z -> Client.reply.

(** Lines 142-174.  [predict_with_cache] of this file, lines 46-81, is
    the function of [src/client.py] line for line, with another URL. *)
Definition forward_image (syn : synapse) (m : miner) (w : Client.world)
    : synapse * miner * Client.world :=
  let m1 := _log_sender_info syn m in
  match image_detector m1 with
  | None => (syn, m1, w)
  | Some _ =>
      match b64decode (image syn) with
      | Raise _ => (syn, m1, w)
      | Ok image_bytes =>
          match Client.predict_with_cache requests_post image_bytes 4 2 w with
          | (w', Ok probability) =>
              (Synapse (image syn) probability (config_model_url m1)
                       (testnet_label syn) (dendrite syn),
               m1, w')
          | (w', Raise _) => (syn, m1, w')
          end
      end
  end.

End Forward.

(** [sorted(items, key=lambda x: x[1], reverse=True)]: descending by
    count, equal counts in the order of the dict. *)
Fixpoint insert_desc (x : string * Z) (l : list (string * Z)) : list (string * Z) :=
  match l with
  | [] => [x]
  | y :: l' => if (snd x <? snd y)%Z then y :: insert_desc x l' else x :: l
  end.

Definition sorted_desc (items : list (string * Z)) : list (string * Z) :=
  foldr insert_desc [] items.

(** Lines 335-336 of [log_request_stats]: the senders it lists. *)
Definition top_senders (st : request_stats) : list (string * Z) :=
  match requests_by_hotkey st with
  | [] => []
  | items => take 5 (sorted_desc items)
  end.

End Miner.

(* ===================================================================== *)
(** * Theorems *)
(* ===================================================================== *)

(** ** The content hash *)

Section HashFacts.

Import Hashlib.

Lemma compress_length h block :
  length (compress h block) = Nat.min (length h) 8.
Proof.
  unfold compress. rewrite length_map, length_combine. reflexivity.
Qed.

Lemma sha256_length msg : length (sha256 msg) = 8%nat.
Proof.
  unfold sha256.
  generalize (chunks 16
    (length (be_words (pad (map (fun b => Z.of_N (Byte.to_N b)) msg))))
    (be_words (pad (map (fun b => Z.of_N (Byte.to_N b)) msg)))).
  intros blocks.
  assert (Hgen : forall h, length h = 8%nat ->
            length (fold_left compress blocks h) = 8%nat).
  { induction blocks as [|b bs IH]; intros h Hh; simpl; [exact Hh|].
    apply IH. rewrite compress_length, Hh. reflexivity. }
  apply Hgen. reflexivity.
Qed.

Lemma string_of_list_ascii_length (l : list ascii) :
  String.length (string_of_list_ascii l) = length l.
Proof. induction l as [|a l IH]; simpl; [reflexivity|]. now rewrite IH. Qed.

Lemma hexdigest_length (h : list Z) :
  String.length (hexdigest h) = (8 * length h)%nat.
Proof.
  unfold hexdigest. rewrite string_of_list_ascii_length.
  induction h as [|x h IH]; [reflexivity|].
  change (concat (map hex_word (x :: h)))
    with (hex_word x ++ concat (map hex_word h)).
  rewrite length_app, IH. unfold hex_word. rewrite length_map. simpl. lia.
Qed.

(** A fingerprint is 256 bits, written as 64 hexadecimal digits. *)
Lemma fingerprint_length (image_bytes : list byte) :
  String.length (Client.hash_image_bytes image_bytes) = 64%nat.
Proof.
  unfold Client.hash_image_bytes. rewrite hexdigest_length, sha256_length.
  reflexivity.
Qed.

(** The FIPS 180-4 test vector for the three bytes of "abc". *)
Example sha256_abc :
  Client.hash_image_bytes ["a"%byte; "b"%byte; "c"%byte]
  = "ba7816bf8f01cfea414140de5dae2223b00361a396177a9cb410ff61f20015ad"%string.
Proof. vm_compute. reflexivity. Qed.

(** A message of 56 bytes, which pads to two blocks. *)
Example sha256_two_blocks :
  Server.hash_image_bytes
    (map byte_of_ascii
       (list_ascii_of_string "abcdbcdecdefdefgefghfghighijhijkijkljklmklmnlmnomnopnopq"))
  = "248d6a61d20638b8e5c026930c3e6039a33ce45964ff2167f6ecedd419db06c1"%string.
Proof. vm_compute. reflexivity. Qed.

End HashFacts.

(** C8.  The content hash is a function of the bytes alone: equal byte
    sequences get equal fingerprints, on the client, on the server, and
    across the two, which compute the same function. *)
Theorem hash_image_bytes_deterministic (b1 b2 : list byte) :
  b1 = b2 ->
  Client.hash_image_bytes b1 = Client.hash_image_bytes b2 /\
  Server.hash_image_bytes b1 = Server.hash_image_bytes b2 /\
  Client.hash_image_bytes b1 = Server.hash_image_bytes b2.
Proof. intros ->. repeat split. Qed.

Lemma hash_image_bytes_deterministic_witness :
  Client.hash_image_bytes ["a"%byte; "b"%byte; "c"%byte]
  = Server.hash_image_bytes ["a"%byte; "b"%byte; "c"%byte].
Proof.
  apply (hash_image_bytes_deterministic
           ["a"%byte; "b"%byte; "c"%byte] ["a"%byte; "b"%byte; "c"%byte]).
  reflexivity.
Defined.

(** ** The Client Wrapper *)

Section ClientFacts.

Import Py Client.

Variable requests_post : nat -> list byte -> Z -> reply.
Variables (image_hash : string) (image_bytes : list byte) (timeout_sec : Z).

Local Abbreviation loop n :=
  (retry_loop requests_post n image_hash image_bytes timeout_sec).
Local Abbreviation used w := (World (rdb w) (S (posts w))).

(** A timeout is caught by the first handler: the pass is spent, the loop
    goes on with one attempt fewer. *)
Lemma retry_loop_timeout n w :
  requests_post (posts w) image_bytes timeout_sec = Fails Timeout ->
  loop (S n) w = loop n (used w).
Proof.
  intros Hp. simpl. unfold attempt. rewrite Hp. reflexivity.
Qed.

(** Any other [RequestException] is caught by the second handler, which
    leaves the loop. *)
Lemma retry_loop_transport n w info :
  requests_post (posts w) image_bytes timeout_sec = Fails (RequestException info) ->
  loop (S n) w = (used w, Ok None).
Proof.
  intros Hp. simpl. unfold attempt. rewrite Hp. reflexivity.
Qed.

(** So is the [HTTPError] that [raise_for_status] raises on a 4xx or 5xx
    reply, the broker's own 504 among them. *)
Lemma retry_loop_http_error n w status_code body :
  requests_post (posts w) image_bytes timeout_sec = Response status_code body ->
  (400 <= status_code < 600)%Z ->
  loop (S n) w = (used w, Ok None).
Proof.
  intros Hp Hs. simpl. unfold attempt, raise_for_status.
  rewrite Hp.
  replace ((400 <=? status_code)%Z && (status_code <? 600)%Z) with true
    by (symmetry; apply andb_true_intro; split; [apply Z.leb_le|apply Z.ltb_lt]; lia).
  reflexivity.
Qed.

(** An error reported inside a successful reply spends the pass as well. *)
Lemma retry_loop_error_body n w status_code msg fc p :
  requests_post (posts w) image_bytes timeout_sec
    = Response status_code (Json (Some msg) fc p) ->
  raise_for_status status_code = Ok tt ->
  loop (S n) w = loop n (used w).
Proof.
  intros Hp Hs. simpl. unfold attempt.
  rewrite Hp, Hs. reflexivity.
Qed.

(** A result the broker computed afresh is returned and written to the
    local cache; one it served from its own cache is returned only. *)
Lemma retry_loop_result n w status_code from_cache probability :
  requests_post (posts w) image_bytes timeout_sec
    = Response status_code (Json None (Some from_cache) (Some probability)) ->
  raise_for_status status_code = Ok tt ->
  loop (S n) w
  = (World (if from_cache then rdb w else <[image_hash := probability]> (rdb w))
           (S (posts w)),
     Ok (Some probability)).
Proof.
  intros Hp Hs. simpl. unfold attempt.
  rewrite Hp, Hs. destruct from_cache; reflexivity.
Qed.

(** Against a broker that keeps to the interface the loop never lets an
    exception through, and what it returns is the probability of a reply
    it received. *)
Lemma retry_loop_total n : forall w,
  (forall k, well_formed (requests_post k image_bytes timeout_sec)) ->
  exists w' o,
    loop n w = (w', Ok o) /\
    (o = None \/
     exists k status_code from_cache v,
       (posts w <= k < posts w + n)%nat /\
       requests_post k image_bytes timeout_sec
         = Response status_code (Json None (Some from_cache) (Some v)) /\
       raise_for_status status_code = Ok tt /\
       o = Some v).
Proof.
  induction n as [|n IH]; intros w Hwf.
  - exists w, None. split; [reflexivity|left; reflexivity].
  - assert (Hnext : exists w' o,
              loop n (used w) = (w', Ok o) /\
              (o = None \/
               exists k status_code from_cache v,
                 (posts w <= k < posts w + S n)%nat /\
                 requests_post k image_bytes timeout_sec
                   = Response status_code (Json None (Some from_cache) (Some v)) /\
                 raise_for_status status_code = Ok tt /\
                 o = Some v)).
    { destruct (IH (used w) Hwf) as (w' & o & Heq & Hor).
      exists w', o. split; [exact Heq|].
      destruct Hor as [->|(k & st & fc & v & Hk & Hr & Hs & ->)]; [left; reflexivity|].
      right. exists k, st, fc, v. simpl in Hk. repeat split; try assumption; lia. }
    pose proof (Hwf (posts w)) as Hw.
    destruct (requests_post (posts w) image_bytes timeout_sec)
      as [e|status_code [err fc p]] eqn:Hp.
    + simpl in Hw. destruct e; try discriminate Hw.
      * rewrite (retry_loop_timeout n w Hp). exact Hnext.
      * rewrite (retry_loop_transport n w _ Hp).
        exists (used w), None. split; [reflexivity|left; reflexivity].
    + destruct (raise_for_status status_code) as [[]|e] eqn:Hs.
      * destruct err as [msg|].
        -- rewrite (retry_loop_error_body n w _ _ _ _ Hp Hs). exact Hnext.
        -- simpl in Hw. destruct (Hw eq_refl) as [[from_cache ->] [v ->]].
           rewrite (retry_loop_result n w _ _ _ Hp Hs).
           eexists _, (Some v). split; [reflexivity|].
           right. exists (posts w), status_code, from_cache, v.
           repeat split; try assumption; lia.
      * assert (Hrange : (400 <= status_code < 600)%Z).
        { unfold raise_for_status in Hs.
          destruct ((400 <=? status_code)%Z && (status_code <? 600)%Z) eqn:Hb;
            [|discriminate Hs].
          apply andb_prop in Hb. destruct Hb as [H1 H2].
          apply Z.leb_le in H1. apply Z.ltb_lt in H2. lia. }
        rewrite (retry_loop_http_error n w _ _ Hp Hrange).
        exists (used w), None. split; [reflexivity|left; reflexivity].
Qed.

End ClientFacts.

(** C4, as amended.  [predict_with_cache] does not fail outward on a
    failure of the request.  Whatever the bytes, the timeout, the number
    of retries and the local cache, if every call of [requests.post]
    either returns a response or raises an exception of the [requests]
    family, and every body without an [error] key carries [from_cache] and
    [probability], then, with a local Redis that answers its [get] and
    [set], the call returns a probability and raises nothing; when the
    local cache misses and no attempt within the retry budget succeeds,
    the value returned is the sentinel 0.999999999. *)
Theorem predict_with_cache_never_raises
    (requests_post : nat -> list byte -> Z -> Client.reply)
    (image_bytes : list byte) (timeout_sec max_retries : Z) (w : Client.world) :
  (forall k, Client.well_formed (requests_post k image_bytes timeout_sec)) ->
  exists w' v,
    Client.predict_with_cache requests_post image_bytes timeout_sec max_retries w
      = (w', Py.Ok v) /\
    (Client.rdb w !! Client.hash_image_bytes image_bytes = None ->
     (forall k, (Client.posts w <= k < Client.posts w + Z.to_nat max_retries)%nat ->
                Client.succeeds (requests_post k image_bytes timeout_sec) = false) ->
     v = 0.999999999%float).
Proof.
  intros Hwf. unfold Client.predict_with_cache.
  destruct (Client.rdb w !! Client.hash_image_bytes image_bytes) as [cached|] eqn:Hc.
  - exists w, cached. split; [reflexivity|]. intros Hmiss. discriminate Hmiss.
  - destruct (retry_loop_total requests_post (Client.hash_image_bytes image_bytes)
                image_bytes timeout_sec (Z.to_nat max_retries) w Hwf)
      as (w' & o & Heq & Hor).
    rewrite Heq. destruct o as [v|].
    + exists w', v. split; [reflexivity|]. intros _ Hnone.
      destruct Hor as [Hno|(k & st & fc & v' & Hk & Hr & Hs & Hv)]; [discriminate Hno|].
      specialize (Hnone k Hk). rewrite Hr in Hnone. simpl in Hnone.
      rewrite Hs in Hnone. discriminate Hnone.
    + exists w', 0.999999999%float. split; [reflexivity|]. intros _ _. reflexivity.
Qed.

Lemma predict_with_cache_never_raises_witness :
  exists w' v,
    Client.predict_with_cache
      (Client.scripted
         [Client.Fails Py.Timeout;
          Client.Response 200 (Client.Json (Some "busy"%string) None None);
          Client.Response 504 (Client.Json (Some "Inference timeout"%string) None None)])
      [] 3 5 (Client.World ∅ 0) = (w', Py.Ok v) /\
    v = 0.999999999%float.
Proof.
  destruct (predict_with_cache_never_raises
      (Client.scripted
         [Client.Fails Py.Timeout;
          Client.Response 200 (Client.Json (Some "busy"%string) None None);
          Client.Response 504 (Client.Json (Some "Inference timeout"%string) None None)])
      [] 3 5 (Client.World ∅ 0)) as (w' & v & Heq & Hsent).
  - intros k. do 3 (destruct k as [|k]; [simpl; try reflexivity; discriminate|]).
    destruct k; reflexivity.
  - exists w', v. split; [exact Heq|]. apply Hsent.
    + reflexivity.
    + intros k _. do 3 (destruct k as [|k]; [reflexivity|]).
      destruct k; reflexivity.
Defined.

(** Two calls that raise.  A broker that answers 200 with the JSON object
    [{}] makes the call raise the [KeyError] of [result["from_cache"]];
    and an exception of [requests.post] that is not of the [requests]
    family, such as the [ValueError] it raises for a timeout of 0, is
    caught by neither handler.  One request has been made in both cases
    and no probability is returned. *)
Lemma predict_with_cache_can_raise :
  Client.predict_with_cache
    (Client.scripted [Client.Response 200 (Client.Json None None None)])
    [] 3 3 (Client.World ∅ 0)
  = (Client.World ∅ 1, Py.Raise (Py.KeyError "from_cache")) /\
  Client.predict_with_cache
    (Client.scripted [Client.Fails (Py.Exception "ValueError")])
    [] 0 3 (Client.World ∅ 0)
  = (Client.World ∅ 1, Py.Raise (Py.Exception "ValueError")).
Proof. split; reflexivity. Qed.

(** C2.  The retry loop treats the two failure classes differently.  A
    timeout spends one attempt and the loop carries on with the attempts
    that remain; any other transport failure ends the loop at once, so no
    further request is made and the call returns the sentinel.  With a
    broker that times out twice and then answers, and three retries, the
    answer is returned after three requests; with a broker whose first
    reply is a non-timeout transport error, the sentinel is returned after
    exactly one request. *)
Theorem retry_policy :
  (forall requests_post image_hash image_bytes timeout_sec n w,
     requests_post (Client.posts w) image_bytes timeout_sec = Client.Fails Py.Timeout ->
     Client.retry_loop requests_post (S n) image_hash image_bytes timeout_sec w
     = Client.retry_loop requests_post n image_hash image_bytes timeout_sec
         (Client.World (Client.rdb w) (S (Client.posts w)))) /\
  (forall requests_post image_bytes timeout_sec max_retries w info,
     Client.rdb w !! Client.hash_image_bytes image_bytes = None ->
     (0 < max_retries)%Z ->
     requests_post (Client.posts w) image_bytes timeout_sec
       = Client.Fails (Py.RequestException info) ->
     Client.predict_with_cache requests_post image_bytes timeout_sec max_retries w
     = (Client.World (Client.rdb w) (S (Client.posts w)), Py.Ok 0.999999999%float)) /\
  (forall image_bytes timeout_sec from_cache probability,
     Client.predict_with_cache
       (Client.scripted
          [Client.Fails Py.Timeout; Client.Fails Py.Timeout;
           Client.Response 200
             (Client.Json None (Some from_cache) (Some probability))])
       image_bytes timeout_sec 3 (Client.World ∅ 0)
     = (Client.World
          (if from_cache then ∅
           else <[Client.hash_image_bytes image_bytes := probability]> ∅) 3,
        Py.Ok probability)) /\
  (forall image_bytes timeout_sec info rest,
     Client.predict_with_cache
       (Client.scripted (Client.Fails (Py.RequestException info) :: rest))
       image_bytes timeout_sec 3 (Client.World ∅ 0)
     = (Client.World ∅ 1, Py.Ok 0.999999999%float)).
Proof.
  split; [|split; [|split]].
  - intros post h b t n w Hp. apply retry_loop_timeout. exact Hp.
  - intros post b t m w info Hmiss Hpos Hp. unfold Client.predict_with_cache.
    rewrite Hmiss. destruct (Z.to_nat m) as [|n] eqn:Hn; [lia|].
    rewrite (retry_loop_transport post _ b t n w info Hp). reflexivity.
  - intros b t fc p. unfold Client.predict_with_cache.
    cbn [Client.rdb]. rewrite lookup_empty. change (Z.to_nat 3) with 3%nat.
    rewrite retry_loop_timeout by reflexivity.
    rewrite retry_loop_timeout by reflexivity.
    rewrite (retry_loop_result _ _ b t 0 _ 200%Z fc p) by reflexivity.
    reflexivity.
  - intros b t info rest. unfold Client.predict_with_cache.
    cbn [Client.rdb]. rewrite lookup_empty. change (Z.to_nat 3) with 3%nat.
    rewrite (retry_loop_transport _ _ b t 2 _ info) by reflexivity.
    reflexivity.
Qed.

(** ** The Inference Broker *)

Section ServerFacts.

Import Server.

Variable run_inference : list byte -> Py.result float.

Local Abbreviation work := (inference_worker_step run_inference).
Local Abbreviation step := (Server.step run_inference).
Local Abbreviation run := (Server.run run_inference).
Local Abbreviation reachable := (Server.reachable run_inference).

Lemma invariant_start store : invariant (start store).
Proof.
  split; simpl.
  - intros addr Hin. apply elem_of_nil in Hin. destruct Hin.
  - apply NoDup_nil_2.
  - intros addr Hh. discriminate Hh.
  - intros addr p j Hw. discriminate Hw.
  - intros addr j Hl. rewrite lookup_nil in Hl. discriminate Hl.
  - intros addr j Hl. rewrite lookup_nil in Hl. discriminate Hl.
  - intros addr j Hl. rewrite lookup_nil in Hl. discriminate Hl.
Qed.

(** A lookup in the heap grown by one job. *)
Lemma lookup_snoc_job (h : list job) (j0 : job) addr j :
  (h ++ [j0]) !! addr = Some j ->
  h !! addr = Some j \/ (addr = length h /\ j = j0).
Proof.
  intros Hl. destruct (decide (addr < length h)) as [Hlt|Hge].
  - left. rewrite lookup_app_l in Hl by exact Hlt. exact Hl.
  - right. rewrite lookup_app_r in Hl by lia.
    destruct (addr - length h) as [|n] eqn:Hn; simpl in Hl.
    + split; [lia|congruence].
    + rewrite lookup_nil in Hl. discriminate Hl.
Qed.

Lemma invariant_put image_bytes s :
  invariant s -> invariant (put image_bytes s).1.
Proof.
  intros [Hq Hnd Hhe Hco Hpe Hdo Hha]. unfold put. split; simpl.
  - intros addr Hin. apply elem_of_app in Hin. destruct Hin as [Hin|Hin].
    + destruct (Hq addr Hin) as (j & Hl & He & Hr). exists j.
      split; [|split; assumption].
      rewrite lookup_app_l; [exact Hl|]. eapply lookup_lt_Some. exact Hl.
    + apply list_elem_of_singleton in Hin. subst addr.
      eexists. split; [apply list_lookup_middle; reflexivity|]. split; reflexivity.
  - apply NoDup_app. split; [exact Hnd|]. split; [|apply NoDup_singleton].
    intros addr Hin Hin'. apply list_elem_of_singleton in Hin'. subst addr.
    destruct (Hq _ Hin) as (j & Hl & _). apply lookup_lt_Some in Hl. lia.
  - intros addr Hh. destruct (Hhe addr Hh) as (Hnotin & j & Hl & He & Hr). split.
    + intros Hin. apply elem_of_app in Hin. destruct Hin as [Hin|Hin]; [contradiction|].
      apply list_elem_of_singleton in Hin. subst addr.
      apply lookup_lt_Some in Hl. lia.
    + exists j. split; [|split; assumption].
      rewrite lookup_app_l; [exact Hl|]. eapply lookup_lt_Some. exact Hl.
  - intros addr p j Hw Hl.
    destruct (Hhe addr) as (_ & j' & Hl' & _); [rewrite Hw; reflexivity|].
    rewrite lookup_app_l in Hl by (eapply lookup_lt_Some; exact Hl').
    eapply Hco; eassumption.
  - intros addr j Hl He. apply lookup_snoc_job in Hl. destruct Hl as [Hl|[-> _]].
    + destruct (Hpe addr j Hl He) as [Hin|Hh]; [left|right; exact Hh].
      apply elem_of_app. left. exact Hin.
    + left. apply elem_of_app. right. apply list_elem_of_singleton. reflexivity.
  - intros addr j Hl He. apply lookup_snoc_job in Hl. destruct Hl as [Hl|[_ ->]].
    + eapply Hdo; eassumption.
    + discriminate He.
  - intros addr j Hl. apply lookup_snoc_job in Hl. destruct Hl as [Hl|[_ ->]].
    + eapply Hha; eassumption.
    + reflexivity.
Qed.

(** The three steps of the worker, each from the state it applies to. *)
Lemma work_take s addr rest :
  worker s = Idle -> stop_event s = false -> job_queue s = addr :: rest ->
  work s = State (rdb s) rest (heap s) (stop_event s) (Holding addr)
                 (inferences s) (clock s).
Proof.
  intros Hw Hstop Hq. unfold inference_worker_step. rewrite Hw, Hstop, Hq.
  reflexivity.
Qed.

Lemma work_compute s addr j :
  worker s = Holding addr -> heap s !! addr = Some j ->
  crashed (work s) = false ->
  exists p,
    work s = State (match rdb s !! image_hash j with
                    | Some _ => rdb s
                    | None => <[image_hash j := p]> (rdb s)
                    end)
                   (job_queue s) (heap s) (stop_event s) (Computed addr p)
                   (match rdb s !! image_hash j with
                    | Some _ => inferences s
                    | None => inferences s ++ [image_bytes j]
                    end)
                   (clock s) /\
    match rdb s !! image_hash j with
    | Some cached => p = cached
    | None => run_inference (image_bytes j) = Py.Ok p
    end /\
    rdb (work s) !! image_hash j = Some p /\
    (forall k q, rdb s !! k = Some q -> rdb (work s) !! k = Some q).
Proof.
  intros Hw Hl. unfold inference_worker_step. rewrite Hw, Hl.
  destruct (rdb s !! image_hash j) as [cached|] eqn:Hc.
  - intros _. exists cached. simpl. repeat split; auto.
  - destruct (run_inference (image_bytes j)) as [p|e]; intros Halive;
      [|discriminate Halive].
    exists p. simpl. repeat split.
    + apply lookup_insert_eq.
    + intros k q Hk. rewrite lookup_insert_ne; [exact Hk|]. congruence.
Qed.

(** The model call raises: the thread ends with the job in its hands, the
    cache and the job untouched. *)
Lemma work_crash s addr j e :
  worker s = Holding addr -> heap s !! addr = Some j ->
  rdb s !! image_hash j = None -> run_inference (image_bytes j) = Py.Raise e ->
  work s = State (rdb s) (job_queue s) (heap s) (stop_event s) (Crashed addr)
                 (inferences s ++ [image_bytes j]) (clock s).
Proof.
  intros Hw Hl Hc He. unfold inference_worker_step. rewrite Hw, Hl, Hc, He.
  reflexivity.
Qed.

(** The step on a job in hand ends the thread in that case only. *)
Lemma work_alive s addr j :
  worker s = Holding addr -> heap s !! addr = Some j ->
  is_Some (rdb s !! image_hash j) \/ (exists p, run_inference (image_bytes j) = Py.Ok p) ->
  crashed (work s) = false.
Proof.
  intros Hw Hl Hok. unfold inference_worker_step. rewrite Hw, Hl.
  destruct (rdb s !! image_hash j) as [cached|] eqn:Hc; [reflexivity|].
  destruct Hok as [[c Hc']|[p Hp]]; [discriminate Hc'|].
  rewrite Hp. reflexivity.
Qed.

Lemma work_ended s : crashed s = true -> work s = s.
Proof.
  unfold crashed, inference_worker_step.
  destruct (worker s); intros Hc; try discriminate Hc. reflexivity.
Qed.

Lemma work_publish s addr p :
  worker s = Computed addr p ->
  work s = State (rdb s) (job_queue s)
             (alter (fun job => Job (image_hash job) (image_bytes job) true (Some p))
                    addr (heap s))
             (stop_event s) Idle (inferences s) (clock s).
Proof.
  intros Hw. unfold inference_worker_step. rewrite Hw. reflexivity.
Qed.

Lemma invariant_work s : invariant s -> invariant (work s).
Proof.
  intros Hinv. pose proof Hinv as [Hq Hnd Hhe Hco Hpe Hdo Hha].
  destruct (worker s) as [|a|a p|a] eqn:Hw;
    [| | |rewrite work_ended by (unfold crashed; rewrite Hw; reflexivity);
          exact Hinv].
  - (* at the loop head *)
    destruct (stop_event s) eqn:Hstop.
    { unfold inference_worker_step. rewrite Hw, Hstop. exact Hinv. }
    destruct (job_queue s) as [|addr rest] eqn:Hjq.
    { unfold inference_worker_step. rewrite Hw, Hstop, Hjq. exact Hinv. }
    rewrite (work_take s addr rest Hw Hstop Hjq).
    apply NoDup_cons in Hnd. destruct Hnd as [Hnotin Hnd].
    split; simpl.
    + intros b Hin. apply Hq. apply elem_of_cons. right. exact Hin.
    + exact Hnd.
    + intros b Hb. injection Hb as <-. split; [exact Hnotin|].
      apply Hq. apply elem_of_cons. left. reflexivity.
    + intros b p j Hb. discriminate Hb.
    + intros b j Hl He. destruct (Hpe b j Hl He) as [Hin|Hh]; [|discriminate Hh].
      apply elem_of_cons in Hin. destruct Hin as [->|Hin]; [right|left]; auto.
    + exact Hdo.
    + exact Hha.
  - (* holding a job *)
    destruct (Hhe a eq_refl) as (Hnotin & j & Hl & He & Hr).
    destruct (crashed (work s)) eqn:Hcr.
    + (* the model call raised *)
      assert (Heq : work s = State (rdb s) (job_queue s) (heap s) (stop_event s)
                               (Crashed a) (inferences s ++ [image_bytes j])
                               (clock s)).
      { revert Hcr. unfold crashed, inference_worker_step. rewrite Hw, Hl.
        destruct (rdb s !! image_hash j); [discriminate|].
        destruct (run_inference (image_bytes j)); [discriminate|reflexivity]. }
      rewrite Heq. split; simpl; try assumption.
      intros b q j' Hb. discriminate Hb.
    + destruct (work_compute s a j Hw Hl Hcr) as (p & Heq & _ & Hp & Hmono).
      rewrite Heq in Hp, Hmono |- *. simpl in Hp, Hmono.
      split; simpl; try assumption.
      * intros b q j' Hb Hl'. injection Hb as <- <-.
        assert (j' = j) by congruence. subst j'. exact Hp.
      * intros b j' Hl' He'. destruct (Hdo b j' Hl' He') as (q & Hrq & Hcq).
        exists q. split; [exact Hrq|]. apply Hmono. exact Hcq.
  - (* with the probability in hand *)
    destruct (Hhe a eq_refl) as (Hnotin & j & Hl & He & Hr).
    rewrite (work_publish s a p Hw).
    split; simpl.
    + intros b Hin. destruct (Hq b Hin) as (jb & Hlb & Heb & Hrb).
      exists jb. split; [|split; assumption].
      rewrite list_lookup_alter_ne; [exact Hlb|]. intros ->. contradiction.
    + exact Hnd.
    + intros b Hb. discriminate Hb.
    + intros b q j' Hb. discriminate Hb.
    + intros b jb Hlb Heb. left.
      destruct (decide (b = a)) as [->|Hne].
      * rewrite list_lookup_alter_eq, Hl in Hlb. simpl in Hlb.
        injection Hlb as <-. discriminate Heb.
      * rewrite list_lookup_alter_ne in Hlb by congruence.
        destruct (Hpe b jb Hlb Heb) as [Hin|Hh]; [exact Hin|].
        injection Hh as ->. contradiction.
    + intros b jb Hlb Heb.
      destruct (decide (b = a)) as [->|Hne].
      * rewrite list_lookup_alter_eq, Hl in Hlb. simpl in Hlb.
        injection Hlb as <-. exists p. split; [reflexivity|]. simpl.
        eapply Hco; [reflexivity|exact Hl].
      * rewrite list_lookup_alter_ne in Hlb by congruence.
        eapply Hdo; eassumption.
    + intros b jb Hlb.
      destruct (decide (b = a)) as [->|Hne].
      * rewrite list_lookup_alter_eq, Hl in Hlb. simpl in Hlb.
        injection Hlb as <-. simpl. eapply Hha. exact Hl.
      * rewrite list_lookup_alter_ne in Hlb by congruence.
        eapply Hha. exact Hlb.
Qed.

Lemma invariant_step s a : invariant s -> invariant (step s a).
Proof.
  intros Hinv. destruct a as [image_bytes| |dt|]; simpl.
  - apply invariant_put. exact Hinv.
  - apply invariant_work. exact Hinv.
  - destruct Hinv. split; assumption.
  - destruct Hinv. split; assumption.
Qed.

Lemma invariant_run acts : forall s, invariant s -> invariant (run acts s).
Proof.
  induction acts as [|a acts IH]; intros s Hinv; simpl; [exact Hinv|].
  apply IH. apply invariant_step. exact Hinv.
Qed.

Lemma reachable_invariant s : reachable s -> invariant s.
Proof.
  intros (store & acts & ->). apply invariant_run. apply invariant_start.
Qed.

Lemma reachable_run acts s : reachable s -> reachable (run acts s).
Proof.
  intros (store & acts0 & ->). exists store, (acts0 ++ acts).
  unfold Server.run. rewrite fold_left_app. reflexivity.
Qed.

(** Cache entries are never removed or overwritten. *)
Lemma step_keeps_cache s a k q :
  rdb s !! k = Some q -> rdb (step s a) !! k = Some q.
Proof.
  intros Hk. destruct a as [image_bytes| |dt|]; simpl; try exact Hk.
  unfold inference_worker_step. destruct (worker s) as [|addr|addr p|addr].
  - destruct (stop_event s); [exact Hk|].
    destruct (job_queue s); exact Hk.
  - destruct (heap s !! addr) as [j|]; [|exact Hk].
    destruct (rdb s !! image_hash j) as [cached|] eqn:Hc; simpl; [exact Hk|].
    destruct (run_inference (image_bytes j)); simpl; [|exact Hk].
    rewrite lookup_insert_ne; [exact Hk|]. congruence.
  - exact Hk.
  - exact Hk.
Qed.

(** A completed job is never touched again. *)
Lemma step_keeps_done s a addr j :
  invariant s -> heap s !! addr = Some j -> result_event j = true ->
  heap (step s a) !! addr = Some j.
Proof.
  intros Hinv Hl He. destruct a as [image_bytes| |dt|]; simpl; try exact Hl.
  - rewrite lookup_app_l; [exact Hl|]. eapply lookup_lt_Some. exact Hl.
  - unfold inference_worker_step. destruct (worker s) as [|a|a p|a] eqn:Hw.
    + destruct (stop_event s); [exact Hl|]. destruct (job_queue s); exact Hl.
    + destruct (heap s !! a) as [ja|]; [|exact Hl].
      destruct (rdb s !! image_hash ja); [exact Hl|].
      destruct (run_inference (image_bytes ja)); exact Hl.
    + simpl. rewrite list_lookup_alter_ne; [exact Hl|]. intros ->.
      destruct (inv_held s Hinv addr) as (_ & j' & Hl' & He' & _);
        [rewrite Hw; reflexivity|].
      congruence.
    + exact Hl.
Qed.

Lemma run_keeps_done acts : forall s addr j p,
  invariant s -> heap s !! addr = Some j -> result_event j = true ->
  rdb s !! image_hash j = Some p ->
  heap (run acts s) !! addr = Some j /\ rdb (run acts s) !! image_hash j = Some p.
Proof.
  induction acts as [|a acts IH]; intros s addr j p Hinv Hl He Hc; simpl.
  - split; assumption.
  - apply IH.
    + apply invariant_step. exact Hinv.
    + apply step_keeps_done; assumption.
    + exact He.
    + apply step_keeps_cache. exact Hc.
Qed.

(** [stop_event] is set once and for all. *)
Lemma stop_event_step s a : stop_event s = true -> stop_event (step s a) = true.
Proof.
  intros Hs. destruct a as [image_bytes| |dt|]; simpl; try exact Hs; [|reflexivity].
  unfold inference_worker_step. destruct (worker s) as [|addr|addr p|addr].
  - rewrite Hs. exact Hs.
  - destruct (heap s !! addr) as [j|]; [|exact Hs].
    destruct (rdb s !! image_hash j); [exact Hs|].
    destruct (run_inference (image_bytes j)); exact Hs.
  - exact Hs.
  - exact Hs.
Qed.

Lemma stop_event_run acts : forall s,
  stop_event s = true -> stop_event (run acts s) = true.
Proof.
  induction acts as [|a acts IH]; intros s Hs; simpl; [exact Hs|].
  apply IH. apply stop_event_step. exact Hs.
Qed.

Lemma running_before acts s :
  stop_event (run acts s) = false -> stop_event s = false.
Proof.
  intros Hr. destruct (stop_event s) eqn:Hs; [|reflexivity].
  rewrite (stop_event_run acts s Hs) in Hr. discriminate Hr.
Qed.

(** A thread that has ended stays ended, and changes nothing any more. *)
Lemma crashed_step s a : crashed s = true -> crashed (step s a) = true.
Proof.
  intros Hc. destruct a as [image_bytes| |dt|]; simpl; try exact Hc.
  rewrite work_ended; exact Hc.
Qed.

Lemma crashed_run acts : forall s, crashed s = true -> crashed (run acts s) = true.
Proof.
  induction acts as [|a acts IH]; intros s Hc; simpl; [exact Hc|].
  apply IH. apply crashed_step. exact Hc.
Qed.

Lemma alive_before acts s : crashed (run acts s) = false -> crashed s = false.
Proof.
  intros Hr. destruct (crashed s) eqn:Hc; [|reflexivity].
  rewrite (crashed_run acts s Hc) in Hr. discriminate Hr.
Qed.

(** A job not yet completed is in the queue or in the worker's hands, so a
    worker that has not ended owes it a number of steps bounded by the
    queue's length. *)
Lemma pending_owes s addr j :
  invariant s -> crashed s = false ->
  heap s !! addr = Some j -> result_event j = false ->
  exists n, owes s addr n /\ n <= 3 * length (job_queue s) + 2.
Proof.
  intros Hinv Halive Hl He. unfold owes. unfold crashed in Halive.
  destruct (inv_pending s Hinv addr j Hl He) as [Hin|Hh].
  - apply list_elem_of_lookup_1 in Hin. destruct Hin as [k Hk].
    pose proof (lookup_lt_Some _ _ _ Hk) as Hlt.
    destruct (worker s) as [|a|a p|a]; [| | |discriminate Halive].
    + exists (3 * k + 3). split; [eauto|lia].
    + exists (2 + (3 * k + 3)). split; [right; eauto|lia].
    + exists (1 + (3 * k + 3)). split; [right; eauto|lia].
  - destruct (worker s) as [|a|a p|a]; [discriminate Hh| | |discriminate Halive];
      injection Hh as ->.
    + exists 2. split; [left; auto|lia].
    + exists 1. split; [left; auto|lia].
Qed.

(** What the other threads do changes neither the job nor what the worker
    owes it. *)
Lemma owes_other s a addr j n :
  is_work a = false -> heap s !! addr = Some j -> owes s addr n ->
  heap (step s a) !! addr = Some j /\ owes (step s a) addr n.
Proof.
  intros Ha Hl Ho. destruct a as [image_bytes| |dt|]; try discriminate Ha;
    simpl; try (split; assumption).
  split.
  - rewrite lookup_app_l; [exact Hl|]. eapply lookup_lt_Some. exact Hl.
  - unfold owes in *. simpl.
    destruct (worker s) as [|b|b p|b]; [| | |exact Ho].
    + destruct Ho as (k & Hk & ->). exists k. split; [|reflexivity].
      apply lookup_app_l_Some. exact Hk.
    + destruct Ho as [Ho|(k & Hk & ->)]; [left; exact Ho|right].
      exists k. split; [|reflexivity]. apply lookup_app_l_Some. exact Hk.
    + destruct Ho as [Ho|(k & Hk & ->)]; [left; exact Ho|right].
      exists k. split; [|reflexivity]. apply lookup_app_l_Some. exact Hk.
Qed.

(** A step of the worker, not shut down and not ended by it, pays one of
    the steps owed. *)
Lemma owes_work s addr j n :
  invariant s -> stop_event s = false -> crashed (work s) = false ->
  heap s !! addr = Some j -> owes s addr (S (S n)) ->
  heap (work s) !! addr = Some j /\ owes (work s) addr (S n).
Proof.
  intros Hinv Hstop Halive Hl Ho. unfold owes in Ho.
  destruct (worker s) as [|a|a p|a] eqn:Hw; [| | |contradiction].
  - destruct Ho as (k & Hk & Hn).
    destruct (job_queue s) as [|a0 rest] eqn:Hq;
      [rewrite lookup_nil in Hk; discriminate Hk|].
    rewrite (work_take s a0 rest Hw Hstop Hq). unfold owes. simpl.
    split; [exact Hl|].
    destruct k as [|k]; simpl in Hk.
    + injection Hk as ->. left. split; [reflexivity|lia].
    + right. exists k. split; [exact Hk|lia].
  - destruct (inv_held s Hinv a) as (Hnotin & ja & Hla & _);
      [rewrite Hw; reflexivity|].
    destruct (work_compute s a ja Hw Hla Halive) as (p & Heq & _).
    rewrite Heq. unfold owes. simpl. split; [exact Hl|].
    destruct Ho as [[-> Hn]|(k & Hk & Hn)].
    + left. split; [reflexivity|lia].
    + right. exists k. split; [exact Hk|lia].
  - destruct (inv_held s Hinv a) as (Hnotin & ja & Hla & _);
      [rewrite Hw; reflexivity|].
    rewrite (work_publish s a p Hw). unfold owes. simpl.
    destruct Ho as [[-> Hn]|(k & Hk & Hn)]; [lia|].
    assert (Hne : a <> addr).
    { intros ->. apply Hnotin. eapply list_elem_of_lookup_2. exact Hk. }
    split; [rewrite list_lookup_alter_ne by exact Hne; exact Hl|].
    exists k. split; [exact Hk|lia].
Qed.

(** The last step owed completes the job with the probability the cache
    holds under its fingerprint. *)
Lemma owes_last s addr j :
  invariant s -> heap s !! addr = Some j -> owes s addr 1 ->
  exists p,
    heap (work s) !! addr
      = Some (Job (image_hash j) (image_bytes j) true (Some p)) /\
    rdb (work s) !! image_hash j = Some p.
Proof.
  intros Hinv Hl Ho. unfold owes in Ho.
  destruct (worker s) as [|a|a p|a] eqn:Hw; [| | |contradiction].
  - destruct Ho as (k & _ & Hn). lia.
  - destruct Ho as [[_ Hn]|(k & _ & Hn)]; lia.
  - destruct Ho as [[-> _]|(k & _ & Hn)]; [|lia].
    exists p. rewrite (work_publish s addr p Hw). simpl. split.
    + rewrite list_lookup_alter_eq, Hl. reflexivity.
    + eapply inv_computed; eassumption.
Qed.

(** A job that the worker owes [n] steps is completed, and its result
    cached, once the worker has taken [n] steps and is still running;
    nothing the other threads do in between gets in the way. *)
Lemma run_settles acts : forall s n addr j,
  invariant s ->
  stop_event (run acts s) = false ->
  crashed (run acts s) = false ->
  heap s !! addr = Some j ->
  owes s addr n ->
  n <= worker_steps acts ->
  exists p,
    heap (run acts s) !! addr
      = Some (Job (image_hash j) (image_bytes j) true (Some p)) /\
    rdb (run acts s) !! image_hash j = Some p.
Proof.
  induction acts as [|a acts IH]; intros s n addr j Hinv Hrun Halive Hl Ho Hsteps.
  - unfold worker_steps in Hsteps. simpl in Hsteps.
    assert (n = 0) by lia. subst n. exfalso. unfold owes in Ho.
    destruct (worker s); [destruct Ho as (k & _ & Hn)
                         |destruct Ho as [[_ Hn]|(k & _ & Hn)]
                         |destruct Ho as [[_ Hn]|(k & _ & Hn)]
                         |contradiction]; lia.
  - change (run (a :: acts) s) with (run acts (step s a)) in *.
    pose proof (running_before acts _ Hrun) as Hstop'.
    pose proof (alive_before acts _ Halive) as Halive'.
    destruct (is_work a) eqn:Ha.
    + destruct a; try discriminate Ha. clear Ha.
      assert (Hstop : stop_event s = false).
      { destruct (stop_event s) eqn:Hs; [|reflexivity].
        rewrite (stop_event_step s Work Hs) in Hstop'. discriminate Hstop'. }
      unfold worker_steps in Hsteps. simpl in Hsteps.
      destruct n as [|[|n]].
      * exfalso. unfold owes in Ho.
        destruct (worker s); [destruct Ho as (k & _ & Hn)
                             |destruct Ho as [[_ Hn]|(k & _ & Hn)]
                             |destruct Ho as [[_ Hn]|(k & _ & Hn)]
                             |contradiction]; lia.
      * destruct (owes_last s addr j Hinv Hl Ho) as (p & Hheap & Hcache).
        exists p.
        apply (run_keeps_done acts _ addr
                 (Job (image_hash j) (image_bytes j) true (Some p)) p).
        -- apply invariant_step. exact Hinv.
        -- exact Hheap.
        -- reflexivity.
        -- exact Hcache.
      * destruct (owes_work s addr j n Hinv Hstop Halive' Hl Ho) as [Hl' Ho'].
        apply (IH _ (S n) addr j); try assumption.
        -- apply invariant_step. exact Hinv.
        -- unfold worker_steps. lia.
    + destruct (owes_other s a addr j n Ha Hl Ho) as [Hl' Ho'].
      apply (IH _ n addr j); try assumption.
      * apply invariant_step. exact Hinv.
      * unfold worker_steps in *. simpl in Hsteps. rewrite Ha in Hsteps. exact Hsteps.
Qed.

(** What the handler answers on the queue path is a timeout or a result
    marked as not served from the cache. *)
Lemma predict_respond_fresh addr waited s r :
  predict_respond addr waited s = Py.Ok r ->
  r = JSONResponse "Inference timeout" 504 \/ exists p, r = Dict false p.
Proof.
  unfold predict_respond. destruct waited; simpl.
  - destruct (heap s !! addr) as [[h b e [p|]]|]; intros Hr; try discriminate Hr.
    injection Hr as <-. right. exists p. reflexivity.
  - intros Hr. injection Hr as <-. left. reflexivity.
Qed.

(** Once the signal has fired the handler answers with the probability the
    worker stored in the job, which is the cache entry of its hash. *)
Lemma predict_wait_completed s addr j since :
  invariant s -> heap s !! addr = Some j -> wait 60 since addr s = Some true ->
  exists p,
    predict_wait since addr s = Some (Py.Ok (Dict false p)) /\
    result_event j = true /\
    result j = Some p /\
    rdb s !! image_hash j = Some p.
Proof.
  intros Hinv Hl Hw. unfold predict_wait. rewrite Hw.
  unfold wait in Hw. rewrite Hl in Hw.
  destruct (result_event j) eqn:He.
  - destruct (inv_done s Hinv addr j Hl He) as (p & Hr & Hc).
    exists p. split; [|split; [reflexivity|split; assumption]].
    unfold predict_respond. simpl. rewrite Hl.
    destruct j as [h b e r]. simpl in Hr. rewrite Hr. reflexivity.
  - destruct (since + 60 <=? clock s)%Z; discriminate Hw.
Qed.

(** After the thread has ended the cache and the jobs stay as they are. *)
Lemma crashed_frozen acts : forall s,
  crashed s = true ->
  rdb (run acts s) = rdb s /\
  forall addr j, heap s !! addr = Some j -> heap (run acts s) !! addr = Some j.
Proof.
  induction acts as [|a acts IH]; intros s Hc; [split; auto|].
  change (run (a :: acts) s) with (run acts (step s a)).
  destruct (IH (step s a) (crashed_step s a Hc)) as [Hrdb Hheap].
  assert (Hstep : rdb (step s a) = rdb s /\
                  forall addr j, heap s !! addr = Some j ->
                                 heap (step s a) !! addr = Some j).
  { destruct a as [image_bytes| |dt|]; simpl; try (split; auto; fail).
    - split; [reflexivity|]. intros addr j Hl.
      rewrite lookup_app_l; [exact Hl|]. eapply lookup_lt_Some. exact Hl.
    - rewrite work_ended by exact Hc. split; auto. }
  destruct Hstep as [Hrdb' Hheap'].
  split; [congruence|]. intros addr j Hl. apply Hheap, Hheap'. exact Hl.
Qed.

(** After a shutdown a job in the queue stays there, untouched. *)
Lemma stopped_step s a addr j :
  invariant s -> stop_event s = true ->
  addr ∈ job_queue s -> heap s !! addr = Some j ->
  addr ∈ job_queue (step s a) /\ heap (step s a) !! addr = Some j.
Proof.
  intros Hinv Hstop Hin Hl. destruct a as [image_bytes| |dt|]; simpl;
    try (split; assumption).
  - split; [apply elem_of_app; left; exact Hin|].
    rewrite lookup_app_l; [exact Hl|]. eapply lookup_lt_Some. exact Hl.
  - unfold inference_worker_step. destruct (worker s) as [|a|a p|a] eqn:Hw.
    + rewrite Hstop. split; assumption.
    + destruct (heap s !! a) as [ja|]; [|split; assumption].
      destruct (rdb s !! image_hash ja); [split; assumption|].
      destruct (run_inference (image_bytes ja)); split; assumption.
    + simpl. split; [exact Hin|].
      rewrite list_lookup_alter_ne; [exact Hl|]. intros ->.
      destruct (inv_held s Hinv addr) as [Hnotin _]; [rewrite Hw; reflexivity|].
      contradiction.
    + split; assumption.
Qed.

Lemma stopped_run acts : forall s addr j,
  invariant s -> stop_event s = true ->
  addr ∈ job_queue s -> heap s !! addr = Some j ->
  addr ∈ job_queue (run acts s) /\ heap (run acts s) !! addr = Some j.
Proof.
  induction acts as [|a acts IH]; intros s addr j Hinv Hstop Hin Hl;
    [split; assumption|].
  change (run (a :: acts) s) with (run acts (step s a)).
  destruct (stopped_step s a addr j Hinv Hstop Hin Hl) as [Hin' Hl'].
  apply IH; try assumption.
  - apply invariant_step. exact Hinv.
  - apply stop_event_step. exact Hstop.
Qed.

(** After a shutdown the cache gains at most the fingerprint of the job in
    the worker's hands. *)
Lemma stopped_cache_step s a k :
  stop_event s = true -> rdb s !! k = None ->
  (forall b, held (worker s) = Some b ->
     exists j, heap s !! b = Some j /\ image_hash j <> k) ->
  rdb (step s a) !! k = None /\
  (forall b, held (worker (step s a)) = Some b ->
     exists j, heap (step s a) !! b = Some j /\ image_hash j <> k).
Proof.
  intros Hstop Hk Hheld. destruct a as [image_bytes| |dt|]; simpl;
    try (split; assumption).
  - split; [exact Hk|]. intros b Hb. destruct (Hheld b Hb) as (j & Hl & Hne).
    exists j. split; [|exact Hne].
    rewrite lookup_app_l; [exact Hl|]. eapply lookup_lt_Some. exact Hl.
  - unfold inference_worker_step. destruct (worker s) as [|a|a p|a] eqn:Hw.
    + rewrite Hstop. split; [exact Hk|]. rewrite Hw. exact Hheld.
    + destruct (Hheld a eq_refl) as (j & Hl & Hne). rewrite Hl.
      destruct (rdb s !! image_hash j).
      * simpl. split; [exact Hk|]. intros b Hb. apply Hheld. exact Hb.
      * destruct (run_inference (image_bytes j)); simpl.
        -- split; [rewrite lookup_insert_ne; [exact Hk|exact Hne]|].
           intros b Hb. apply Hheld. exact Hb.
        -- split; [exact Hk|]. intros b Hb. apply Hheld. exact Hb.
    + simpl. split; [exact Hk|]. intros b Hb. discriminate Hb.
    + split; [exact Hk|]. rewrite Hw. exact Hheld.
Qed.

Lemma stopped_cache_run acts : forall s k,
  stop_event s = true -> rdb s !! k = None ->
  (forall b, held (worker s) = Some b ->
     exists j, heap s !! b = Some j /\ image_hash j <> k) ->
  rdb (run acts s) !! k = None.
Proof.
  induction acts as [|a acts IH]; intros s k Hstop Hk Hheld; [exact Hk|].
  change (run (a :: acts) s) with (run acts (step s a)).
  destruct (stopped_cache_step s a k Hstop Hk Hheld) as [Hk' Hheld'].
  apply IH; try assumption. apply stop_event_step. exact Hstop.
Qed.

End ServerFacts.

(** C3, as amended.  A submission whose wait of 60 time units elapses
    with the signal unset is answered 504 with the body
    [{"error": "Inference timeout"}], and its job is not cancelled: it is
    still in the queue or in the worker's hands, and as long as the worker
    keeps running, that is, the application has not been shut down and no
    model call has raised and ended the thread, then once it has taken the
    steps it owes the jobs queued (three each, and two for a job in its
    hands) the job is completed with a probability that the Cache Store
    holds under its fingerprint, so that a later submission of the same
    bytes is served from the cache. *)
Theorem timeout_does_not_cancel (run_inference : list byte -> Py.result float)
    (s : Server.state) (addr : nat) (j : Server.job) (since : Z)
    (acts : list Server.action) :
  Server.reachable run_inference s ->
  Server.heap s !! addr = Some j ->
  Server.wait 60 since addr s = Some false ->
  Server.stop_event (Server.run run_inference acts s) = false ->
  Server.crashed (Server.run run_inference acts s) = false ->
  3 * length (Server.job_queue s) + 2 <= Server.worker_steps acts ->
  Server.predict_wait since addr s
    = Some (Py.Ok (Server.JSONResponse "Inference timeout" 504)) /\
  (addr ∈ Server.job_queue s \/ Server.held (Server.worker s) = Some addr) /\
  exists p,
    Server.heap (Server.run run_inference acts s) !! addr
      = Some (Server.Job (Server.image_hash j) (Server.image_bytes j) true (Some p)) /\
    Server.rdb (Server.run run_inference acts s) !! Server.image_hash j = Some p /\
    Server.predict_submit (Server.image_bytes j) (Server.run run_inference acts s)
      = (Server.run run_inference acts s, inl (Server.Dict true p)).
Proof.
  intros Hreach Hl Hw Hrun Halive Hsteps.
  pose proof (reachable_invariant run_inference s Hreach) as Hinv.
  assert (He : Server.result_event j = false).
  { unfold Server.wait in Hw. rewrite Hl in Hw.
    destruct (Server.result_event j); [discriminate Hw|reflexivity]. }
  split; [|split].
  - unfold Server.predict_wait. rewrite Hw. reflexivity.
  - eapply Server.inv_pending; eassumption.
  - destruct (pending_owes s addr j Hinv
                (alive_before run_inference acts s Halive) Hl He) as (n & Ho & Hn).
    destruct (run_settles run_inference acts s n addr j Hinv Hrun Halive Hl Ho)
      as (p & Hheap & Hcache); [lia|].
    exists p. split; [exact Hheap|]. split; [exact Hcache|].
    unfold Server.predict_submit.
    rewrite <- (Server.inv_hash s Hinv addr j Hl). rewrite Hcache. reflexivity.
Qed.

(** An image is submitted and its handler times out before the worker gets
    to it; five steps of the worker later it is in the cache. *)
Lemma timeout_does_not_cancel_witness :
  exists p,
    Server.predict_submit (Server.pbm_image "000")
      (Server.run Server.sample_model
         [Server.Work; Server.Work; Server.Work; Server.Work; Server.Work]
         (Server.run Server.sample_model
            [Server.Put (Server.pbm_image "000"); Server.Tick 60]
            (Server.start ∅)))
    = (Server.run Server.sample_model
         [Server.Work; Server.Work; Server.Work; Server.Work; Server.Work]
         (Server.run Server.sample_model
            [Server.Put (Server.pbm_image "000"); Server.Tick 60]
            (Server.start ∅)),
       inl (Server.Dict true p)).
Proof.
  destruct (timeout_does_not_cancel Server.sample_model
              (Server.run Server.sample_model
                 [Server.Put (Server.pbm_image "000"); Server.Tick 60]
                 (Server.start ∅))
              0
              (Server.Job (Server.hash_image_bytes (Server.pbm_image "000"))
                          (Server.pbm_image "000") false None)
              0
              [Server.Work; Server.Work; Server.Work; Server.Work; Server.Work])
    as (_ & _ & p & _ & _ & Hsubmit).
  - exists ∅, [Server.Put (Server.pbm_image "000"); Server.Tick 60].
    reflexivity.
  - vm_compute. reflexivity.
  - vm_compute. reflexivity.
  - vm_compute. reflexivity.
  - vm_compute. reflexivity.
  - vm_compute. lia.
  - exists p. exact Hsubmit.
Defined.

(** Two schedules on which the job of a timed-out submission is never
    completed.  First, the handler of an upload that [Image.open] cannot
    decode (the three bytes of "abc") times out while the worker, which
    took the job, has been ended by the exception of the model call:
    whatever happens afterwards the job's event stays unset, the cache
    holds nothing under its fingerprint and a later submission of the same
    bytes misses.  Second, two images are submitted, the worker takes the
    first, the handler of the second times out and the application is
    shut down: the worker completes the job in its hands and leaves its
    loop, and whatever happens afterwards the second job stays in the
    queue with its event unset, the cache holds nothing under its
    fingerprint and a later submission of the same bytes misses. *)
Lemma timeout_job_can_be_lost :
  (let abc := ["a"; "b"; "c"]%byte in
   let s := Server.run Server.sample_model
              [Server.Put abc; Server.Work; Server.Work; Server.Tick 60]
              (Server.start ∅) in
   Server.predict_wait 0 0 s
     = Some (Py.Ok (Server.JSONResponse "Inference timeout" 504)) /\
   Server.stop_event s = false /\
   forall acts,
     Server.heap (Server.run Server.sample_model acts s) !! 0%nat
       = Some (Server.Job (Server.hash_image_bytes abc) abc false None) /\
     Server.rdb (Server.run Server.sample_model acts s)
       !! Server.hash_image_bytes abc = None /\
     snd (Server.predict_submit abc (Server.run Server.sample_model acts s))
       = inr (length (Server.heap (Server.run Server.sample_model acts s)))) /\
  (let second := Server.pbm_image "255" in
   let s := Server.run Server.sample_model
              [Server.Put (Server.pbm_image "000"); Server.Put second;
               Server.Work; Server.Tick 60; Server.Shutdown]
              (Server.start ∅) in
   Server.predict_wait 0 1 s
     = Some (Py.Ok (Server.JSONResponse "Inference timeout" 504)) /\
   Server.crashed s = false /\
   forall acts,
     Server.heap (Server.run Server.sample_model acts s) !! 1%nat
       = Some (Server.Job (Server.hash_image_bytes second) second false None) /\
     Server.rdb (Server.run Server.sample_model acts s)
       !! Server.hash_image_bytes second = None /\
     snd (Server.predict_submit second (Server.run Server.sample_model acts s))
       = inr (length (Server.heap (Server.run Server.sample_model acts s)))).
Proof.
  split.
  - cbv zeta.
    set (abc := ["a"; "b"; "c"]%byte).
    set (s := Server.run Server.sample_model
                [Server.Put abc; Server.Work; Server.Work; Server.Tick 60]
                (Server.start ∅)).
    assert (Hc : Server.crashed s = true) by (vm_compute; reflexivity).
    assert (Hl : Server.heap s !! 0%nat
                 = Some (Server.Job (Server.hash_image_bytes abc) abc false None))
      by (vm_compute; reflexivity).
    assert (Hk : Server.rdb s !! Server.hash_image_bytes abc = None)
      by (vm_compute; reflexivity).
    split; [vm_compute; reflexivity|]. split; [vm_compute; reflexivity|].
    intros acts.
    destruct (crashed_frozen Server.sample_model acts s Hc) as [Hrdb Hheap].
    assert (Hk' : Server.rdb (Server.run Server.sample_model acts s)
                    !! Server.hash_image_bytes abc = None)
      by (rewrite Hrdb; exact Hk).
    split; [apply Hheap; exact Hl|]. split; [exact Hk'|].
    unfold Server.predict_submit. rewrite Hk'. reflexivity.
  - cbv zeta.
    set (second := Server.pbm_image "255").
    set (s := Server.run Server.sample_model
                [Server.Put (Server.pbm_image "000"); Server.Put second;
                 Server.Work; Server.Tick 60; Server.Shutdown]
                (Server.start ∅)).
    assert (Hreach : Server.reachable Server.sample_model s)
      by (eexists ∅, _; reflexivity).
    pose proof (reachable_invariant Server.sample_model s Hreach) as Hinv.
    assert (Hstop : Server.stop_event s = true) by (vm_compute; reflexivity).
    assert (Hq : Server.job_queue s = [1%nat]) by (vm_compute; reflexivity).
    assert (Hl : Server.heap s !! 1%nat
                 = Some (Server.Job (Server.hash_image_bytes second) second false None))
      by (vm_compute; reflexivity).
    assert (Hk : Server.rdb s !! Server.hash_image_bytes second = None)
      by (vm_compute; reflexivity).
    assert (Hheld : forall b, Server.held (Server.worker s) = Some b ->
              exists j, Server.heap s !! b = Some j /\
                        Server.image_hash j <> Server.hash_image_bytes second).
    { intros b Hb. vm_compute in Hb. injection Hb as <-.
      eexists. split; [vm_compute; reflexivity|].
      vm_compute. intros Heq. discriminate Heq. }
    split; [vm_compute; reflexivity|]. split; [vm_compute; reflexivity|].
    intros acts.
    assert (Hin : 1%nat ∈ Server.job_queue s)
      by (rewrite Hq; apply list_elem_of_singleton; reflexivity).
    destruct (stopped_run Server.sample_model acts s 1 _ Hinv Hstop Hin Hl)
      as [_ Hl'].
    pose proof (stopped_cache_run Server.sample_model acts s _ Hstop Hk Hheld) as Hk'.
    split; [exact Hl'|]. split; [exact Hk'|].
    unfold Server.predict_submit. rewrite Hk'. reflexivity.
Qed.

(** C7.  A submission whose fingerprint the Cache Store holds at the
    initial lookup is answered at once with [from_cache] true and the
    cached probability: the state is left as it was, so no job is built
    and nothing is put on the queue.  In particular, once a first
    submission has been answered with a freshly computed probability,
    every later submission of the same bytes is answered with [from_cache]
    true and that same probability. *)
Theorem cache_hit_served_from_cache (run_inference : list byte -> Py.result float) :
  (forall s image_bytes cached,
     Server.rdb s !! Server.hash_image_bytes image_bytes = Some cached ->
     Server.predict_submit image_bytes s = (s, inl (Server.Dict true cached))) /\
  (forall s addr j since acts,
     Server.reachable run_inference s ->
     Server.heap s !! addr = Some j ->
     Server.wait 60 since addr s = Some true ->
     exists p,
       Server.predict_wait since addr s = Some (Py.Ok (Server.Dict false p)) /\
       Server.predict_submit (Server.image_bytes j) (Server.run run_inference acts s)
         = (Server.run run_inference acts s, inl (Server.Dict true p))).
Proof.
  split.
  - intros s image_bytes cached Hc. unfold Server.predict_submit.
    rewrite Hc. reflexivity.
  - intros s addr j since acts Hreach Hl Hw.
    pose proof (reachable_invariant run_inference s Hreach) as Hinv.
    destruct (predict_wait_completed s addr j since Hinv Hl Hw)
      as (p & Hresp & He & Hres & Hc).
    exists p. split; [exact Hresp|].
    destruct (run_keeps_done run_inference acts s addr j p Hinv Hl He Hc)
      as [_ Hc'].
    unfold Server.predict_submit.
    rewrite <- (Server.inv_hash s Hinv addr j Hl). rewrite Hc'. reflexivity.
Qed.

(** The end-to-end scenario on a cold system, for an image [b1] the model
    call returns on: the first submission misses and is computed, the
    second is served from the cache. *)
Example cold_then_warm (run_inference : list byte -> Py.result float)
    (b1 : list byte) (p1 : float) :
  run_inference b1 = Py.Ok p1 ->
  let s1 := Server.run run_inference
              [Server.Put b1; Server.Work; Server.Work; Server.Work]
              (Server.start ∅) in
  Server.predict_submit b1 (Server.start ∅)
    = (Server.run run_inference [Server.Put b1] (Server.start ∅), inr 0) /\
  Server.predict_wait 0 0 s1 = Some (Py.Ok (Server.Dict false p1)) /\
  Server.rdb s1 !! Server.hash_image_bytes b1 = Some p1 /\
  Server.predict_submit b1 s1 = (s1, inl (Server.Dict true p1)).
Proof.
  intros Hp1. cbv zeta.
  assert (Hs1 : Server.run run_inference
                  [Server.Put b1; Server.Work; Server.Work; Server.Work]
                  (Server.start ∅)
          = Server.State {[Server.hash_image_bytes b1 := p1]} []
              [Server.Job (Server.hash_image_bytes b1) b1 true (Some p1)]
              false Server.Idle [b1] 0).
  { unfold Server.run. simpl. unfold Server.inference_worker_step at 3. simpl.
    unfold Server.inference_worker_step at 2. simpl. rewrite lookup_empty, Hp1.
    unfold Server.inference_worker_step. simpl. reflexivity. }
  rewrite Hs1. unfold Server.predict_submit, Server.predict_wait, Server.wait. simpl.
  rewrite lookup_empty, lookup_singleton_eq. repeat split.
Qed.

(** C9.  On the queue path the answer never reports [from_cache] true.  A
    submission that missed the cache and whose job is completed before the
    timeout is answered with [from_cache] false, and a client that, after
    a local miss, receives this answer (a 200 reply whose body carries
    [from_cache] false and the probability) writes the probability into its
    local cache.  This includes the job for which the worker's second look
    at the Cache Store finds an entry: no inference is run for it, and the
    answer still reports [from_cache] false. *)
Theorem queue_path_reports_fresh (run_inference : list byte -> Py.result float)
    (s : Server.state) (addr : nat) (j : Server.job) (since : Z) :
  Server.reachable run_inference s ->
  Server.heap s !! addr = Some j ->
  Server.wait 60 since addr s = Some true ->
  (exists p,
     Server.predict_wait since addr s = Some (Py.Ok (Server.Dict false p)) /\
     forall requests_post image_bytes timeout_sec max_retries w,
       Client.rdb w !! Client.hash_image_bytes image_bytes = None ->
       (0 < max_retries)%Z ->
       requests_post (Client.posts w) image_bytes timeout_sec
         = Client.Response 200 (Client.Json None (Some false) (Some p)) ->
       Client.predict_with_cache requests_post image_bytes timeout_sec max_retries w
       = (Client.World (<[Client.hash_image_bytes image_bytes := p]> (Client.rdb w))
                       (S (Client.posts w)),
          Py.Ok p)) /\
  (forall waited from_cache p,
     Server.predict_respond addr waited s = Py.Ok (Server.Dict from_cache p) ->
     from_cache = false) /\
  (forall s0 addr0 j0 cached since0,
     Server.reachable run_inference s0 ->
     Server.worker s0 = Server.Holding addr0 ->
     Server.heap s0 !! addr0 = Some j0 ->
     Server.rdb s0 !! Server.image_hash j0 = Some cached ->
     Server.inferences (Server.inference_worker run_inference 2 s0)
       = Server.inferences s0 /\
     Server.predict_wait since0 addr0 (Server.inference_worker run_inference 2 s0)
       = Some (Py.Ok (Server.Dict false cached))).
Proof.
  intros Hreach Hl Hw.
  pose proof (reachable_invariant run_inference s Hreach) as Hinv.
  split; [|split].
  - destruct (predict_wait_completed s addr j since Hinv Hl Hw) as (p & Hresp & _).
    exists p. split; [exact Hresp|].
    intros post b t m w Hmiss Hpos Hp. unfold Client.predict_with_cache.
    rewrite Hmiss. destruct (Z.to_nat m) as [|n] eqn:Hn; [lia|].
    rewrite (retry_loop_result post _ b t n w 200%Z false p Hp eq_refl).
    reflexivity.
  - intros waited fc p Hr. apply predict_respond_fresh in Hr.
    destruct Hr as [Hr|[q Hr]]; [discriminate Hr|]. congruence.
  - intros s0 addr0 j0 cached since0 Hreach0 Hw0 Hl0 Hc. simpl.
    destruct (work_compute run_inference s0 addr0 j0 Hw0 Hl0) as (p & Heq & Hp & _).
    { apply (work_alive run_inference s0 addr0 j0 Hw0 Hl0). left. eauto. }
    rewrite Hc in Heq, Hp. subst p. rewrite Heq.
    rewrite work_publish with (addr := addr0) (p := cached) by reflexivity.
    simpl. split; [reflexivity|].
    unfold Server.predict_wait, Server.wait, Server.predict_respond. simpl.
    rewrite list_lookup_alter_eq, Hl0. reflexivity.
Qed.

(** A schedule in which the first submission has timed out when the second
    one arrives and misses; the worker runs the model for the first job
    and finds its result in the cache when it comes to the second. *)
Lemma queue_path_reports_fresh_witness :
  exists p,
    Server.predict_wait 0 1
      (Server.run Server.sample_model
         [Server.Put (Server.pbm_image "000"); Server.Tick 60; Server.Put (Server.pbm_image "000");
          Server.Work; Server.Work; Server.Work;
          Server.Work; Server.Work; Server.Work]
         (Server.start ∅))
    = Some (Py.Ok (Server.Dict false p)).
Proof.
  destruct (queue_path_reports_fresh Server.sample_model
              (Server.run Server.sample_model
                 [Server.Put (Server.pbm_image "000"); Server.Tick 60; Server.Put (Server.pbm_image "000");
                  Server.Work; Server.Work; Server.Work;
                  Server.Work; Server.Work; Server.Work]
                 (Server.start ∅))
              1
              (Server.Job (Server.hash_image_bytes (Server.pbm_image "000")) (Server.pbm_image "000")
                          true (Some 0.25%float))
              0)
    as [(p & Hresp & _) _].
  - exists ∅, [Server.Put (Server.pbm_image "000"); Server.Tick 60; Server.Put (Server.pbm_image "000");
               Server.Work; Server.Work; Server.Work;
               Server.Work; Server.Work; Server.Work].
    reflexivity.
  - vm_compute. reflexivity.
  - vm_compute. reflexivity.
  - exists p. exact Hresp.
Defined.

Example single_inference_for_two_submissions :
  Server.inferences
    (Server.run Server.sample_model
       [Server.Put (Server.pbm_image "000"); Server.Tick 60; Server.Put (Server.pbm_image "000");
        Server.Work; Server.Work; Server.Work;
        Server.Work; Server.Work; Server.Work]
       (Server.start ∅))
  = [(Server.pbm_image "000")].
Proof. vm_compute. reflexivity. Qed.

(** ** The Reward Engine *)

Section FloatFacts.

Local Open Scope float_scope.

(** A finite float times zero is a zero, of either sign. *)
Lemma mul_zero_finite (x : float) : is_finite x = true -> (x * 0 =? 0) = true.
Proof.
  unfold is_finite, is_nan, is_infinity.
  rewrite !FloatAxioms.eqb_spec, mul_spec, abs_spec.
  change (Prim2SF 0) with (S754_zero false).
  change (Prim2SF infinity) with (S754_infinity false).
  destruct (Prim2SF x) as [s|s| |s m e]; intros Hfin; try destruct s; cbn in *;
    try reflexivity; try discriminate.
Qed.

(** Whatever the float, its product with zero is a zero or NaN. *)
Lemma mul_zero_cases (x : float) : x * 0 = 0 \/ x * 0 = -0 \/ x * 0 = nan.
Proof.
  rewrite <- (SF2Prim_Prim2SF (x * 0)). rewrite mul_spec.
  change (Prim2SF 0) with (S754_zero false).
  destruct (Prim2SF x) as [s|s| |s m e]; simpl; try destruct s; simpl; auto.
Qed.

Lemma compute_penalty_out_of_range (p : float) :
  (p <? 0) = true \/ (1 <? p) = true -> Reward.compute_penalty p = 0.
Proof.
  unfold Reward.compute_penalty. intros [-> | ->]; [reflexivity|].
  rewrite orb_true_r. reflexivity.
Qed.

End FloatFacts.

Section RewardFacts.

Import Py Reward.

Context {T : Type} {impl : PerformanceTracker T}.

Local Abbreviation frame := (Reward.frame T).
Local Abbreviation stmt := (Reward.stmt T).

Lemma bind_ok {A B : Type} (m : stmt A) (k : A -> stmt B) (fr fr' : frame) b :
  bind m k fr = (fr', Ok b) ->
  exists fr1 a, m fr = (fr1, Ok a) /\ k a fr1 = (fr', Ok b).
Proof.
  unfold bind. destruct (m fr) as [fr1 [a|e]]; intros Hb; [|discriminate Hb].
  exists fr1, a. split; [reflexivity|exact Hb].
Qed.

Lemma call_ok {A : Type} (method : T -> T * result A) (fr fr' : frame) a :
  call method fr = (fr', Ok a) ->
  exists obj obj',
    tracker fr !! "image" = Some obj /\
    method obj = (obj', Ok a) /\
    fr' = Frame (<["image" := obj']> (tracker fr)) (metrics_100 fr).
Proof.
  unfold call. destruct (tracker fr !! "image") as [obj|]; [|discriminate].
  destruct (method obj) as [obj' r] eqn:Hm. intros Hc.
  exists obj, obj'. split; [reflexivity|]. split; congruence.
Qed.

Lemma subscript_ok (d : gmap string float) key (fr fr' : frame) v :
  subscript d key fr = (fr', Ok v) -> d !! key = Some v /\ fr' = fr.
Proof.
  unfold subscript. destruct (d !! key); intros Hs; [|discriminate Hs].
  split; congruence.
Qed.

(** When the [else] branch ends normally, its reward is the two windows of
    the tracker combined and multiplied by the penalty, and [metrics_100]
    is bound to the longer window. *)
Lemma update_and_rate_ok label uid p hk (fr fr' : frame) reward :
  update_and_rate label uid p hk fr = (fr', Ok reward) ->
  exists t t1 t2 m100 m10 mcc accuracy,
    get_metrics uid 100 t = (t1, Ok m100) /\
    get_metrics uid 10 t1 = (t2, Ok m10) /\
    m100 !! "mcc" = Some mcc /\
    m10 !! "accuracy" = Some accuracy /\
    reward = ((0.5 * mcc + 0.5 * accuracy) * compute_penalty p)%float /\
    metrics_100 fr' = Some m100 /\
    tracker fr' !! "image" = Some t2.
Proof.
  unfold update_and_rate. intros Hr.
  apply bind_ok in Hr. destruct Hr as (fr1 & [] & Hupd & Hr).
  apply call_ok in Hupd. destruct Hupd as (o0 & o1 & _ & _ & ->).
  apply bind_ok in Hr. destruct Hr as (fr2 & m100 & Hg100 & Hr).
  apply call_ok in Hg100. destruct Hg100 as (t & t1 & Hl & Hm100 & ->).
  apply bind_ok in Hr. destruct Hr as (fr3 & [] & Hassign & Hr).
  unfold assign_metrics_100 in Hassign. injection Hassign as <-.
  apply bind_ok in Hr. destruct Hr as (fr4 & m10 & Hg10 & Hr).
  apply call_ok in Hg10. destruct Hg10 as (t1' & t2 & Hl1 & Hm10 & ->).
  simpl in Hl1. rewrite lookup_insert_eq in Hl1. injection Hl1 as <-.
  apply bind_ok in Hr. destruct Hr as (fr5 & mcc & Hmcc & Hr).
  apply subscript_ok in Hmcc. destruct Hmcc as [Hmcc ->].
  apply bind_ok in Hr. destruct Hr as (fr6 & acc & Hacc & Hr).
  apply subscript_ok in Hacc. destruct Hacc as [Hacc ->].
  unfold ret in Hr. injection Hr as <- <-.
  exists t, t1, t2, m100, m10, mcc, acc.
  repeat split; try assumption. simpl. apply lookup_insert_eq.
Qed.

Lemma score_ok label ax uid p (fr fr' : frame) reward :
  score label ax uid p fr = (fr', Ok reward) ->
  exists t t1 t2 m100 m10 mcc accuracy,
    get_metrics uid 100 t = (t1, Ok m100) /\
    get_metrics uid 10 t1 = (t2, Ok m10) /\
    m100 !! "mcc" = Some mcc /\
    m10 !! "accuracy" = Some accuracy /\
    reward = ((0.5 * mcc + 0.5 * accuracy) * compute_penalty p)%float /\
    metrics_100 fr' = Some m100 /\
    tracker fr' !! "image" = Some t2.
Proof.
  unfold score. intros Hr.
  apply bind_ok in Hr. destruct Hr as (fr1 & [] & _ & Hr).
  eapply update_and_rate_ok. exact Hr.
Qed.

(** The sentinel branch: nothing is read but [metrics_100], nothing is
    changed, and the reward dict holds 0.0 whether or not the read of
    [metrics_100] raises. *)
Lemma try_block_no_response label ax uid p (fr : frame) :
  (p =? -1)%float = true ->
  try_block label ax uid p fr
  = match metrics_100 fr with
    | Some m => (fr, {["image" := 0%float]}, {["image" := m]}, None)
    | None => (fr, {["image" := 0%float]}, ∅, Some (UnboundLocalError "metrics_100"))
    end.
Proof.
  intros Hp. unfold try_block. rewrite Hp. unfold ret, read_metrics_100.
  destruct (metrics_100 fr); reflexivity.
Qed.

(** The reward dict the [try] statement leaves behind: empty when the
    branch raised, else the reward of the branch under "image". *)
Lemma try_block_rewards label ax uid p (fr : frame) :
  (try_block label ax uid p fr).1.1.2
  = match (if (p =? -1)%float then ret 0%float else score label ax uid p) fr with
    | (_, Ok reward) => {["image" := reward]}
    | (_, Raise _) => ∅
    end.
Proof.
  unfold try_block.
  destruct ((if (p =? -1)%float then ret 0%float else score label ax uid p) fr)
    as [fr1 [reward|e]]; [|reflexivity].
  unfold read_metrics_100. destruct (metrics_100 fr1); reflexivity.
Qed.

(** If the body of the [try] raised, the reward appended is 0.0. *)
Lemma iteration_raised label ax uid p (fr : frame) e :
  (try_block label ax uid p fr).2 = Some e ->
  (iteration label (ax, uid, p) fr).1.2 = 0%float.
Proof.
  unfold iteration, try_block.
  destruct ((if (p =? -1)%float then ret 0%float else score label ax uid p) fr)
    as [fr1 [reward|e1]] eqn:Hb; simpl.
  - unfold read_metrics_100. destruct (metrics_100 fr1) eqn:Hm; simpl.
    + intros Hr. discriminate Hr.
    + intros _. rewrite lookup_singleton_eq. simpl.
      (* only the sentinel branch can leave [metrics_100] unbound *)
      destruct (p =? -1)%float eqn:Hp.
      * unfold ret in Hb. congruence.
      * apply score_ok in Hb. destruct Hb as (? & ? & ? & ? & ? & ? & ? & _ & _ & _ & _ & _ & Hb & _).
        congruence.
  - intros _. rewrite lookup_empty. reflexivity.
Qed.

(** The reward of a miner whose prediction is the sentinel or out of
    range: 0.0 from the sentinel branch and from the handler, and a zero
    from the penalty when the tracker's score is finite. *)
Lemma iteration_invalid label ax uid p (fr : frame) :
  finite_scores ->
  (p <? 0)%float = true \/ (1 <? p)%float = true \/ (p =? -1)%float = true ->
  ((iteration label (ax, uid, p) fr).1.2 =? 0)%float = true /\
  ((p =? -1)%float = true -> (iteration label (ax, uid, p) fr).1.2 = 0%float).
Proof.
  intros Hfin Hinvalid.
  assert (Hr : (iteration label (ax, uid, p) fr).1.2
               = default 0%float ((try_block label ax uid p fr).1.1.2 !! "image")).
  { unfold iteration. destruct (try_block label ax uid p fr) as [[[fr' mr] mm] o].
    reflexivity. }
  rewrite Hr, try_block_rewards. clear Hr.
  destruct (p =? -1)%float eqn:Hp.
  - unfold ret. rewrite lookup_singleton_eq. simpl. split; reflexivity.
  - split; [|intros Habs; discriminate Habs].
    destruct (score label ax uid p fr) as [fr1 [reward|e]] eqn:Hs.
    + rewrite lookup_singleton_eq. simpl.
      apply score_ok in Hs.
      destruct Hs as (t & t1 & t2 & m100 & m10 & mcc & acc &
                      H100 & H10 & Hmcc & Hacc & -> & _).
      rewrite compute_penalty_out_of_range
        by (destruct Hinvalid as [Hlo|[Hhi|Hs]]; [left|right|]; congruence).
      apply mul_zero_finite. eapply Hfin; eassumption.
    + rewrite lookup_empty. reflexivity.
Qed.

Lemma for_loop_cons label entry rest (fr : frame) :
  for_loop label (entry :: rest) fr
  = (let it := iteration label entry fr in
     let lp := for_loop label rest it.1.1 in
     (lp.1.1, it.1.2 :: lp.1.2, it.2 :: lp.2)).
Proof.
  simpl. destruct (iteration label entry fr) as [[fr1 r] mm]. simpl.
  destruct (for_loop label rest fr1) as [[fr2 rs] ms]. reflexivity.
Qed.

(** One reward and one metrics dict per miner of the batch. *)
Lemma for_loop_length label batch : forall fr : frame,
  length (for_loop label batch fr).1.2 = length batch /\
  length (for_loop label batch fr).2 = length batch.
Proof.
  induction batch as [|entry rest IH]; intros fr; [split; reflexivity|].
  rewrite for_loop_cons. simpl.
  destruct (IH (iteration label entry fr).1.1) as [-> ->]. split; reflexivity.
Qed.

(** The reward at position [i] is that of the [i]-th pass, begun in the
    frame the earlier passes left; the rewards after it are those of the
    loop resumed on the rest of the batch in the frame this pass leaves. *)
Lemma for_loop_lookup label batch : forall (fr : frame) i entry,
  batch !! i = Some entry ->
  (for_loop label batch fr).1.2 !! i
    = Some (iteration label entry (frame_before label batch fr i)).1.2 /\
  drop (S i) (for_loop label batch fr).1.2
    = (for_loop label (drop (S i) batch)
         (iteration label entry (frame_before label batch fr i)).1.1).1.2.
Proof.
  induction batch as [|e0 rest IH]; intros fr i entry Hi.
  - rewrite lookup_nil in Hi. discriminate Hi.
  - rewrite for_loop_cons. destruct i as [|i]; simpl in Hi.
    + injection Hi as ->. unfold frame_before. simpl. rewrite drop_0.
      split; reflexivity.
    + destruct (IH (iteration label e0 fr).1.1 i entry Hi) as [Hl Hd].
      assert (Hfb : frame_before label (e0 :: rest) fr (S i)
                    = frame_before label rest (iteration label e0 fr).1.1 i).
      { unfold frame_before. rewrite firstn_cons, for_loop_cons. reflexivity. }
      rewrite Hfb. simpl. split; [exact Hl|exact Hd].
Qed.

Lemma frame_before_S label batch : forall (fr : frame) i entry,
  batch !! i = Some entry ->
  frame_before label batch fr (S i)
  = (iteration label entry (frame_before label batch fr i)).1.1.
Proof.
  induction batch as [|e0 rest IH]; intros fr i entry Hi.
  - rewrite lookup_nil in Hi. discriminate Hi.
  - unfold frame_before in *. rewrite firstn_cons, for_loop_cons.
    destruct i as [|i]; simpl in Hi.
    + injection Hi as ->. reflexivity.
    + cbn [fst]. rewrite (IH _ i entry Hi).
      rewrite firstn_cons, for_loop_cons. reflexivity.
Qed.

Lemma get_rewards_for_loop label responses uids axons
    (performance_trackers : gmap string T) :
  get_rewards label responses uids axons performance_trackers
  = (let lp := for_loop label (zip3 axons uids responses)
                 (Frame performance_trackers None) in
     (lp.1.2, lp.2, tracker lp.1.1)).
Proof.
  unfold get_rewards.
  destruct (for_loop label (zip3 axons uids responses)
              (Frame performance_trackers None)) as [[fr rs] ms].
  reflexivity.
Qed.

Lemma call_at {A : Type} (method : T -> T * result A) (fr : frame) obj :
  tracker fr !! "image" = Some obj ->
  call method fr
  = (Frame (<["image" := (method obj).1]> (tracker fr)) (metrics_100 fr),
     (method obj).2).
Proof.
  intros Hl. unfold call. rewrite Hl. destruct (method obj). reflexivity.
Qed.

(** The order of the calls when the tracked hotkey differs from the
    axon's: the reset comes first, the update acts on the tracker the
    reset left, and each window is read from the tracker left by the call
    before it. *)
Lemma try_block_hotkey_changed label ax uid p (fr : frame)
    t tracked t1 t2 t3 t4 m100 m10 :
  (p =? -1)%float = false ->
  tracker fr !! "image" = Some t ->
  miner_hotkeys t !! uid = Some tracked ->
  tracked <> hotkey ax ->
  reset_miner_history uid (hotkey ax) t = (t1, Ok tt) ->
  update uid p label (hotkey ax) t1 = (t2, Ok tt) ->
  get_metrics uid 100 t2 = (t3, Ok m100) ->
  get_metrics uid 10 t3 = (t4, Ok m10) ->
  try_block label ax uid p fr
  = (let fr' := Frame (<["image" := t4]> (tracker fr)) (Some m100) in
     match m100 !! "mcc", m10 !! "accuracy" with
     | Some mcc, Some accuracy =>
         (fr',
          {["image" := ((0.5 * mcc + 0.5 * accuracy) * compute_penalty p)%float]},
          {["image" := m100]}, None)
     | Some _, None => (fr', ∅, ∅, Some (KeyError "accuracy"))
     | None, _ => (fr', ∅, ∅, Some (KeyError "mcc"))
     end).
Proof.
  intros Hp Hl Hk Hne Hreset Hupdate H100 H10. cbv zeta.
  unfold try_block. rewrite Hp. unfold score.
  unfold bind at 1. unfold reset_if_changed.
  unfold bind at 1. unfold attribute at 1. rewrite Hl, Hk.
  destruct (decide (tracked = hotkey ax)) as [Heq|_]; [contradiction|].
  rewrite (call_at _ fr t Hl), Hreset. cbn [fst snd].
  unfold update_and_rate.
  unfold bind at 1. erewrite call_at by (cbn [tracker]; apply lookup_insert_eq).
  rewrite Hupdate. cbn [fst snd tracker metrics_100].
  unfold bind at 1. erewrite call_at by (cbn [tracker]; apply lookup_insert_eq).
  rewrite H100. cbn [fst snd tracker metrics_100].
  unfold bind at 1. unfold assign_metrics_100 at 1. cbn [tracker].
  unfold bind at 1. erewrite call_at by (cbn [tracker]; apply lookup_insert_eq).
  rewrite H10. cbn [fst snd tracker metrics_100].
  rewrite !insert_insert_eq.
  unfold bind, subscript, ret, read_metrics_100.
  destruct (m100 !! "mcc"); destruct (m10 !! "accuracy"); reflexivity.
Qed.

(** The frame in which the loop reaches the [i]-th miner is the frame the
    passes before it leave, threaded in order. *)
Lemma frame_before_fold label batch : forall (fr : frame) i,
  frame_before label batch fr i
  = fold_left (fun fr0 entry => (iteration label entry fr0).1.1) (take i batch) fr.
Proof.
  unfold frame_before. induction batch as [|entry rest IH]; intros fr i.
  - rewrite take_nil. reflexivity.
  - destruct i as [|i]; [reflexivity|].
    rewrite firstn_cons, for_loop_cons. cbn [fst fold_left]. apply IH.
Qed.

(** The metrics dict at position [i] is that of the [i]-th pass. *)
Lemma for_loop_metrics_at label batch : forall (fr : frame) i entry,
  batch !! i = Some entry ->
  (for_loop label batch fr).2 !! i
    = Some (iteration label entry (frame_before label batch fr i)).2.
Proof.
  induction batch as [|e0 rest IH]; intros fr i entry Hi.
  - rewrite lookup_nil in Hi. discriminate Hi.
  - rewrite for_loop_cons. destruct i as [|i]; simpl in Hi.
    + injection Hi as ->. reflexivity.
    + assert (Hfb : frame_before label (e0 :: rest) fr (S i)
                    = frame_before label rest (iteration label e0 fr).1.1 i).
      { unfold frame_before. rewrite firstn_cons, for_loop_cons. reflexivity. }
      rewrite Hfb. simpl. apply IH. exact Hi.
Qed.

(** A pass whose branch returns: the reward appended is the value the
    branch computed, the metrics dict holds the 100-window metrics, and
    the frame is the one the branch leaves. *)
Lemma pass_scored label ax uid p (fr fr' : frame) reward :
  (p =? -1)%float = false ->
  score label ax uid p fr = (fr', Ok reward) ->
  exists m100,
    metrics_100 fr' = Some m100 /\
    iteration label (ax, uid, p) fr = (fr', reward, {["image" := m100]}).
Proof.
  intros Hp Hs. destruct (score_ok _ _ _ _ _ _ _ Hs)
    as (_ & _ & _ & m100 & _ & _ & _ & _ & _ & _ & _ & _ & Hm & _).
  exists m100. split; [exact Hm|].
  unfold iteration, try_block. rewrite Hp, Hs. unfold read_metrics_100.
  rewrite Hm. rewrite lookup_singleton_eq. reflexivity.
Qed.

(** A pass whose branch raises: the handler swallows the exception, the
    reward appended is 0.0 and the metrics dict is empty; what the branch
    had changed before it raised stays changed. *)
Lemma pass_raised label ax uid p (fr fr' : frame) e :
  (p =? -1)%float = false ->
  score label ax uid p fr = (fr', Raise e) ->
  iteration label (ax, uid, p) fr = (fr', 0%float, ∅).
Proof.
  intros Hp Hs. unfold iteration, try_block. rewrite Hp, Hs.
  rewrite lookup_empty. reflexivity.
Qed.

(** A pass over a miner that did not respond. *)
Lemma pass_no_response label ax uid p (fr : frame) :
  (p =? -1)%float = true ->
  (iteration label (ax, uid, p) fr).1 = (fr, 0%float).
Proof.
  intros Hp. unfold iteration. rewrite (try_block_no_response label ax uid p fr Hp).
  destruct (metrics_100 fr); rewrite lookup_singleton_eq; reflexivity.
Qed.

(** The frame a pass leaves is the frame its [try] statement leaves. *)
Lemma pass_frame label ax uid p (fr : frame) :
  (iteration label (ax, uid, p) fr).1.1 = (try_block label ax uid p fr).1.1.1.
Proof.
  unfold iteration.
  destruct (try_block label ax uid p fr) as [[[fr' mr] mm] o]. reflexivity.
Qed.

End RewardFacts.

(** With no assumption on the tracker the reward of an out-of-range
    prediction is one of three floats: a zero of either sign, or NaN when
    the tracker's score is itself infinite or NaN. *)
Lemma invalid_prediction_reward_cases {T : Type} {impl : Reward.PerformanceTracker T}
    (label : float) (ax : Reward.axon) (uid : Z) (p : float) (fr : Reward.frame T) :
  (p <? 0)%float = true \/ (1 <? p)%float = true \/ (p =? -1)%float = true ->
  (Reward.iteration label (ax, uid, p) fr).1.2 = 0%float \/
  (Reward.iteration label (ax, uid, p) fr).1.2 = (-0)%float \/
  (Reward.iteration label (ax, uid, p) fr).1.2 = nan.
Proof.
  intros Hinvalid.
  assert (Hr : (Reward.iteration label (ax, uid, p) fr).1.2
               = default 0%float ((Reward.try_block label ax uid p fr).1.1.2 !! "image")).
  { unfold Reward.iteration.
    destruct (Reward.try_block label ax uid p fr) as [[[fr' mr] mm] o]. reflexivity. }
  rewrite Hr, try_block_rewards. clear Hr.
  destruct (p =? -1)%float eqn:Hp.
  - unfold Reward.ret. rewrite lookup_singleton_eq. left. reflexivity.
  - destruct (Reward.score label ax uid p fr) as [fr1 [reward|e]] eqn:Hs.
    + rewrite lookup_singleton_eq. simpl. apply score_ok in Hs.
      destruct Hs as (t & t1 & t2 & m100 & m10 & mcc & acc & _ & _ & _ & _ & -> & _).
      rewrite compute_penalty_out_of_range
        by (destruct Hinvalid as [Hlo|[Hhi|Hs]]; [left|right|]; congruence).
      apply mul_zero_cases.
    + rewrite lookup_empty. left. reflexivity.
Qed.

(** C1.  A miner whose prediction is below 0, above 1 or the sentinel -1
    gets reward zero, whatever the tracker holds for it: 0.0 outright on
    the sentinel branch and when its scoring raises, and otherwise the
    tracker's score multiplied by the penalty 0.0, which is a float zero
    (equal to 0) for every score that is a finite float.  Whatever the
    tracker returns, the reward is a zero of either sign or NaN. *)
Theorem invalid_prediction_zero_reward {T : Type} {impl : Reward.PerformanceTracker T}
    (label : float) (responses : list float) (uids : list Z)
    (axons : list Reward.axon) (performance_trackers : gmap string T)
    (i : nat) (ax : Reward.axon) (uid : Z) (p : float) :
  Reward.zip3 axons uids responses !! i = Some (ax, uid, p) ->
  (p <? 0)%float = true \/ (1 <? p)%float = true \/ (p =? -1)%float = true ->
  exists r,
    (Reward.get_rewards label responses uids axons performance_trackers).1.1 !! i
      = Some r /\
    (Reward.finite_scores -> (r =? 0)%float = true) /\
    ((p =? -1)%float = true -> r = 0%float) /\
    (r = 0%float \/ r = (-0)%float \/ r = nan).
Proof.
  intros Hi Hinvalid. rewrite get_rewards_for_loop. cbn [fst].
  destruct (for_loop_lookup label _ (Reward.Frame performance_trackers None)
              i (ax, uid, p) Hi) as [Hl _].
  eexists. split; [exact Hl|]. split; [|split].
  - intros Hfin. apply iteration_invalid; assumption.
  - intros Hp. unfold Reward.iteration.
    rewrite (try_block_no_response label ax uid p _ Hp).
    destruct (Reward.metrics_100 _); rewrite lookup_singleton_eq; reflexivity.
  - apply invalid_prediction_reward_cases. exact Hinvalid.
Qed.

Lemma invalid_prediction_zero_reward_witness :
  exists r,
    (Reward.get_rewards (impl := Reward.spec_tracker (Reward.flat_statistic (-1) 0))
       1%float [0.9; -1; 1.5]%float [7; 8; 9]%Z
       [Reward.Axon "A"; Reward.Axon "B"; Reward.Axon "C"]
       {["image" := Reward.Tracker ∅ ∅]}).1.1 !! 2%nat = Some r /\
    (r =? 0)%float = true.
Proof.
  destruct (invalid_prediction_zero_reward
              (impl := Reward.spec_tracker (Reward.flat_statistic (-1) 0))
              1%float [0.9; -1; 1.5]%float [7; 8; 9]%Z
              [Reward.Axon "A"; Reward.Axon "B"; Reward.Axon "C"]
              {["image" := Reward.Tracker ∅ ∅]}
              2 (Reward.Axon "C") 9%Z 1.5%float)
    as (r & Hr & Hz & _).
  - reflexivity.
  - right. left. reflexivity.
  - exists r. split; [exact Hr|]. apply Hz.
    intros uid t t1 t2 m100 m10 mcc acc H100 H10 Hmcc Hacc.
    simpl in H100, H10. injection H100 as _ <-. injection H10 as _ <-.
    vm_compute in Hmcc, Hacc. injection Hmcc as <-. injection Hacc as <-.
    reflexivity.
Defined.

(** The spec's batch: label 1.0, predictions 0.9, -1 and 1.5 from three
    miners without history.  With a tracker whose windows read MCC -1 and
    accuracy 0 the third reward is the negative zero. *)
Example rewards_of_mixed_batch :
  (Reward.get_rewards (impl := Reward.spec_tracker (Reward.flat_statistic (-1) 0))
     1%float [0.9; -1; 1.5]%float [7; 8; 9]%Z
     [Reward.Axon "A"; Reward.Axon "B"; Reward.Axon "C"]
     {["image" := Reward.Tracker ∅ ∅]}).1.1
  = [-0.5; 0; -0]%float.
Proof. vm_compute. reflexivity. Qed.

(** C6.  An exception raised while one miner is scored is caught inside
    the loop and the batch is scored to its end.  Let the frame of a pass
    be the frame the passes before it leave, threaded in order from the
    trackers passed in.  If the [try] statement of miner [i] raises in its
    frame, then that miner's reward is 0.0; the call returns one reward
    and one metrics dict per miner of the batch, and the trackers as the
    last pass leaves them; the next pass starts in the frame the failed
    [try] left; and every miner of the batch, those after [i] included,
    gets the reward and the metrics of its own pass in its own frame:
    0.0 if it did not respond, the value its scoring computes if that
    returns, and 0.0 with an empty metrics dict if that raises in turn. *)
Theorem exception_isolated {T : Type} {impl : Reward.PerformanceTracker T}
    (label : float) (responses : list float) (uids : list Z)
    (axons : list Reward.axon) (performance_trackers : gmap string T)
    (i : nat) (ax : Reward.axon) (uid : Z) (p : float) (e : Py.exn) :
  let batch := Reward.zip3 axons uids responses in
  let frame_at := fun j : nat =>
    fold_left (fun fr entry => (Reward.iteration label entry fr).1.1)
      (take j batch) (Reward.Frame performance_trackers None) in
  let out := Reward.get_rewards label responses uids axons performance_trackers in
  batch !! i = Some (ax, uid, p) ->
  (Reward.try_block label ax uid p (frame_at i)).2 = Some e ->
  out.1.1 !! i = Some 0%float /\
  length out.1.1 = length batch /\
  length out.1.2 = length batch /\
  out.2 = Reward.tracker (frame_at (length batch)) /\
  frame_at (S i) = (Reward.try_block label ax uid p (frame_at i)).1.1.1 /\
  forall j ax' uid' p',
    batch !! j = Some (ax', uid', p') ->
    out.1.1 !! j = Some (Reward.iteration label (ax', uid', p') (frame_at j)).1.2 /\
    out.1.2 !! j = Some (Reward.iteration label (ax', uid', p') (frame_at j)).2 /\
    ((p' =? -1)%float = true ->
     out.1.1 !! j = Some 0%float /\ frame_at (S j) = frame_at j) /\
    (forall fr' reward,
       (p' =? -1)%float = false ->
       Reward.score label ax' uid' p' (frame_at j) = (fr', Py.Ok reward) ->
       out.1.1 !! j = Some reward /\
       (exists m100, Reward.metrics_100 fr' = Some m100 /\
                     out.1.2 !! j = Some {["image" := m100]}) /\
       frame_at (S j) = fr') /\
    (forall fr' e',
       (p' =? -1)%float = false ->
       Reward.score label ax' uid' p' (frame_at j) = (fr', Py.Raise e') ->
       out.1.1 !! j = Some 0%float /\
       out.1.2 !! j = Some ∅ /\
       frame_at (S j) = fr').
Proof.
  intros batch frame_at out Hi Hraised.
  set (fr0 := Reward.Frame performance_trackers None) in *.
  assert (Hframe : forall j, Reward.frame_before label batch fr0 j = frame_at j).
  { intros j. apply frame_before_fold. }
  assert (Hout : out = ((Reward.for_loop label batch fr0).1.2,
                        (Reward.for_loop label batch fr0).2,
                        Reward.tracker (Reward.for_loop label batch fr0).1.1)).
  { apply get_rewards_for_loop. }
  destruct (for_loop_length label batch fr0) as [Hlen1 Hlen2].
  assert (Hat : forall j entry, batch !! j = Some entry ->
            out.1.1 !! j = Some (Reward.iteration label entry (frame_at j)).1.2 /\
            out.1.2 !! j = Some (Reward.iteration label entry (frame_at j)).2 /\
            frame_at (S j) = (Reward.iteration label entry (frame_at j)).1.1).
  { intros j entry Hj. rewrite Hout. cbn [fst snd]. rewrite <- !Hframe.
    destruct (for_loop_lookup label batch fr0 j entry Hj) as [Hl _].
    split; [exact Hl|]. split; [exact (for_loop_metrics_at label batch fr0 j entry Hj)|].
    apply frame_before_S. exact Hj. }
  destruct (Hat i (ax, uid, p) Hi) as (Hri & _ & Hfi).
  split; [|split; [|split; [|split; [|split]]]].
  - rewrite Hri. f_equal. eapply iteration_raised. exact Hraised.
  - rewrite Hout. exact Hlen1.
  - rewrite Hout. exact Hlen2.
  - rewrite Hout. cbn [snd]. rewrite <- Hframe. unfold Reward.frame_before.
    rewrite firstn_all. reflexivity.
  - rewrite Hfi. apply pass_frame.
  - intros j ax' uid' p' Hj.
    destruct (Hat j (ax', uid', p') Hj) as (Hrj & Hmj & Hfj).
    split; [exact Hrj|]. split; [exact Hmj|]. split; [|split].
    + intros Hp'. rewrite Hrj, Hfj.
      rewrite (pass_no_response label ax' uid' p' (frame_at j) Hp').
      split; reflexivity.
    + intros fr' reward Hp' Hs.
      destruct (pass_scored label ax' uid' p' (frame_at j) fr' reward Hp' Hs)
        as (m100 & Hm & Hit).
      rewrite Hrj, Hmj, Hfj, Hit. split; [reflexivity|].
      split; [|reflexivity]. exists m100. split; [exact Hm|reflexivity].
    + intros fr' e' Hp' Hs.
      rewrite Hrj, Hmj, Hfj, (pass_raised label ax' uid' p' (frame_at j) fr' e' Hp' Hs).
      split; [reflexivity|]. split; reflexivity.
Qed.

(** Three miners, the tracker's [update] raising for the second: its
    reward is 0.0 and the third is scored, with reward 1.0. *)
Lemma exception_isolated_witness :
  (Reward.get_rewards (impl := Reward.failing_tracker 8)
     1%float [0.9; 0.8; 0.7]%float [7; 8; 9]%Z
     [Reward.Axon "A"; Reward.Axon "B"; Reward.Axon "C"]
     {["image" := 0%nat]}).1.1 !! 1%nat
  = Some 0%float /\
  (Reward.get_rewards (impl := Reward.failing_tracker 8)
     1%float [0.9; 0.8; 0.7]%float [7; 8; 9]%Z
     [Reward.Axon "A"; Reward.Axon "B"; Reward.Axon "C"]
     {["image" := 0%nat]}).1.1 !! 2%nat
  = Some 1%float.
Proof.
  pose proof (exception_isolated (impl := Reward.failing_tracker 8)
     1%float [0.9; 0.8; 0.7]%float [7; 8; 9]%Z
     [Reward.Axon "A"; Reward.Axon "B"; Reward.Axon "C"]
     {["image" := 0%nat]}
     1 (Reward.Axon "B") 8%Z 0.8%float (Py.Exception "update failed"))
    as Hisolated.
  cbv zeta in Hisolated.
  destruct Hisolated as (Hzero & _ & _ & _ & _ & Hrest).
  - reflexivity.
  - vm_compute. reflexivity.
  - split; [exact Hzero|].
    destruct (Hrest 2%nat (Reward.Axon "C") 9%Z 0.7%float eq_refl)
      as (_ & _ & _ & Hscored & _).
    destruct (Hscored
                (Reward.Frame {["image" := 2%nat]}
                   (Some {["mcc" := 1%float; "accuracy" := 1%float]}))
                1%float eq_refl) as [Hthird _].
    + vm_compute. reflexivity.
    + exact Hthird.
Defined.

(** The miners before and after the failing one are scored as usual. *)
Example exception_isolated_batch :
  (Reward.get_rewards (impl := Reward.failing_tracker 8)
     1%float [0.9; 0.8; 0.7]%float [7; 8; 9]%Z
     [Reward.Axon "A"; Reward.Axon "B"; Reward.Axon "C"]
     {["image" := 0%nat]}).1.1
  = [1; 0; 1]%float.
Proof. vm_compute. reflexivity. Qed.

(** C10.  Scoring a miner whose prediction is -1 touches no tracker: the
    frame after the pass, and with it the state of every tracker for every
    miner, is the frame before it, both for the pass alone and inside a
    batch; and the pass yields the same whatever the miner's axon and UID
    are, so neither the hotkey nor the tracked hotkeys are read. *)
Theorem no_response_leaves_trackers {T : Type} {impl : Reward.PerformanceTracker T}
    (label : float) (batch : list (Reward.axon * Z * float)) (fr : Reward.frame T)
    (i : nat) (ax : Reward.axon) (uid : Z) (p : float) :
  batch !! i = Some (ax, uid, p) ->
  (p =? -1)%float = true ->
  Reward.frame_before label batch fr (S i) = Reward.frame_before label batch fr i /\
  (forall fr0 : Reward.frame T, (Reward.iteration label (ax, uid, p) fr0).1.1 = fr0) /\
  (forall (fr0 : Reward.frame T) ax' uid',
     Reward.iteration label (ax', uid', p) fr0 = Reward.iteration label (ax, uid, p) fr0).
Proof.
  intros Hi Hp.
  assert (Hpass : forall (fr0 : Reward.frame T) a u,
            Reward.iteration label (a, u, p) fr0
            = match Reward.metrics_100 fr0 with
              | Some m => (fr0, 0%float, {["image" := m]})
              | None => (fr0, 0%float, ∅)
              end).
  { intros fr0 a u. unfold Reward.iteration.
    rewrite (try_block_no_response label a u p fr0 Hp).
    destruct (Reward.metrics_100 fr0); rewrite lookup_singleton_eq; reflexivity. }
  split; [|split].
  - rewrite (frame_before_S label batch fr i (ax, uid, p) Hi).
    rewrite Hpass. destruct (Reward.metrics_100 _); reflexivity.
  - intros fr0. rewrite Hpass. destruct (Reward.metrics_100 fr0); reflexivity.
  - intros fr0 ax' uid'. rewrite !Hpass. reflexivity.
Qed.

Lemma no_response_leaves_trackers_witness :
  Reward.frame_before (impl := Reward.failing_tracker 8) 1%float
    [(Reward.Axon "A", 7%Z, 0.9%float); (Reward.Axon "B", 8%Z, (-1)%float)]
    (Reward.Frame {["image" := 0%nat]} None) 2
  = Reward.frame_before (impl := Reward.failing_tracker 8) 1%float
      [(Reward.Axon "A", 7%Z, 0.9%float); (Reward.Axon "B", 8%Z, (-1)%float)]
      (Reward.Frame {["image" := 0%nat]} None) 1.
Proof.
  destruct (no_response_leaves_trackers (impl := Reward.failing_tracker 8) 1%float
              [(Reward.Axon "A", 7%Z, 0.9%float); (Reward.Axon "B", 8%Z, (-1)%float)]
              (Reward.Frame {["image" := 0%nat]} None)
              1 (Reward.Axon "B") 8%Z (-1)%float)
    as [Hsame _].
  - reflexivity.
  - reflexivity.
  - exact Hsame.
Defined.

(** *** The rolling tracker *)

Section RollingTracker.

Import Py Reward.

Variable statistic : list (float * float) -> gmap string float.

Local Abbreviation rolling := (spec_tracker statistic).

Lemma last_n_short {A : Type} (n : nat) (l : list A) :
  length l <= n -> last_n n l = l.
Proof.
  intros Hl. unfold last_n. replace (length l - n) with 0 by lia. reflexivity.
Qed.

Lemma observations_insert uid l h k :
  observations uid (Tracker (<[uid := l]> h) k) = l.
Proof. unfold observations. simpl. rewrite lookup_insert_eq. reflexivity. Qed.

Lemma update_fresh uid p label hk t :
  history t !! uid = Some [] ->
  update (PerformanceTracker := rolling) uid p label hk t
  = (Tracker (<[uid := [(p, label)]]> (history t)) (<[uid := hk]> (hotkeys t)), Ok tt).
Proof.
  intros Hh. simpl. unfold observations. rewrite Hh. simpl.
  rewrite last_n_short by (simpl; lia). reflexivity.
Qed.

Lemma get_metrics_single uid window obs h k :
  (0 < window)%Z ->
  get_metrics (PerformanceTracker := rolling) uid window (Tracker (<[uid := [obs]]> h) k)
  = (Tracker (<[uid := [obs]]> h) k, Ok (statistic [obs])).
Proof.
  intros Hw. simpl. rewrite observations_insert.
  rewrite last_n_short by (simpl; lia). reflexivity.
Qed.

End RollingTracker.

(** C5.  When a miner whose prediction is not the sentinel is scored, its
    UID is tracked and the tracked hotkey differs from the axon's, the
    history of that miner is reset before the observation is recorded:
    afterwards the history holds the new (prediction, label) pair alone
    under the new hotkey, the other miners are as they were, and both
    windows, hence the reward, are computed from that single observation. *)
Theorem hotkey_change_resets_history
    (statistic : list (float * float) -> gmap string float)
    (label : float) (ax : Reward.axon) (uid : Z) (p : float)
    (fr : Reward.frame Reward.rolling_tracker) (t : Reward.rolling_tracker)
    (tracked : string) :
  (p =? -1)%float = false ->
  Reward.tracker fr !! "image" = Some t ->
  Reward.hotkeys t !! uid = Some tracked ->
  tracked <> Reward.hotkey ax ->
  exists t',
    Reward.tracker
      (Reward.try_block (impl := Reward.spec_tracker statistic) label ax uid p fr).1.1.1
      !! "image" = Some t' /\
    Reward.history t' !! uid = Some [(p, label)] /\
    Reward.hotkeys t' !! uid = Some (Reward.hotkey ax) /\
    (forall other, other <> uid ->
       Reward.history t' !! other = Reward.history t !! other /\
       Reward.hotkeys t' !! other = Reward.hotkeys t !! other) /\
    Reward.metrics_100
      (Reward.try_block (impl := Reward.spec_tracker statistic) label ax uid p fr).1.1.1
      = Some (statistic [(p, label)]) /\
    (Reward.try_block (impl := Reward.spec_tracker statistic) label ax uid p fr).1.1.2
      = match statistic [(p, label)] !! "mcc", statistic [(p, label)] !! "accuracy" with
        | Some mcc, Some accuracy =>
            {["image" := ((0.5 * mcc + 0.5 * accuracy) * Reward.compute_penalty p)%float]}
        | _, _ => ∅
        end.
Proof.
  intros Hp Hl Hk Hne.
  set (t1 := Reward.Tracker (<[uid := []]> (Reward.history t))
                            (<[uid := Reward.hotkey ax]> (Reward.hotkeys t))).
  set (t' := Reward.Tracker (<[uid := [(p, label)]]> (Reward.history t1))
                            (<[uid := Reward.hotkey ax]> (Reward.hotkeys t1))).
  rewrite (try_block_hotkey_changed (impl := Reward.spec_tracker statistic)
             label ax uid p fr t tracked t1 t' t' t'
             (statistic [(p, label)]) (statistic [(p, label)]) Hp Hl Hk Hne
             eq_refl
             (update_fresh statistic uid p label (Reward.hotkey ax) t1
                (lookup_insert_eq _ _ _))
             (get_metrics_single statistic uid 100 (p, label) _ _ eq_refl)
             (get_metrics_single statistic uid 10 (p, label) _ _ eq_refl)).
  cbv zeta. exists t'.
  assert (Hfr' : (<["image" := t']> (Reward.tracker fr) : gmap string _) !! "image"
                 = Some t')
    by (apply lookup_insert_eq).
  assert (Hhist : Reward.history t' !! uid = Some [(p, label)])
    by (apply lookup_insert_eq).
  assert (Hkey : Reward.hotkeys t' !! uid = Some (Reward.hotkey ax))
    by (apply lookup_insert_eq).
  assert (Hothers : forall other, other <> uid ->
            Reward.history t' !! other = Reward.history t !! other /\
            Reward.hotkeys t' !! other = Reward.hotkeys t !! other).
  { intros other Ho. unfold t', t1. cbn [Reward.history Reward.hotkeys].
    rewrite !lookup_insert_ne by congruence. split; reflexivity. }
  destruct (statistic [(p, label)] !! "mcc") as [mcc|];
    [destruct (statistic [(p, label)] !! "accuracy") as [accuracy|]|];
    cbn [fst snd Reward.tracker Reward.metrics_100];
    repeat split; try assumption; apply Hothers; assumption.
Qed.

(** Miner 7 is scored under hotkey "A", then under hotkey "B". *)
Lemma hotkey_change_resets_history_witness :
  exists t',
    Reward.tracker
      (Reward.try_block (impl := Reward.spec_tracker (Reward.flat_statistic 0 1))
         1%float (Reward.Axon "B") 7 0.2%float
         (Reward.iteration (impl := Reward.spec_tracker (Reward.flat_statistic 0 1))
            1%float (Reward.Axon "A", 7%Z, 0.9%float)
            (Reward.Frame {["image" := Reward.Tracker ∅ ∅]} None)).1.1).1.1.1
      !! "image" = Some t' /\
    Reward.history t' !! 7%Z = Some [(0.2, 1)%float].
Proof.
  destruct (hotkey_change_resets_history (Reward.flat_statistic 0 1)
              1%float (Reward.Axon "B") 7 0.2%float
              (Reward.iteration (impl := Reward.spec_tracker (Reward.flat_statistic 0 1))
                 1%float (Reward.Axon "A", 7%Z, 0.9%float)
                 (Reward.Frame {["image" := Reward.Tracker ∅ ∅]} None)).1.1
              (Reward.Tracker {[7%Z := [(0.9, 1)%float]]} {[7%Z := "A"%string]})
              "A"%string)
    as (t' & Ht' & Hhist & _).
  - reflexivity.
  - vm_compute. reflexivity.
  - vm_compute. reflexivity.
  - discriminate.
  - exists t'. split; assumption.
Defined.

(** The same scenario run through [get_rewards] with a statistic that
    reports the size of the window as its accuracy: the second score is
    computed from a window of one. *)
Example second_score_from_single_observation :
  let by_size := fun l : list (float * float) =>
    ({["mcc" := 0%float;
       "accuracy" := PrimFloat.of_uint63 (Uint63.of_Z (Z.of_nat (length l)))]}
     : gmap string float) in
  let first := Reward.get_rewards (impl := Reward.spec_tracker by_size)
                 1%float [0.9; 0.8]%float [7; 7]%Z
                 [Reward.Axon "A"; Reward.Axon "A"]
                 {["image" := Reward.Tracker ∅ ∅]} in
  let second := Reward.get_rewards (impl := Reward.spec_tracker by_size)
                  1%float [0.7]%float [7]%Z [Reward.Axon "B"] first.2 in
  first.1.1 = [0.5; 1]%float /\ second.1.1 = [0.5]%float /\
  Reward.history <$> (second.2 !! "image")
    = Some ({[7%Z := [(0.7, 1)%float]]} : gmap Z (list (float * float))).
Proof. vm_compute. repeat split. Qed.

(** ** The content hash: the form of a fingerprint *)

Section FingerprintFacts.

Import Hashlib.

Lemma hex_digit_in (d : Z) :
  In (hex_digit d) (list_ascii_of_string "0123456789abcdef").
Proof.
  unfold hex_digit.
  destruct (Nat.lt_ge_cases (Z.to_nat d)
              (length (list_ascii_of_string "0123456789abcdef"))) as [Hlt|Hge].
  - apply nth_In. exact Hlt.
  - rewrite nth_overflow by exact Hge. simpl. auto.
Qed.

Lemma hexdigest_chars (h : list Z) :
  Forall (fun c => In c (list_ascii_of_string "0123456789abcdef"))
         (list_ascii_of_string (hexdigest h)).
Proof.
  unfold hexdigest. rewrite list_ascii_of_string_of_list_ascii.
  apply Forall_concat. apply Forall_forall. intros w Hw.
  apply list_elem_of_fmap in Hw. destruct Hw as (x & -> & _).
  unfold hex_word. apply Forall_forall. intros c Hc.
  apply list_elem_of_fmap in Hc. destruct Hc as (i & -> & _).
  apply hex_digit_in.
Qed.

End FingerprintFacts.

(** X1.  The form of a fingerprint.  Whatever the bytes, the key
    [hash_image_bytes] computes, on the client and on the broker, is a
    string of exactly 64 characters, each a digit or a lower-case letter
    from a to f; in particular it is never the empty string. *)
Theorem fingerprint_is_lowercase_hex (image_bytes : list byte) :
  String.length (Client.hash_image_bytes image_bytes) = 64%nat /\
  Forall (fun c => In c (list_ascii_of_string "0123456789abcdef"))
         (list_ascii_of_string (Client.hash_image_bytes image_bytes)) /\
  Server.hash_image_bytes image_bytes = Client.hash_image_bytes image_bytes /\
  Client.hash_image_bytes image_bytes <> ""%string.
Proof.
  split; [apply fingerprint_length|]. split; [apply hexdigest_chars|].
  split; [reflexivity|].
  intros Heq. pose proof (fingerprint_length image_bytes) as Hlen.
  rewrite Heq in Hlen. discriminate Hlen.
Qed.

(** ** The Client Wrapper: requests issued, entries written, replies that
    end the loop *)

Section ClientFootprint.

Import Py Client.

Variable requests_post : nat -> list byte -> Z -> reply.
Variables (image_hash : string) (image_bytes : list byte) (timeout_sec : Z).

Local Abbreviation loop n :=
  (retry_loop requests_post n image_hash image_bytes timeout_sec).

(** One pass issues one request, and writes the local cache only when it
    returns. *)
Lemma attempt_footprint w :
  let '(w1, c) := attempt requests_post image_hash image_bytes timeout_sec w in
  posts w1 = S (posts w) /\
  (rdb w1 = rdb w \/
   exists v, c = Return v /\ rdb w1 = <[image_hash := v]> (rdb w)).
Proof.
  unfold attempt.
  destruct (requests_post (posts w) image_bytes timeout_sec) as [e|st [err fc p]];
    [simpl; auto|].
  destruct (raise_for_status st) as [[]|e]; [|simpl; auto].
  destruct err as [msg|]; [simpl; auto|].
  destruct fc as [[|]|]; destruct p as [p|]; simpl; eauto.
Qed.

(** Whatever the broker replies, the loop issues at most [n] requests and
    leaves the local cache as it was unless it returns a value, which is
    then the only entry it may have written. *)
Lemma retry_loop_footprint n : forall w,
  let '(w', r) := loop n w in
  (posts w <= posts w' <= posts w + n)%nat /\
  (rdb w' = rdb w \/
   exists v, r = Ok (Some v) /\ rdb w' = <[image_hash := v]> (rdb w)).
Proof.
  induction n as [|n IH]; intros w.
  - simpl. split; [lia|left; reflexivity].
  - simpl. pose proof (attempt_footprint w) as Ha.
    destruct (attempt requests_post image_hash image_bytes timeout_sec w)
      as [w1 c].
    destruct Ha as [Hp Hr].
    assert (Hcont :
      let '(w', r) := loop n w1 in
      (posts w <= posts w' <= posts w + S n)%nat /\
      (rdb w' = rdb w \/
       exists v, r = Ok (Some v) /\ rdb w' = <[image_hash := v]> (rdb w)) \/
      exists v, c = Return v).
    { specialize (IH w1). destruct (loop n w1) as [w' r].
      destruct IH as [Hposts Hrdb].
      destruct Hr as [Hsame|(v & -> & _)]; [|right; eauto].
      left. split; [lia|]. rewrite <- Hsame. exact Hrdb. }
    destruct c as [v| |e].
    + split; [lia|]. destruct Hr as [Hsame|(v' & Hv & Hw)]; [left; exact Hsame|].
      right. exists v'. injection Hv as <-. split; [reflexivity|exact Hw].
    + destruct (loop n w1) as [w' r].
      destruct Hcont as [H|[v Hv]]; [exact H|discriminate Hv].
    + destruct (isinstance_Timeout e).
      * destruct (loop n w1) as [w' r].
        destruct Hcont as [H|[v Hv]]; [exact H|discriminate Hv].
      * destruct Hr as [Hsame|(v' & Hv & _)]; [|discriminate Hv].
        destruct (isinstance_RequestException e); (split; [lia|left; exact Hsame]).
Qed.

End ClientFootprint.

(** The same for the call as a whole. *)
Lemma predict_with_cache_effect
    (requests_post : nat -> list byte -> Z -> Client.reply)
    (image_bytes : list byte) (timeout_sec max_retries : Z)
    (w w' : Client.world) (r : Py.result float) :
  Client.predict_with_cache requests_post image_bytes timeout_sec max_retries w
    = (w', r) ->
  (Client.posts w <= Client.posts w'
     <= Client.posts w + Z.to_nat max_retries)%nat /\
  (is_Some (Client.rdb w !! Client.hash_image_bytes image_bytes) -> w' = w) /\
  (Client.rdb w' = Client.rdb w \/
   exists v, r = Py.Ok v /\
     Client.rdb w !! Client.hash_image_bytes image_bytes = None /\
     Client.rdb w'
       = <[Client.hash_image_bytes image_bytes := v]> (Client.rdb w)).
Proof.
  unfold Client.predict_with_cache.
  destruct (Client.rdb w !! Client.hash_image_bytes image_bytes) as [c|] eqn:Hc.
  - intros [= <- <-]. split; [lia|]. split; [reflexivity|left; reflexivity].
  - pose proof (retry_loop_footprint requests_post
                  (Client.hash_image_bytes image_bytes) image_bytes timeout_sec
                  (Z.to_nat max_retries) w) as H.
    destruct (Client.retry_loop requests_post (Z.to_nat max_retries)
                (Client.hash_image_bytes image_bytes) image_bytes timeout_sec w)
      as [w1 r1].
    destruct H as [Hp Hr].
    destruct r1 as [[v|]|e]; intros [= <- <-].
    + split; [exact Hp|]. split; [intros [? Hx]; discriminate Hx|].
      destruct Hr as [Hs|(v' & Hv & Hw)]; [left; exact Hs|].
      right. exists v. injection Hv as <-. auto.
    + split; [exact Hp|]. split; [intros [? Hx]; discriminate Hx|].
      destruct Hr as [Hs|(v' & Hv & Hw)]; [left; exact Hs|discriminate Hv].
    + split; [exact Hp|]. split; [intros [? Hx]; discriminate Hx|].
      destruct Hr as [Hs|(v' & Hv & Hw)]; [left; exact Hs|discriminate Hv].
Qed.

(** X2.  What a call of [predict_with_cache] can touch, whatever the broker
    replies and whether or not it keeps to the interface: it issues at most
    [max_retries] requests (none when [max_retries <= 0]), none at all on a
    local hit, and the only entry of the local cache it can change is the
    one under the image's fingerprint, which then holds the value it
    returns. *)
Theorem predict_with_cache_footprint
    (requests_post : nat -> list byte -> Z -> Client.reply)
    (image_bytes : list byte) (timeout_sec max_retries : Z) (w : Client.world) :
  let w' := fst (Client.predict_with_cache requests_post image_bytes timeout_sec
                   max_retries w) in
  let r := snd (Client.predict_with_cache requests_post image_bytes timeout_sec
                  max_retries w) in
  (Client.posts w <= Client.posts w'
     <= Client.posts w + Z.to_nat max_retries)%nat /\
  (is_Some (Client.rdb w !! Client.hash_image_bytes image_bytes) -> w' = w) /\
  (Client.rdb w' = Client.rdb w \/
   exists v, r = Py.Ok v /\
     Client.rdb w !! Client.hash_image_bytes image_bytes = None /\
     Client.rdb w'
       = <[Client.hash_image_bytes image_bytes := v]> (Client.rdb w)).
Proof.
  intros w' r.
  apply (predict_with_cache_effect requests_post image_bytes timeout_sec max_retries).
  subst w' r. apply surjective_pairing.
Qed.

(** X3.  An HTTP error status is not retried.  On a local miss with at
    least one attempt allowed, a first reply with a 4xx or 5xx status (the
    broker's own 504 for a timed-out inference among them) ends the call
    after that single request, with the sentinel and with nothing written,
    however many attempts remain and whatever later replies would be. *)
Theorem http_error_not_retried
    (requests_post : nat -> list byte -> Z -> Client.reply)
    (image_bytes : list byte) (timeout_sec max_retries : Z) (w : Client.world)
    (status_code : Z) (body : Client.json) :
  Client.rdb w !! Client.hash_image_bytes image_bytes = None ->
  (0 < max_retries)%Z ->
  requests_post (Client.posts w) image_bytes timeout_sec
    = Client.Response status_code body ->
  (400 <= status_code < 600)%Z ->
  Client.predict_with_cache requests_post image_bytes timeout_sec max_retries w
  = (Client.World (Client.rdb w) (S (Client.posts w)), Py.Ok 0.999999999%float).
Proof.
  intros Hmiss Hpos Hp Hs. unfold Client.predict_with_cache. rewrite Hmiss.
  destruct (Z.to_nat max_retries) as [|n] eqn:Hn; [lia|].
  rewrite (retry_loop_http_error requests_post _ image_bytes timeout_sec n w
             status_code body Hp Hs).
  reflexivity.
Qed.

Lemma http_error_not_retried_witness :
  Client.predict_with_cache
    (Client.scripted
       [Client.Response 504 (Client.Json (Some "Inference timeout"%string) None None);
        Client.Response 200 (Client.Json None (Some false) (Some 0.25%float))])
    [] 4 2 (Client.World ∅ 0)
  = (Client.World ∅ 1, Py.Ok 0.999999999%float).
Proof.
  apply (http_error_not_retried _ [] 4 2 (Client.World ∅ 0) 504
           (Client.Json (Some "Inference timeout"%string) None None)).
  - reflexivity.
  - lia.
  - reflexivity.
  - lia.
Defined.


Section ClientExhaust.

Import Py Client.

Variable requests_post : nat -> list byte -> Z -> reply.
Variables (image_hash : string) (image_bytes : list byte) (timeout_sec : Z).

(** While every reply is a timeout or carries an [error] key, each pass
    issues its request and the loop runs to the end of its budget. *)
Lemma retry_loop_exhausted n : forall w,
  (forall k, (posts w <= k < posts w + n)%nat ->
     Client.spends_attempt (requests_post k image_bytes timeout_sec) = true) ->
  retry_loop requests_post n image_hash image_bytes timeout_sec w
  = (World (rdb w) (posts w + n), Ok None).
Proof.
  induction n as [|n IH]; intros w Hall.
  - simpl. rewrite Nat.add_0_r. destruct w; reflexivity.
  - assert (Hnext :
      retry_loop requests_post n image_hash image_bytes timeout_sec
        (World (rdb w) (S (posts w)))
      = (World (rdb w) (posts w + S n), Ok None)).
    { rewrite IH.
      - simpl. f_equal. f_equal. lia.
      - intros k Hk. simpl in Hk. apply Hall. lia. }
    assert (Hnow : Client.spends_attempt (requests_post (posts w) image_bytes timeout_sec)
                   = true) by (apply Hall; lia).
    destruct (requests_post (posts w) image_bytes timeout_sec)
      as [e|st [err fc p]] eqn:Hp; simpl in Hnow.
    + destruct e; try discriminate Hnow.
      rewrite (retry_loop_timeout requests_post _ _ _ n w Hp). exact Hnext.
    + destruct (raise_for_status st) as [[]|e] eqn:Hs; [|discriminate Hnow].
      destruct err as [msg|]; [|discriminate Hnow].
      rewrite (retry_loop_error_body requests_post _ _ _ n w _ _ _ _ Hp Hs).
      exact Hnext.
Qed.

End ClientExhaust.

(** X4.  Timeouts and error bodies use up the whole budget.  On a local
    miss, if every reply within the budget is a timeout or a non-error
    status whose body carries an [error] key, the call issues exactly
    [max_retries] requests, writes nothing to the local cache and returns
    the sentinel. *)
Theorem error_replies_exhaust_budget
    (requests_post : nat -> list byte -> Z -> Client.reply)
    (image_bytes : list byte) (timeout_sec max_retries : Z) (w : Client.world) :
  Client.rdb w !! Client.hash_image_bytes image_bytes = None ->
  (forall k, (Client.posts w <= k < Client.posts w + Z.to_nat max_retries)%nat ->
     Client.spends_attempt (requests_post k image_bytes timeout_sec) = true) ->
  Client.predict_with_cache requests_post image_bytes timeout_sec max_retries w
  = (Client.World (Client.rdb w) (Client.posts w + Z.to_nat max_retries),
     Py.Ok 0.999999999%float).
Proof.
  intros Hmiss Hall. unfold Client.predict_with_cache. rewrite Hmiss.
  rewrite (retry_loop_exhausted requests_post _ image_bytes timeout_sec _ w Hall).
  reflexivity.
Qed.

Lemma error_replies_exhaust_budget_witness :
  Client.predict_with_cache
    (Client.scripted
       [Client.Response 200 (Client.Json (Some "busy"%string) None None);
        Client.Fails Py.Timeout;
        Client.Response 200 (Client.Json (Some "busy"%string) None None);
        Client.Response 200 (Client.Json None (Some false) (Some 0.25%float))])
    [] 4 3 (Client.World ∅ 0)
  = (Client.World ∅ 3, Py.Ok 0.999999999%float).
Proof.
  apply (error_replies_exhaust_budget _ [] 4 3 (Client.World ∅ 0)).
  - reflexivity.
  - intros k Hk. simpl in Hk.
    do 3 (destruct k as [|k]; [reflexivity|]). lia.
Defined.

(** X5.  A broker that breaks the interface makes the call raise.  On a
    local miss with at least one attempt allowed, a first reply with a
    non-error status and a body that has no [error] key and lacks
    [from_cache], or has [from_cache] and lacks [probability], raises
    [KeyError] out of [predict_with_cache] after that one request: neither
    handler of the loop catches it, and nothing is written. *)
Theorem malformed_reply_raises
    (requests_post : nat -> list byte -> Z -> Client.reply)
    (image_bytes : list byte) (timeout_sec max_retries : Z) (w : Client.world)
    (status_code : Z) (from_cache : option bool) (probability : option float) :
  Client.rdb w !! Client.hash_image_bytes image_bytes = None ->
  (0 < max_retries)%Z ->
  requests_post (Client.posts w) image_bytes timeout_sec
    = Client.Response status_code (Client.Json None from_cache probability) ->
  Client.raise_for_status status_code = Py.Ok tt ->
  from_cache = None \/ probability = None ->
  Client.predict_with_cache requests_post image_bytes timeout_sec max_retries w
  = (Client.World (Client.rdb w) (S (Client.posts w)),
     Py.Raise (Py.KeyError (match from_cache with Some _ => "probability" | None => "from_cache" end))).
Proof.
  intros Hmiss Hpos Hp Hs Hbad. unfold Client.predict_with_cache. rewrite Hmiss.
  destruct (Z.to_nat max_retries) as [|n] eqn:Hn; [lia|].
  simpl. unfold Client.attempt. rewrite Hp, Hs. simpl.
  destruct from_cache as [fc|].
  - destruct Hbad as [Hbad | ->]; [discriminate Hbad|]. reflexivity.
  - reflexivity.
Qed.

Lemma malformed_reply_raises_witness :
  Client.predict_with_cache
    (Client.scripted [Client.Response 200 (Client.Json None (Some false) None)])
    [] 4 2 (Client.World ∅ 0)
  = (Client.World ∅ 1, Py.Raise (Py.KeyError "probability")).
Proof.
  apply (malformed_reply_raises _ [] 4 2 (Client.World ∅ 0) 200 (Some false) None).
  - reflexivity.
  - lia.
  - reflexivity.
  - reflexivity.
  - right. reflexivity.
Defined.

(** X6.  The local cache round trip.  If a call that missed the local
    cache leaves the image's fingerprint in it, the entry is the value the
    call returned, and every later call for the same bytes, with any
    broker, timeout and budget, returns that value without a request and
    without changing anything. *)
Theorem local_cache_round_trip
    (requests_post requests_post' : nat -> list byte -> Z -> Client.reply)
    (image_bytes : list byte) (timeout_sec max_retries timeout_sec' max_retries' : Z)
    (w w' : Client.world) (r : Py.result float) (stored : float) :
  Client.rdb w !! Client.hash_image_bytes image_bytes = None ->
  Client.predict_with_cache requests_post image_bytes timeout_sec max_retries w
    = (w', r) ->
  Client.rdb w' !! Client.hash_image_bytes image_bytes = Some stored ->
  r = Py.Ok stored /\
  Client.predict_with_cache requests_post' image_bytes timeout_sec' max_retries' w'
    = (w', Py.Ok stored).
Proof.
  intros Hmiss Hcall Hstored.
  destruct (predict_with_cache_effect requests_post image_bytes timeout_sec
              max_retries w w' r Hcall) as (_ & _ & Hr).
  split.
  - destruct Hr as [Hsame|(v & -> & _ & Hw)].
    + rewrite Hsame, Hmiss in Hstored. discriminate Hstored.
    + rewrite Hw, lookup_insert_eq in Hstored. injection Hstored as ->. reflexivity.
  - unfold Client.predict_with_cache. rewrite Hstored. reflexivity.
Qed.

Lemma local_cache_round_trip_witness :
  Py.Ok 0.25%float = Py.Ok 0.25%float /\
  Client.predict_with_cache (Client.scripted []) [] 1 1
    (Client.World {[Client.hash_image_bytes [] := 0.25%float]} 1)
  = (Client.World {[Client.hash_image_bytes [] := 0.25%float]} 1, Py.Ok 0.25%float).
Proof.
  apply (local_cache_round_trip
           (Client.scripted
              [Client.Response 200 (Client.Json None (Some false) (Some 0.25%float))])
           (Client.scripted []) [] 4 2 1 1 (Client.World ∅ 0)).
  - reflexivity.
  - vm_compute. reflexivity.
  - vm_compute. reflexivity.
Defined.

(** X7.  An answer from the broker's cache is passed on but not kept.  On
    a local miss, a first reply with [from_cache] true is returned after one
    request with the local cache unchanged, so the fingerprint still misses
    locally and the next call for the same bytes, given any positive budget,
    goes to the broker again. *)
Theorem server_cached_reply_not_stored
    (requests_post requests_post' : nat -> list byte -> Z -> Client.reply)
    (image_bytes : list byte) (timeout_sec max_retries timeout_sec' max_retries' : Z)
    (w : Client.world) (status_code : Z) (probability : float) :
  Client.rdb w !! Client.hash_image_bytes image_bytes = None ->
  (0 < max_retries)%Z ->
  (0 < max_retries')%Z ->
  requests_post (Client.posts w) image_bytes timeout_sec
    = Client.Response status_code
        (Client.Json None (Some true) (Some probability)) ->
  Client.raise_for_status status_code = Py.Ok tt ->
  let w1 := Client.World (Client.rdb w) (S (Client.posts w)) in
  Client.predict_with_cache requests_post image_bytes timeout_sec max_retries w
    = (w1, Py.Ok probability) /\
  (Client.posts w1
   < Client.posts
       (fst (Client.predict_with_cache requests_post' image_bytes timeout_sec'
               max_retries' w1)))%nat.
Proof.
  intros Hmiss Hpos Hpos' Hp Hs w1. split.
  - unfold Client.predict_with_cache. rewrite Hmiss.
    destruct (Z.to_nat max_retries) as [|n] eqn:Hn; [lia|].
    rewrite (retry_loop_result requests_post _ image_bytes timeout_sec n w
               status_code true probability Hp Hs).
    reflexivity.
  - unfold Client.predict_with_cache. subst w1. cbn [Client.rdb]. rewrite Hmiss.
    destruct (Z.to_nat max_retries') as [|n] eqn:Hn; [lia|].
    cbn [Client.retry_loop].
    pose proof (attempt_footprint requests_post' (Client.hash_image_bytes image_bytes)
                  image_bytes timeout_sec'
                  (Client.World (Client.rdb w) (S (Client.posts w)))) as Ha.
    destruct (Client.attempt requests_post' (Client.hash_image_bytes image_bytes)
                image_bytes timeout_sec'
                (Client.World (Client.rdb w) (S (Client.posts w)))) as [w2 c].
    destruct Ha as [Hposts _]. cbn [Client.posts] in Hposts.
    pose proof (retry_loop_footprint requests_post'
                  (Client.hash_image_bytes image_bytes) image_bytes timeout_sec'
                  n w2) as Hl.
    destruct (Client.retry_loop requests_post' n
                (Client.hash_image_bytes image_bytes) image_bytes timeout_sec' w2)
      as [w3 r3].
    destruct Hl as [Hl _].
    destruct c as [v| |e]; cbn [fst Client.posts].
    + lia.
    + destruct r3 as [[?|]|?]; cbn [fst Client.posts]; lia.
    + destruct (Py.isinstance_Timeout e).
      * destruct r3 as [[?|]|?]; cbn [fst Client.posts]; lia.
      * destruct (Py.isinstance_RequestException e); cbn [fst Client.posts]; lia.
Qed.

Lemma server_cached_reply_not_stored_witness :
  Client.predict_with_cache
    (Client.scripted
       [Client.Response 200 (Client.Json None (Some true) (Some 0.25%float))])
    [] 4 2 (Client.World ∅ 0)
  = (Client.World ∅ 1, Py.Ok 0.25%float).
Proof.
  destruct (server_cached_reply_not_stored
              (Client.scripted
                 [Client.Response 200 (Client.Json None (Some true) (Some 0.25%float))])
              (Client.scripted []) [] 4 2 4 2 (Client.World ∅ 0) 200 0.25%float)
    as [Hcall _].
  - reflexivity.
  - lia.
  - lia.
  - reflexivity.
  - reflexivity.
  - exact Hcall.
Defined.

(** ** The Client Wrapper: the files a scan returns *)

Section ScanFacts.

Import Os Client.

(** Induction on a tree, with the hypothesis for every entry of a
    directory. *)
Lemma node_ind_entries (P : node -> Prop) :
  P File -> P Closed ->
  (forall entries, Forall (fun e => P (snd e)) entries -> P (Dir entries)) ->
  forall n, P n.
Proof.
  intros HF HC HD. fix IH 1. intros [|entries|].
  - exact HF.
  - apply HD. induction entries as [|e entries IHe]; constructor.
    + apply IH.
    + exact IHe.
  - exact HC.
Qed.

Local Abbreviation below top :=
  (fun e : string * node =>
     if is_dir (snd e)
     then scan_jpeg_files_recursive (path_join top (fst e)) (snd e)
     else []).

Local Abbreviation files_of entries :=
  (map fst (List.filter (fun e : string * node => negb (is_dir (snd e))) entries)).

(** The scan of a directory: its own files that pass the test, then the
    scans of its subdirectories in listing order. *)
Lemma scan_dir top entries :
  scan_jpeg_files_recursive top (Dir entries)
  = map (path_join top) (List.filter is_jpeg (files_of entries))
    ++ flat_map (below top) entries.
Proof.
  unfold scan_jpeg_files_recursive at 1. cbn [walk flat_map]. f_equal.
  induction entries as [|e entries IH]; [reflexivity|].
  cbn [flat_map]. rewrite flat_map_app, IH. f_equal.
  destruct (is_dir (snd e)); reflexivity.
Qed.

Lemma scan_not_dir top n :
  (forall entries, n <> Dir entries) -> scan_jpeg_files_recursive top n = [].
Proof.
  destruct n as [|entries|]; intros Hn; try reflexivity.
  exfalso. apply (Hn entries). reflexivity.
Qed.

Lemma located_is_dir n dirs file : located n dirs file -> is_dir n = true.
Proof. intros H. destruct H; reflexivity. Qed.

Lemma In_files_of file entries :
  In file (files_of entries) <-> In (file, File) entries.
Proof.
  rewrite in_map_iff. split.
  - intros ([f n] & Hf & Hin). simpl in Hf. subst f.
    apply filter_In in Hin. destruct Hin as [Hin Hd]. simpl in Hd.
    destruct n; try discriminate Hd. exact Hin.
  - intros Hin. exists (file, File). split; [reflexivity|].
    apply filter_In. split; [exact Hin|reflexivity].
Qed.

Lemma scan_complete n dirs file :
  located n dirs file -> is_jpeg file = true ->
  forall top,
    In (fold_left path_join (dirs ++ [file]) top) (scan_jpeg_files_recursive top n).
Proof.
  intros Hloc Hj. induction Hloc as [entries file Hin|entries d n dirs file Hin Hloc IH];
    intros top; rewrite scan_dir; apply in_or_app.
  - left. simpl. apply in_map. apply filter_In. split; [|exact Hj].
    apply In_files_of. exact Hin.
  - right. apply in_flat_map. exists (d, n). split; [exact Hin|].
    cbn [fst snd]. rewrite (located_is_dir _ _ _ Hloc).
    simpl. apply IH. exact Hj.
Qed.

Lemma scan_sound : forall n top p,
  In p (scan_jpeg_files_recursive top n) ->
  exists dirs file,
    located n dirs file /\ is_jpeg file = true /\
    p = fold_left path_join (dirs ++ [file]) top.
Proof.
  induction n as [| |entries IH] using node_ind_entries; intros top p Hin;
    try (simpl in Hin; contradiction).
  rewrite scan_dir in Hin. apply in_app_or in Hin. destruct Hin as [Hin|Hin].
  - apply in_map_iff in Hin. destruct Hin as (file & <- & Hin).
    apply filter_In in Hin. destruct Hin as [Hin Hj].
    exists [], file. split; [|split; [exact Hj|reflexivity]].
    constructor. apply In_files_of. exact Hin.
  - apply in_flat_map in Hin. destruct Hin as ([d n] & Hin & Hp).
    cbn [fst snd] in Hp. destruct (is_dir n); [|contradiction].
    rewrite List.Forall_forall in IH.
    destruct (IH (d, n) Hin _ _ Hp) as (dirs & file & Hloc & Hj & ->).
    exists (d :: dirs), file. split; [|split; [exact Hj|reflexivity]].
    econstructor; eassumption.
Qed.

Lemma scan_length : forall n top,
  length (scan_jpeg_files_recursive top n) = jpeg_count n.
Proof.
  induction n as [| |entries IH] using node_ind_entries; intros top;
    try reflexivity.
  rewrite scan_dir, length_app, length_map. cbn [jpeg_count].
  induction entries as [|[d n] entries IHe]; [reflexivity|].
  apply Forall_cons_1 in IH. destruct IH as [IHn IH]. specialize (IHe IH).
  cbn [map list_sum flat_map fst snd List.filter]. rewrite length_app.
  destruct n as [|sub|]; cbn [is_dir negb map List.filter fst snd length].
  - unfold list_sum in *. destruct (is_jpeg d); cbn [length fold_right]; lia.
  - unfold list_sum in *. cbn [fold_right]. cbn [snd] in IHn. rewrite IHn. lia.
  - unfold list_sum in *. cbn [fold_right jpeg_count]. cbn [snd] in IHn. rewrite IHn. cbn [jpeg_count]. lia.
Qed.

End ScanFacts.

(** X8.  [scan_jpeg_files_recursive] returns the files of the tree whose
    lower-cased name ends in .jpg or .jpeg, and nothing else: a path is in
    the result exactly when it is the folder path joined with the
    directories leading to such a file and with its name, and the result
    has one path for every such file.  A directory is never listed,
    whatever its name, and a folder path that is no directory gives the
    empty list. *)
Theorem scan_jpeg_files_recursive_exact (folder_path : string) (tree : Os.node) :
  (forall p,
     In p (Client.scan_jpeg_files_recursive folder_path tree) <->
     exists dirs file,
       Client.located tree dirs file /\
       Client.is_jpeg file = true /\
       p = fold_left Os.path_join (dirs ++ [file]) folder_path) /\
  length (Client.scan_jpeg_files_recursive folder_path tree)
    = Client.jpeg_count tree /\
  ((forall entries, tree <> Os.Dir entries) ->
   Client.scan_jpeg_files_recursive folder_path tree = []).
Proof.
  split; [|split].
  - intros p. split.
    + apply scan_sound.
    + intros (dirs & file & Hloc & Hj & ->). apply scan_complete; assumption.
  - apply scan_length.
  - apply scan_not_dir.
Qed.

Example scan_of_a_small_tree :
  Client.scan_jpeg_files_recursive "/data"
    (Os.Dir [("a.JPG", Os.File); ("notes.txt", Os.File);
             ("sub", Os.Dir [("b.jpeg", Os.File); ("c.jpg", Os.Dir [])]);
             ("d.jpg", Os.Closed); ("e.jpgx", Os.File)])
  = ["/data/a.JPG"; "/data/sub/b.jpeg"]%string.
Proof. vm_compute. reflexivity. Qed.

(** ** The Inference Broker: the inference log and the order of service *)

Section ServerLogFacts.

Import Server.

Variable run_inference : list byte -> Py.result float.
Variable store : gmap string float.

Local Abbreviation work := (inference_worker_step run_inference).
Local Abbreviation step := (Server.step run_inference).
Local Abbreviation run := (Server.run run_inference).
Local Abbreviation logged := (log_invariant run_inference store).

Lemma log_invariant_start : logged (start store).
Proof.
  split; simpl.
  - intros b Hb. apply elem_of_nil in Hb. contradiction.
  - constructor.
  - auto.
  - auto.
  - lia.
Qed.

Lemma log_invariant_work s : invariant s -> logged s -> logged (work s).
Proof.
  intros Hinv [Hfresh Hnodup Hstore Hcache Hjobs].
  unfold inference_worker_step.
  destruct (worker s) as [|addr|addr p|addr] eqn:Hw.
  - destruct (stop_event s); [split; try assumption; rewrite Hw; exact Hjobs|].
    destruct (job_queue s) as [|addr rest] eqn:Hq;
      [split; try assumption; rewrite Hw, Hq; exact Hjobs|].
    split; simpl; try assumption.
    + intros b Hb. destruct (Hfresh b Hb) as [Hs Hr]. split; [exact Hs|].
      unfold crashed in *. rewrite Hw in Hr. exact Hr.
    + simpl in Hjobs. lia.
  - assert (Hnone : forall b, b ∈ inferences s ->
              exists q, run_inference b = Py.Ok q /\
                        rdb s !! hash_image_bytes b = Some q).
    { intros b Hb. destruct (Hfresh b Hb) as [_ Hr].
      destruct (run_inference b) as [q|e]; [eauto|].
      destruct Hr as [_ Hcr]. unfold crashed in Hcr. rewrite Hw in Hcr.
      discriminate Hcr. }
    destruct (heap s !! addr) as [j|] eqn:Hj.
    + destruct (rdb s !! image_hash j) as [cached|] eqn:Hc.
      * split; simpl; try assumption; [|lia].
        intros b Hb. destruct (Hfresh b Hb) as [Hs _]. split; [exact Hs|].
        destruct (Hnone b Hb) as (q & -> & Hq). exact Hq.
      * pose proof (inv_hash s Hinv addr j Hj) as Hh.
        assert (Hnew : store !! hash_image_bytes (image_bytes j) = None).
        { rewrite <- Hh. destruct (store !! image_hash j) as [q|] eqn:Hs;
            [|reflexivity].
          apply Hstore in Hs. rewrite Hs in Hc. discriminate Hc. }
        assert (Hdup : NoDup (map hash_image_bytes (inferences s ++ [image_bytes j]))).
        { rewrite map_app. apply NoDup_app. split; [exact Hnodup|].
          split; [|apply NoDup_singleton].
          intros h Hin Hin'. simpl in Hin'. apply list_elem_of_singleton in Hin'.
          apply list_elem_of_fmap in Hin. destruct Hin as (b & -> & Hb).
          destruct (Hnone b Hb) as (q & _ & Hq). rewrite Hin', <- Hh, Hc in Hq.
          discriminate Hq. }
        destruct (run_inference (image_bytes j)) as [p|e] eqn:Hrun.
        -- split; simpl.
           ++ intros b Hb. apply elem_of_app in Hb. destruct Hb as [Hb|Hb].
              ** destruct (Hfresh b Hb) as [Hs _]. split; [exact Hs|].
                 destruct (Hnone b Hb) as (q & -> & Hq).
                 rewrite lookup_insert_ne; [exact Hq|].
                 intros Heq. rewrite <- Heq, Hc in Hq. discriminate Hq.
              ** apply list_elem_of_singleton in Hb. subst b.
                 split; [exact Hnew|]. rewrite Hrun, <- Hh. apply lookup_insert_eq.
           ++ exact Hdup.
           ++ intros k q Hs. rewrite lookup_insert_ne; [apply Hstore; exact Hs|].
              intros Heq. subst k. apply Hstore in Hs. rewrite Hs in Hc.
              discriminate Hc.
           ++ intros k q Hk. destruct (decide (image_hash j = k)) as [Heq|Hne].
              ** subst k. rewrite lookup_insert_eq in Hk. injection Hk as <-.
                 right. exists (image_bytes j).
                 split; [|split; [symmetry; exact Hh|exact Hrun]].
                 apply elem_of_app. right. apply list_elem_of_singleton. reflexivity.
              ** rewrite lookup_insert_ne in Hk by exact Hne.
                 destruct (Hcache k q Hk) as [Hs|(b & Hb & Hhb & Hq)]; [left; exact Hs|].
                 right. exists b. split; [|split; assumption].
                 apply elem_of_app. left. exact Hb.
           ++ rewrite length_app. simpl. lia.
        -- split; simpl.
           ++ intros b Hb. apply elem_of_app in Hb. destruct Hb as [Hb|Hb].
              ** destruct (Hfresh b Hb) as [Hs _]. split; [exact Hs|].
                 destruct (Hnone b Hb) as (q & -> & Hq). exact Hq.
              ** apply list_elem_of_singleton in Hb. subst b.
                 split; [exact Hnew|]. rewrite Hrun, <- Hh. split; [exact Hc|reflexivity].
           ++ exact Hdup.
           ++ exact Hstore.
           ++ intros k q Hk.
              destruct (Hcache k q Hk) as [Hs|(b & Hb & Hhb & Hq)]; [left; exact Hs|].
              right. exists b. split; [|split; assumption].
              apply elem_of_app. left. exact Hb.
           ++ rewrite length_app. simpl. lia.
    + split; simpl; try assumption; [|lia].
      intros b Hb. destruct (Hfresh b Hb) as [Hs _]. split; [exact Hs|].
      destruct (Hnone b Hb) as (q & -> & Hq). exact Hq.
  - split; simpl; try assumption; [|rewrite length_alter; lia].
    intros b Hb. destruct (Hfresh b Hb) as [Hs Hr]. split; [exact Hs|].
    unfold crashed in *. rewrite Hw in Hr. exact Hr.
  - split; try assumption. rewrite Hw. exact Hjobs.
Qed.

Lemma log_invariant_step s a : invariant s -> logged s -> logged (step s a).
Proof.
  intros Hinv Hlog. destruct a as [image_bytes| |dt|]; simpl.
  - destruct Hlog as [Hfresh Hnodup Hstore Hcache Hjobs].
    split; simpl; try assumption. rewrite !length_app. simpl. lia.
  - apply log_invariant_work; assumption.
  - destruct Hlog. split; assumption.
  - destruct Hlog. split; assumption.
Qed.

Lemma log_invariant_run acts : forall s,
  invariant s -> logged s -> logged (run acts s).
Proof.
  induction acts as [|a acts IH]; intros s Hinv Hlog; [exact Hlog|].
  simpl. apply IH.
  - apply invariant_step. exact Hinv.
  - apply log_invariant_step; assumption.
Qed.

End ServerLogFacts.

Section ServerFifoFacts.

Import Server.

Variable run_inference : list byte -> Py.result float.

Local Abbreviation work := (inference_worker_step run_inference).
Local Abbreviation step := (Server.step run_inference).
Local Abbreviation run := (Server.run run_inference).

Lemma seq_snoc_range n len :
  n <= len -> seq n (len - n) ++ [len] = seq n (S len - n).
Proof.
  intros Hle. replace (S len - n) with (S (len - n)) by lia.
  rewrite seq_S. f_equal. f_equal. lia.
Qed.

Lemma fifo_start store : fifo (start store).
Proof. exists 0. split; [simpl; lia|reflexivity]. Qed.

Lemma fifo_work s : fifo s -> fifo (work s).
Proof.
  intros (n & Hn & Hfl). unfold in_flight in Hfl.
  unfold inference_worker_step, fifo, in_flight.
  destruct (worker s) as [|addr|addr p|addr] eqn:Hw; simpl in Hfl;
    [| | |exists n; rewrite Hw; split; [exact Hn|exact Hfl]].
  - destruct (stop_event s).
    + exists n. rewrite Hw. split; [exact Hn|exact Hfl].
    + destruct (job_queue s) as [|addr rest] eqn:Hq.
      * exists n. rewrite Hw, Hq. split; [exact Hn|exact Hfl].
      * exists n. split; [exact Hn|]. simpl. exact Hfl.
  - assert (Hlt : addr < length (heap s)).
    { destruct (length (heap s) - n) as [|k] eqn:Hk; [discriminate Hfl|].
      simpl in Hfl. injection Hfl as <- _. lia. }
    destruct (lookup_lt_is_Some_2 (heap s) addr Hlt) as [j Hj]. rewrite Hj.
    destruct (rdb s !! image_hash j);
      [|destruct (run_inference (image_bytes j))];
      exists n; (split; [exact Hn|exact Hfl]).
  - destruct (length (heap s) - n) as [|k] eqn:Hk; [discriminate Hfl|].
    simpl in Hfl. injection Hfl as Ha Hq.
    exists (S n). simpl. rewrite length_alter. split; [lia|].
    rewrite Hq. f_equal. lia.
Qed.

Lemma fifo_step s a : fifo s -> fifo (step s a).
Proof.
  intros Hf. destruct a as [image_bytes| |dt|]; simpl.
  - destruct Hf as (n & Hn & Hfl). exists n. unfold in_flight in *. simpl.
    rewrite length_app. simpl. split; [lia|].
    rewrite app_assoc, Hfl.
    replace (length (heap s) + 1) with (S (length (heap s))) by lia.
    apply seq_snoc_range. exact Hn.
  - apply fifo_work. exact Hf.
  - exact Hf.
  - exact Hf.
Qed.

Lemma fifo_run acts : forall s, fifo s -> fifo (run acts s).
Proof.
  induction acts as [|a acts IH]; intros s Hf; [exact Hf|].
  simpl. apply IH. apply fifo_step. exact Hf.
Qed.

(** A job still in flight has its flag unset. *)
Lemma in_flight_pending s addr j :
  invariant s -> addr ∈ in_flight s -> heap s !! addr = Some j ->
  result_event j = false.
Proof.
  intros Hinv Hin Hj. unfold in_flight in Hin. apply elem_of_app in Hin.
  destruct Hin as [Hin|Hin].
  - destruct (held (worker s)) as [a|] eqn:Hh.
    + apply list_elem_of_singleton in Hin. subst a.
      destruct (inv_held s Hinv addr Hh) as (_ & j' & Hj' & He & _). congruence.
    + apply elem_of_nil in Hin. contradiction.
  - destruct (inv_queued s Hinv addr Hin) as (j' & Hj' & He & _). congruence.
Qed.

Lemma pending_in_flight s addr j :
  invariant s -> heap s !! addr = Some j -> result_event j = false ->
  addr ∈ in_flight s.
Proof.
  intros Hinv Hj He. unfold in_flight. apply elem_of_app.
  destruct (inv_pending s Hinv addr j Hj He) as [Hq|Hh].
  - right. exact Hq.
  - left. rewrite Hh. apply list_elem_of_singleton. reflexivity.
Qed.

End ServerFifoFacts.

(** X9.  The model is called at most once per fingerprint.  In every
    state the broker reaches from a cache [store], the images the model has
    been called on have pairwise different fingerprints, none of which the
    store held; where the call returned, the cache holds its result under
    the fingerprint; where it raised, the cache holds nothing under the
    fingerprint and the worker thread has ended; and there are no more
    calls than jobs taken off the queue. *)
Theorem inference_once_per_fingerprint (run_inference : list byte -> Py.result float)
    (store : gmap string float) (acts : list Server.action) :
  let s := Server.run run_inference acts (Server.start store) in
  NoDup (map Server.hash_image_bytes (Server.inferences s)) /\
  (forall b, b ∈ Server.inferences s ->
     store !! Server.hash_image_bytes b = None /\
     match run_inference b with
     | Py.Ok p => Server.rdb s !! Server.hash_image_bytes b = Some p
     | Py.Raise _ =>
         Server.rdb s !! Server.hash_image_bytes b = None /\
         Server.crashed s = true
     end) /\
  length (Server.inferences s) + length (Server.job_queue s)
    <= length (Server.heap s).
Proof.
  intros s.
  destruct (log_invariant_run run_inference store acts (Server.start store)
              (invariant_start store) (log_invariant_start run_inference store))
    as [Hfresh Hnodup _ _ Hjobs].
  fold s in Hfresh, Hnodup, Hjobs.
  split; [exact Hnodup|]. split; [exact Hfresh|]. lia.
Qed.

(** X10.  Where the cache entries come from.  In every state the broker
    reaches from a cache [store], the entries of the store are still there
    unchanged, and every other entry is the model's result for logged
    bytes with that fingerprint: nothing else is ever written. *)
Theorem cache_provenance (run_inference : list byte -> Py.result float)
    (store : gmap string float) (acts : list Server.action) (k : string) :
  let s := Server.run run_inference acts (Server.start store) in
  match store !! k with
  | Some p => Server.rdb s !! k = Some p
  | None =>
      forall p, Server.rdb s !! k = Some p ->
        exists b, b ∈ Server.inferences s /\
                  Server.hash_image_bytes b = k /\ run_inference b = Py.Ok p
  end.
Proof.
  intros s.
  destruct (log_invariant_run run_inference store acts (Server.start store)
              (invariant_start store) (log_invariant_start run_inference store))
    as [_ _ Hstore Hcache _].
  fold s in Hstore, Hcache.
  destruct (store !! k) as [p|] eqn:Hk.
  - apply Hstore. exact Hk.
  - intros p Hp. destruct (Hcache k p Hp) as [Hs|H]; [congruence|exact H].
Qed.

(** X11.  Jobs are completed in the order they were put.  In every
    reachable state, if a job has its event set then so has every job put
    on the queue before it. *)
Theorem jobs_complete_in_order (run_inference : list byte -> Py.result float)
    (s : Server.state) (addr1 addr2 : nat) (j1 j2 : Server.job) :
  Server.reachable run_inference s ->
  addr1 < addr2 ->
  Server.heap s !! addr1 = Some j1 ->
  Server.heap s !! addr2 = Some j2 ->
  Server.result_event j2 = true ->
  Server.result_event j1 = true.
Proof.
  intros Hreach Hlt H1 H2 Hdone.
  pose proof (reachable_invariant run_inference s Hreach) as Hinv.
  destruct Hreach as (store & acts & ->).
  pose proof (fifo_run run_inference acts (Server.start store) (fifo_start store))
    as (n & Hn & Hfl).
  destruct (Server.result_event j1) eqn:He1; [reflexivity|].
  pose proof (pending_in_flight _ _ _ Hinv H1 He1) as Hin1.
  rewrite Hfl in Hin1. apply list_elem_of_In, in_seq in Hin1.
  pose proof (lookup_lt_Some _ _ _ H2) as Hlen.
  assert (Hin2 : addr2 ∈ Server.in_flight
                   (Server.run run_inference acts (Server.start store))).
  { rewrite Hfl. apply list_elem_of_In, in_seq. lia. }
  rewrite (in_flight_pending _ _ _ Hinv Hin2 H2) in Hdone.
  discriminate Hdone.
Qed.

Lemma jobs_complete_in_order_witness :
  exists j1,
    Server.heap
      (Server.run Server.sample_model
         [Server.Put (Server.pbm_image "000"); Server.Put (Server.pbm_image "255");
          Server.Work; Server.Work; Server.Work;
          Server.Work; Server.Work; Server.Work]
         (Server.start ∅)) !! 0%nat = Some j1 /\
    Server.result_event j1 = true.
Proof.
  eexists. split; [vm_compute; reflexivity|].
  eapply (jobs_complete_in_order Server.sample_model
            (Server.run Server.sample_model
               [Server.Put (Server.pbm_image "000"); Server.Put (Server.pbm_image "255");
                Server.Work; Server.Work; Server.Work;
                Server.Work; Server.Work; Server.Work]
               (Server.start ∅)) 0 1).
  - eexists ∅, _. reflexivity.
  - lia.
  - vm_compute. reflexivity.
  - vm_compute. reflexivity.
  - reflexivity.
Defined.


(** X12.  The broker never gives two answers for one image.  If a job has
    completed with some probability, then in every later state every
    completed job for the same bytes carries that probability, and it is
    the cache entry of their fingerprint. *)
Theorem answers_agree (run_inference : list byte -> Py.result float)
    (s : Server.state) (acts : list Server.action)
    (addr1 addr2 : nat) (j1 j2 : Server.job) (p1 : float) :
  Server.reachable run_inference s ->
  Server.heap s !! addr1 = Some j1 ->
  Server.result_event j1 = true ->
  Server.result j1 = Some p1 ->
  Server.heap (Server.run run_inference acts s) !! addr2 = Some j2 ->
  Server.result_event j2 = true ->
  Server.image_bytes j2 = Server.image_bytes j1 ->
  Server.result j2 = Some p1 /\
  Server.rdb (Server.run run_inference acts s)
    !! Server.hash_image_bytes (Server.image_bytes j1) = Some p1.
Proof.
  intros Hreach H1 Hd1 Hr1 H2 Hd2 Hbytes.
  pose proof (reachable_invariant run_inference s Hreach) as Hinv.
  pose proof (invariant_run run_inference acts s Hinv) as Hinv'.
  destruct (Server.inv_done s Hinv addr1 j1 H1 Hd1) as (p & Hp & Hc).
  assert (p = p1) by congruence. subst p.
  destruct (run_keeps_done run_inference acts s addr1 j1 p1 Hinv H1 Hd1 Hc)
    as [_ Hc'].
  destruct (Server.inv_done _ Hinv' addr2 j2 H2 Hd2) as (p2 & Hp2 & Hc2).
  rewrite (Server.inv_hash s Hinv addr1 j1 H1) in Hc'.
  rewrite (Server.inv_hash _ Hinv' addr2 j2 H2), Hbytes in Hc2.
  split; [congruence|exact Hc'].
Qed.

Lemma answers_agree_witness :
  exists j2,
    Server.heap
      (Server.run Server.sample_model
         [Server.Put (Server.pbm_image "000"); Server.Work; Server.Work; Server.Work]
         (Server.run Server.sample_model
            [Server.Put (Server.pbm_image "000"); Server.Work; Server.Work; Server.Work]
            (Server.start ∅))) !! 1%nat = Some j2 /\
    Server.result j2 = Some 0.25%float.
Proof.
  eexists. split; [vm_compute; reflexivity|].
  eapply (answers_agree Server.sample_model
            (Server.run Server.sample_model
               [Server.Put (Server.pbm_image "000"); Server.Work; Server.Work; Server.Work]
               (Server.start ∅))
            [Server.Put (Server.pbm_image "000"); Server.Work; Server.Work; Server.Work] 0 1).
  - eexists ∅, _. reflexivity.
  - vm_compute. reflexivity.
  - reflexivity.
  - reflexivity.
  - vm_compute. reflexivity.
  - reflexivity.
  - reflexivity.
Defined.


Section ServerHeldFacts.

Import Server.

Variable run_inference : list byte -> Py.result float.

Local Abbreviation work := (inference_worker_step run_inference).
Local Abbreviation step := (Server.step run_inference).
Local Abbreviation run := (Server.run run_inference).

(** The steps the worker still has to take on the job in its hands. *)
Local Abbreviation steps_left w :=
  (match w with Holding _ => 2 | Computed _ _ => 1 | _ => 0 end).

(** The job in the worker's hands will not end the thread: the probability
    is found already, or the cache has the fingerprint, or the model call
    returns on the bytes. *)
Local Abbreviation safe s j :=
  ((exists addr p, worker s = Computed addr p) \/
   (exists addr, worker s = Holding addr) /\
   (is_Some (rdb s !! image_hash j) \/
    exists p, run_inference (image_bytes j) = Py.Ok p)).

Lemma safe_step s a addr j :
  is_work a = false -> heap s !! addr = Some j -> safe s j ->
  worker (step s a) = worker s /\ heap (step s a) !! addr = Some j /\
  safe (step s a) j.
Proof.
  intros Ha Hj Hsafe. destruct a as [image_bytes| |dt|]; try discriminate Ha;
    simpl; (split; [reflexivity|]); (split; [|exact Hsafe]); try exact Hj.
  rewrite lookup_app_l; [exact Hj|]. eapply lookup_lt_Some. exact Hj.
Qed.

(** Once the worker has taken a job it completes it in two steps, whatever
    the other threads do in between and whether or not [stop_event] is
    set (the flag is only read at the head of the loop), unless the model
    call raises on it. *)
Lemma run_settles_held acts : forall s addr j,
  invariant s ->
  held (worker s) = Some addr ->
  heap s !! addr = Some j ->
  safe s j ->
  steps_left (worker s) <= worker_steps acts ->
  exists p,
    heap (run acts s) !! addr
      = Some (Job (image_hash j) (image_bytes j) true (Some p)) /\
    rdb (run acts s) !! image_hash j = Some p.
Proof.
  induction acts as [|a acts IH]; intros s addr j Hinv Hheld Hj Hsafe Hsteps.
  - unfold worker_steps in Hsteps. exfalso.
    destruct Hsafe as [(b & p & Hw)|[(b & Hw) _]]; rewrite Hw in Hsteps;
      simpl in Hsteps; lia.
  - destruct (is_work a) eqn:Ha.
    + destruct a; try discriminate Ha. cbn [Server.run fold_left Server.step].
      destruct Hsafe as [(b & p & Hw)|[(b & Hw) Hok]];
        rewrite Hw in Hheld, Hsteps; simpl in Hheld; injection Hheld as ->.
      * assert (Ho : owes s addr 1).
        { unfold owes. rewrite Hw. left. split; reflexivity. }
        destruct (owes_last run_inference s addr j Hinv Hj Ho) as (q & Hdone & Hc).
        exists q.
        apply (run_keeps_done run_inference acts (work s) addr
                 (Job (image_hash j) (image_bytes j) true (Some q)) q).
        -- apply invariant_work. exact Hinv.
        -- exact Hdone.
        -- reflexivity.
        -- exact Hc.
      * pose proof (work_alive run_inference s addr j Hw Hj Hok) as Halive.
        destruct (work_compute run_inference s addr j Hw Hj Halive)
          as (p & Hwork & _).
        apply (IH (work s) addr j).
        -- apply invariant_work. exact Hinv.
        -- rewrite Hwork. reflexivity.
        -- rewrite Hwork. exact Hj.
        -- left. exists addr, p. rewrite Hwork. reflexivity.
        -- rewrite Hwork. unfold worker_steps in *. simpl in *. lia.
    + cbn [Server.run fold_left].
      destruct (safe_step s a addr j Ha Hj Hsafe) as (Hw' & Hj' & Hsafe').
      apply (IH (step s a) addr j).
      * apply invariant_step. exact Hinv.
      * rewrite Hw'. exact Hheld.
      * exact Hj'.
      * exact Hsafe'.
      * rewrite Hw'. unfold worker_steps in *. simpl in Hsteps. rewrite Ha in Hsteps.
        exact Hsteps.
Qed.

(** If the model call raises on the job in hand, the next step of the
    worker ends the thread and the job is never completed. *)
Lemma run_loses_held acts : forall s addr j e,
  invariant s ->
  heap s !! addr = Some j ->
  result_event j = false ->
  worker s = Holding addr \/ worker s = Crashed addr ->
  rdb s !! image_hash j = None ->
  run_inference (image_bytes j) = Py.Raise e ->
  heap (run acts s) !! addr = Some j /\
  rdb (run acts s) !! image_hash j = None /\
  (1 <= worker_steps acts -> crashed (run acts s) = true).
Proof.
  induction acts as [|a acts IH]; intros s addr j e Hinv Hj He Hw Hc Hrun.
  - split; [exact Hj|]. split; [exact Hc|]. unfold worker_steps. simpl. lia.
  - change (run (a :: acts) s) with (run acts (step s a)).
    destruct Hw as [Hw|Hw].
    + destruct (is_work a) eqn:Ha.
      * destruct a; try discriminate Ha. cbn [Server.step].
        pose proof (work_crash run_inference s addr j e Hw Hj Hc Hrun) as Hwork.
        assert (Hcr : crashed (work s) = true) by (rewrite Hwork; reflexivity).
        destruct (crashed_frozen run_inference acts (work s) Hcr) as [Hrdb Hheap].
        split; [apply Hheap; rewrite Hwork; exact Hj|].
        split; [rewrite Hrdb, Hwork; exact Hc|].
        intros _. apply crashed_run. exact Hcr.
      * assert (Hkeep : worker (step s a) = worker s /\
                        heap (step s a) !! addr = Some j /\
                        rdb (step s a) = rdb s).
        { destruct a as [image_bytes| |dt|]; try discriminate Ha; simpl;
            (split; [reflexivity|]); (split; [|reflexivity]); try exact Hj.
          rewrite lookup_app_l; [exact Hj|]. eapply lookup_lt_Some. exact Hj. }
        destruct Hkeep as (Hw' & Hj' & Hrdb').
        destruct (IH (step s a) addr j e) as (H1 & H2 & H3); try assumption.
        -- apply invariant_step. exact Hinv.
        -- left. rewrite Hw'. exact Hw.
        -- rewrite Hrdb'. exact Hc.
        -- split; [exact H1|]. split; [exact H2|].
           intros Hsteps. apply H3. unfold worker_steps in *. simpl in Hsteps.
           rewrite Ha in Hsteps. exact Hsteps.
    + assert (Hcr : crashed s = true) by (unfold crashed; rewrite Hw; reflexivity).
      change (run acts (step s a)) with (run (a :: acts) s).
      destruct (crashed_frozen run_inference (a :: acts) s Hcr) as [Hrdb Hheap].
      split; [apply Hheap; exact Hj|]. split; [rewrite Hrdb; exact Hc|].
      intros _. apply crashed_run. exact Hcr.
Qed.

End ServerHeldFacts.

(** X13.  A job the worker has taken is completed even through a
    shutdown, unless the model call raises on it.  In every reachable
    state, with [stop_event] set or not, if the worker has the result of
    the job in its hands already, or the cache holds the job's fingerprint,
    or the model call returns on its bytes, then once the worker has taken
    two more steps, whatever else happens in between (a shutdown included),
    the job has its result stored and its event set, its fingerprint is in
    the cache and a handler still waiting on it is answered with
    [from_cache] false.  If instead the cache misses and the model call
    raises on the bytes, the worker's next step ends the thread, and the
    job is never completed nor its fingerprint cached. *)
Theorem job_in_hand_completes (run_inference : list byte -> Py.result float)
    (s : Server.state) (addr : nat) (j : Server.job) (acts : list Server.action)
    (since : Z) :
  Server.reachable run_inference s ->
  Server.held (Server.worker s) = Some addr ->
  Server.crashed s = false ->
  Server.heap s !! addr = Some j ->
  (((exists p, Server.worker s = Server.Computed addr p) \/
    is_Some (Server.rdb s !! Server.image_hash j) \/
    (exists p, run_inference (Server.image_bytes j) = Py.Ok p)) ->
   2 <= Server.worker_steps acts ->
   exists p,
     Server.heap (Server.run run_inference acts s) !! addr
       = Some (Server.Job (Server.image_hash j) (Server.image_bytes j) true (Some p)) /\
     Server.rdb (Server.run run_inference acts s) !! Server.image_hash j = Some p /\
     Server.predict_wait since addr (Server.run run_inference acts s)
       = Some (Py.Ok (Server.Dict false p))) /\
  (Server.worker s = Server.Holding addr ->
   Server.rdb s !! Server.image_hash j = None ->
   (exists e, run_inference (Server.image_bytes j) = Py.Raise e) ->
   Server.heap (Server.run run_inference acts s) !! addr = Some j /\
   Server.result_event j = false /\
   Server.rdb (Server.run run_inference acts s) !! Server.image_hash j = None /\
   (1 <= Server.worker_steps acts ->
    Server.crashed (Server.run run_inference acts s) = true)).
Proof.
  intros Hreach Hheld Halive Hj.
  pose proof (reachable_invariant run_inference s Hreach) as Hinv.
  split.
  - intros Hok Hsteps.
    destruct (run_settles_held run_inference acts s addr j Hinv Hheld Hj)
      as (p & Hdone & Hc).
    { unfold Server.crashed in Halive.
      destruct (Server.worker s) as [|b|b q|b] eqn:Hw; simpl in Hheld;
        try discriminate; injection Hheld as ->.
      - right. split; [eauto|].
        destruct Hok as [(p & Hp)|Hok]; [discriminate Hp|exact Hok].
      - left. eauto. }
    { destruct (Server.worker s); simpl; lia. }
    exists p. split; [exact Hdone|]. split; [exact Hc|].
    unfold Server.predict_wait, Server.wait, Server.predict_respond.
    rewrite Hdone. reflexivity.
  - intros Hw Hc (e & Hrun).
    destruct (Server.inv_held s Hinv addr Hheld) as (_ & j' & Hj' & He & _).
    assert (j' = j) by congruence. subst j'.
    destruct (run_loses_held run_inference acts s addr j e Hinv Hj He
                (or_introl Hw) Hc Hrun) as (H1 & H2 & H3).
    split; [exact H1|]. split; [exact He|]. split; [exact H2|exact H3].
Qed.

(** The application is shut down while the worker holds a job: two steps
    later the job's handler has its answer. *)
Lemma job_in_hand_completes_witness :
  exists p,
    Server.predict_wait 0 0
      (Server.run Server.sample_model [Server.Shutdown; Server.Work; Server.Work]
         (Server.run Server.sample_model
            [Server.Put (Server.pbm_image "000"); Server.Work]
            (Server.start ∅)))
    = Some (Py.Ok (Server.Dict false p)).
Proof.
  destruct (job_in_hand_completes Server.sample_model
              (Server.run Server.sample_model
                 [Server.Put (Server.pbm_image "000"); Server.Work]
                 (Server.start ∅))
              0 (Server.Job (Server.hash_image_bytes (Server.pbm_image "000"))
                            (Server.pbm_image "000") false None)
              [Server.Shutdown; Server.Work; Server.Work] 0)
    as [Hcompletes _].
  - eexists ∅, _. reflexivity.
  - reflexivity.
  - reflexivity.
  - vm_compute. reflexivity.
  - destruct Hcompletes as (p & _ & _ & Hanswer).
    + right. right. exists 0.25%float. reflexivity.
    + vm_compute. lia.
    + exists p. exact Hanswer.
Defined.

(** ** The Reward Engine: the range gate, the shape of the result and the
    metrics reported *)

Section PenaltyFacts.

Local Open Scope float_scope.

(** Comparison with zero and with a positive finite bound, on the IEEE
    value of the float. *)
Lemma range_gate_spec (x : spec_float) (m1 : positive) (e1 : Z) :
  SFltb x (S754_zero false) || SFltb (S754_finite false m1 e1) x
  = negb (match x with S754_nan => true | _ => false end
          || (SFleb (S754_zero false) x && SFleb x (S754_finite false m1 e1))).
Proof.
  unfold SFltb, SFleb.
  destruct x as [s|s| |s m e]; try (destruct s; reflexivity); [reflexivity|].
  destruct s; [reflexivity|].
  cbn [SFcompare].
  change (Pos.compare_cont Eq m1 m) with (m1 ?= m)%positive.
  change (Pos.compare_cont Eq m m1) with (m ?= m1)%positive.
  rewrite (Z.compare_antisym e e1), (Pos.compare_antisym m m1).
  destruct (e ?= e1)%Z; cbn [CompOpp orb andb negb]; try reflexivity.
  destruct (m ?= m1)%positive; reflexivity.
Qed.

Lemma is_nan_spec_float (x : spec_float) :
  negb (SFeqb x x) = match x with S754_nan => true | _ => false end.
Proof.
  unfold SFeqb. destruct x as [s|s| |s m e];
    try (destruct s; reflexivity); [reflexivity|].
  cbn [SFcompare]. change (Pos.compare_cont Eq m m) with (m ?= m)%positive.
  rewrite Z.compare_refl, Pos.compare_refl.
  destruct s; reflexivity.
Qed.

End PenaltyFacts.

(** X14.  What the range gate lets through.  [compute_penalty] is 1.0
    for a prediction within [0, 1], bounds included, and for NaN, which
    neither comparison of the gate rejects; it is 0.0 for every other
    float. *)
Theorem compute_penalty_cases (y_pred : float) :
  Reward.compute_penalty y_pred
  = (if is_nan y_pred || ((0 <=? y_pred) && (y_pred <=? 1)) then 1 else 0)%float.
Proof.
  unfold Reward.compute_penalty, is_nan.
  rewrite !ltb_spec, !leb_spec, FloatAxioms.eqb_spec.
  change (Prim2SF 0) with (S754_zero false).
  change (Prim2SF 1) with (S754_finite false 4503599627370496 (-52)).
  rewrite range_gate_spec, is_nan_spec_float.
  destruct (match Prim2SF y_pred with S754_nan => true | _ => false end
            || (SFleb (S754_zero false) (Prim2SF y_pred)
                && SFleb (Prim2SF y_pred)
                     (S754_finite false 4503599627370496 (-52)))); reflexivity.
Qed.

Section RewardShapeFacts.

Import Py Reward.

Context {T : Type} {impl : PerformanceTracker T}.

Local Abbreviation frame := (Reward.frame T).
Local Abbreviation stmt := (Reward.stmt T).

(** A statement that leaves every tracker but the one under "image" as it
    found it. *)
Local Abbreviation image_only m :=
  (forall (fr : frame) (key : string), key <> "image"%string ->
     tracker (fst (m fr)) !! key = tracker fr !! key).

Lemma bind_image_only {A B : Type} (m : stmt A) (k : A -> stmt B) :
  image_only m -> (forall a, image_only (k a)) -> image_only (bind m k).
Proof.
  intros Hm Hk fr key Hne. unfold bind.
  specialize (Hm fr key Hne). destruct (m fr) as [fr1 [a|e]]; simpl in *.
  - rewrite (Hk a fr1 key Hne). exact Hm.
  - exact Hm.
Qed.

Lemma call_image_only {A : Type} (method : T -> T * result A) :
  image_only (call method).
Proof.
  intros fr key Hne. unfold call.
  destruct (tracker fr !! "image") as [obj|]; [|reflexivity].
  destruct (method obj) as [obj' r]. simpl.
  apply lookup_insert_ne. congruence.
Qed.

Lemma attribute_image_only {A : Type} (attr : T -> A) : image_only (attribute attr).
Proof.
  intros fr key _. unfold attribute.
  destruct (tracker fr !! "image"); reflexivity.
Qed.

Lemma subscript_image_only d key0 : image_only (subscript d key0).
Proof. intros fr key _. unfold subscript. destruct (d !! key0); reflexivity. Qed.

Lemma score_image_only label ax uid p : image_only (score label ax uid p).
Proof.
  unfold score, reset_if_changed, update_and_rate.
  repeat (apply bind_image_only; [|intros ?]);
    try apply call_image_only; try apply attribute_image_only;
    try apply subscript_image_only; try (intros fr key _; reflexivity).
  destruct (_ !! uid) as [tracked|]; [|intros fr key _; reflexivity].
  destruct (decide (tracked = hotkey ax)); [intros fr key _; reflexivity|].
  apply call_image_only.
Qed.

Lemma iteration_image_only label entry (fr : frame) key :
  key <> "image"%string ->
  tracker (iteration label entry fr).1.1 !! key = tracker fr !! key.
Proof.
  intros Hne. destruct entry as [[ax uid] p]. unfold iteration, try_block.
  destruct (p =? -1)%float.
  - unfold ret, read_metrics_100. destruct (metrics_100 fr); reflexivity.
  - pose proof (score_image_only label ax uid p fr key Hne) as Hs.
    destruct (score label ax uid p fr) as [fr1 [reward|e]]; simpl in *.
    + unfold read_metrics_100. destruct (metrics_100 fr1); exact Hs.
    + exact Hs.
Qed.

Lemma for_loop_image_only label batch : forall (fr : frame) key,
  key <> "image"%string ->
  tracker (for_loop label batch fr).1.1 !! key = tracker fr !! key.
Proof.
  induction batch as [|entry rest IH]; intros fr key Hne; [reflexivity|].
  rewrite for_loop_cons. cbn [fst]. rewrite IH by exact Hne.
  apply iteration_image_only. exact Hne.
Qed.

(** The metrics dict of a pass is empty, or it holds under "image" the
    value [metrics_100] has when the pass ends. *)
Lemma iteration_metrics label entry (fr : frame) :
  (iteration label entry fr).2 = ∅ \/
  exists m, (iteration label entry fr).2 = {["image" := m]} /\
            metrics_100 (iteration label entry fr).1.1 = Some m.
Proof.
  destruct entry as [[ax uid] p]. unfold iteration, try_block.
  destruct ((if (p =? -1)%float then ret 0%float else score label ax uid p) fr)
    as [fr1 [reward|e]]; [|left; reflexivity].
  unfold read_metrics_100. destruct (metrics_100 fr1) as [m|] eqn:Hm; simpl.
  - right. exists m. split; [reflexivity|exact Hm].
  - left. reflexivity.
Qed.

(** A pass for a miner that did not respond. *)
Lemma iteration_no_response label ax uid p (fr : frame) :
  (p =? -1)%float = true ->
  iteration label (ax, uid, p) fr
  = (fr, 0%float,
     match metrics_100 fr with Some m => {["image" := m]} | None => ∅ end).
Proof.
  intros Hp. unfold iteration. rewrite (try_block_no_response label ax uid p fr Hp).
  destruct (metrics_100 fr); rewrite ?lookup_singleton_eq; reflexivity.
Qed.

Lemma for_loop_lookup_metrics label batch : forall (fr : frame) i entry,
  batch !! i = Some entry ->
  (for_loop label batch fr).2 !! i
  = Some (iteration label entry (frame_before label batch fr i)).2.
Proof.
  induction batch as [|e0 rest IH]; intros fr i entry Hi.
  - rewrite lookup_nil in Hi. discriminate Hi.
  - rewrite for_loop_cons. destruct i as [|i]; simpl in Hi.
    + injection Hi as ->. reflexivity.
    + assert (Hfb : frame_before label (e0 :: rest) fr (S i)
                    = frame_before label rest (iteration label e0 fr).1.1 i).
      { unfold frame_before. rewrite firstn_cons, for_loop_cons. reflexivity. }
      rewrite Hfb. simpl. apply IH. exact Hi.
Qed.

(** With no tracker under "image" a pass changes nothing and yields 0.0
    and an empty metrics dict, whatever the prediction. *)
Lemma iteration_no_tracker label entry (performance_trackers : gmap string T) :
  performance_trackers !! "image" = None ->
  iteration label entry (Frame performance_trackers None)
  = (Frame performance_trackers None, 0%float, ∅).
Proof.
  intros Hnone. destruct entry as [[ax uid] p].
  destruct (p =? -1)%float eqn:Hp.
  - rewrite iteration_no_response by exact Hp. reflexivity.
  - unfold iteration, try_block. rewrite Hp.
    unfold score, reset_if_changed, bind, attribute. cbn [tracker].
    rewrite Hnone. reflexivity.
Qed.

Lemma for_loop_no_tracker label batch (performance_trackers : gmap string T) :
  performance_trackers !! "image" = None ->
  for_loop label batch (Frame performance_trackers None)
  = (Frame performance_trackers None,
     repeat 0%float (length batch), repeat ∅ (length batch)).
Proof.
  intros Hnone. induction batch as [|entry rest IH]; [reflexivity|].
  rewrite for_loop_cons, (iteration_no_tracker label entry _ Hnone).
  cbn [fst snd]. rewrite IH. reflexivity.
Qed.

Lemma zip3_length (axons : list axon) (uids : list Z) (responses : list float) :
  length (zip3 axons uids responses)
  = Nat.min (length axons) (Nat.min (length uids) (length responses)).
Proof. unfold zip3. rewrite !length_combine. lia. Qed.

End RewardShapeFacts.

(** X15.  The shape of what [get_rewards] returns.  There is one reward
    and one metrics dict for every miner that [zip] pairs up, that is, as
    many as the shortest of the three lists is long, the rest being
    dropped without notice; and of the trackers passed in only the one
    under "image" can have changed. *)
Theorem get_rewards_shape {T : Type} {impl : Reward.PerformanceTracker T}
    (label : float) (responses : list float) (uids : list Z)
    (axons : list Reward.axon) (performance_trackers : gmap string T) :
  let n := Nat.min (length axons) (Nat.min (length uids) (length responses)) in
  let out := Reward.get_rewards label responses uids axons performance_trackers in
  length out.1.1 = n /\
  length out.1.2 = n /\
  forall modality, modality <> "image"%string ->
    out.2 !! modality = performance_trackers !! modality.
Proof.
  intros n out. subst n out. rewrite get_rewards_for_loop. cbn [fst snd].
  destruct (for_loop_length label (Reward.zip3 axons uids responses)
              (Reward.Frame performance_trackers None)) as [Hr Hm].
  rewrite Hr, Hm, zip3_length. split; [reflexivity|]. split; [reflexivity|].
  intros modality Hne.
  apply (for_loop_image_only label (Reward.zip3 axons uids responses)
           (Reward.Frame performance_trackers None) modality Hne).
Qed.

(** X16.  A miner that did not respond is reported with the metrics of a
    miner before it.  [metrics_100] is a local of the whole loop, so when
    the prediction at position i+1 is -1 the metrics dict at i+1 holds
    whatever the loop last bound it to: if the dict at position i is not
    empty, the dict at i+1 is equal to it (and so along a run of miners
    that did not respond), and the reward at i+1 is 0.0; a miner at
    position 0 that did not respond gets an empty dict. *)
Theorem no_response_reports_earlier_metrics
    {T : Type} {impl : Reward.PerformanceTracker T}
    (label : float) (responses : list float) (uids : list Z)
    (axons : list Reward.axon) (performance_trackers : gmap string T) :
  let batch := Reward.zip3 axons uids responses in
  let out := Reward.get_rewards label responses uids axons performance_trackers in
  (forall i before ax uid p reported,
     batch !! i = Some before ->
     batch !! S i = Some (ax, uid, p) ->
     (p =? -1)%float = true ->
     out.1.2 !! i = Some reported ->
     reported <> ∅ ->
     out.1.2 !! S i = Some reported /\ out.1.1 !! S i = Some 0%float) /\
  (forall ax uid p,
     batch !! 0 = Some (ax, uid, p) ->
     (p =? -1)%float = true ->
     out.1.2 !! 0 = Some ∅ /\ out.1.1 !! 0 = Some 0%float).
Proof.
  intros batch out. subst out. rewrite get_rewards_for_loop. cbn [fst snd].
  fold batch. set (fr0 := Reward.Frame performance_trackers None).
  split.
  - intros i before ax uid p reported Hi HSi Hp Hrep Hne.
    rewrite (for_loop_lookup_metrics label batch fr0 i before Hi) in Hrep.
    injection Hrep as Hrep.
    destruct (for_loop_lookup label batch fr0 (S i) (ax, uid, p) HSi) as [Hrew _].
    rewrite Hrew, (for_loop_lookup_metrics label batch fr0 (S i) _ HSi).
    rewrite (frame_before_S label batch fr0 i before Hi).
    rewrite iteration_no_response by exact Hp. cbn [fst snd].
    destruct (iteration_metrics label before (Reward.frame_before label batch fr0 i))
      as [Hempty|(m & Hm & Hbound)].
    + rewrite Hempty in Hrep. congruence.
    + rewrite Hbound. rewrite Hm in Hrep. subst reported. split; reflexivity.
  - intros ax uid p H0 Hp.
    destruct (for_loop_lookup label batch fr0 0 (ax, uid, p) H0) as [Hrew _].
    rewrite Hrew, (for_loop_lookup_metrics label batch fr0 0 _ H0).
    unfold Reward.frame_before. cbn [take Reward.for_loop fst].
    rewrite iteration_no_response by exact Hp. split; reflexivity.
Qed.

(** X17.  Without a tracker for the "image" modality nothing is scored.
    The missing key raises inside every miner's [try], or leaves
    [metrics_100] unbound for a miner that did not respond; each is caught,
    so the call returns 0.0 and an empty metrics dict for every miner and
    leaves the trackers as they were. *)
Theorem missing_tracker_scores_nothing
    {T : Type} {impl : Reward.PerformanceTracker T}
    (label : float) (responses : list float) (uids : list Z)
    (axons : list Reward.axon) (performance_trackers : gmap string T) :
  performance_trackers !! "image" = None ->
  let n := length (Reward.zip3 axons uids responses) in
  Reward.get_rewards label responses uids axons performance_trackers
  = (repeat 0%float n, repeat ∅ n, performance_trackers).
Proof.
  intros Hnone n. subst n. rewrite get_rewards_for_loop.
  rewrite (for_loop_no_tracker label _ _ Hnone). reflexivity.
Qed.

Lemma missing_tracker_scores_nothing_witness :
  Reward.get_rewards (impl := Reward.failing_tracker 0) 1
    [0.5%float; (-1)%float] [1%Z; 2%Z] [Reward.Axon "a"; Reward.Axon "b"] ∅
  = ([0%float; 0%float], [∅; ∅], ∅).
Proof.
  apply (missing_tracker_scores_nothing (impl := Reward.failing_tracker 0) 1
           [0.5%float; (-1)%float] [1%Z; 2%Z] [Reward.Axon "a"; Reward.Axon "b"] ∅).
  reflexivity.
Defined.

(** ** The Request Handler: the request counters *)

Section CounterFacts.

Import Miner.

Local Open Scope Z_scope.

Lemma get_set_eq key value d : get key (set key value d) = Some value.
Proof.
  induction d as [|[k v] d IH]; simpl.
  - rewrite String.eqb_refl. reflexivity.
  - destruct (String.eqb k key) eqn:Hk; simpl; rewrite Hk; [reflexivity|exact IH].
Qed.

Lemma get_set_ne key key' value d :
  key' <> key -> get key' (set key value d) = get key' d.
Proof.
  intros Hne. induction d as [|[k v] d IH]; simpl.
  - destruct (String.eqb key key') eqn:Hk; [|reflexivity].
    apply String.eqb_eq in Hk. congruence.
  - destruct (String.eqb k key) eqn:Hk; simpl.
    + apply String.eqb_eq in Hk. subst k.
      destruct (String.eqb key key') eqn:Hk'; [|reflexivity].
      apply String.eqb_eq in Hk'. congruence.
    + rewrite IH. reflexivity.
Qed.

Lemma sum_values_set key value d :
  sum_values (set key value d) = sum_values d - default 0 (get key d) + value.
Proof.
  unfold sum_values. induction d as [|[k v] d IH]; simpl.
  - lia.
  - destruct (String.eqb k key); simpl; [lia|]. rewrite IH. lia.
Qed.

Lemma keys_set key value d :
  map fst (set key value d)
  = match get key d with Some _ => map fst d | None => map fst d ++ [key] end.
Proof.
  induction d as [|[k v] d IH]; simpl; [reflexivity|].
  destruct (String.eqb k key) eqn:Hk; simpl; [reflexivity|].
  rewrite IH. destruct (get key d); reflexivity.
Qed.

Lemma get_None_keys key d : get key d = None <-> ~ In key (map fst d).
Proof.
  induction d as [|[k v] d IH]; simpl; [tauto|].
  destruct (String.eqb k key) eqn:Hk.
  - apply String.eqb_eq in Hk. split; [discriminate|]. intros H. exfalso. auto.
  - apply String.eqb_neq in Hk. rewrite IH. tauto.
Qed.

(** What one [count] does: the key's entry goes up by one, from nothing to
    1, every other entry stays, and a new key goes last. *)
Lemma get_count_eq key d :
  get key (count key d) = Some (default 0 (get key d) + 1).
Proof.
  unfold count. destruct (get key d) as [v|] eqn:Hg.
  - rewrite Hg, get_set_eq. reflexivity.
  - rewrite get_set_eq, get_set_eq. reflexivity.
Qed.

Lemma get_count_ne key key' d : key' <> key -> get key' (count key d) = get key' d.
Proof.
  intros Hne. unfold count. destruct (get key d) as [v|] eqn:Hg.
  - rewrite Hg, get_set_ne by exact Hne. reflexivity.
  - rewrite get_set_eq, !get_set_ne by exact Hne. reflexivity.
Qed.

Lemma sum_values_count key d : sum_values (count key d) = sum_values d + 1.
Proof.
  unfold count. destruct (get key d) as [v|] eqn:Hg.
  - rewrite Hg, sum_values_set, Hg. simpl. lia.
  - rewrite get_set_eq, !sum_values_set, get_set_eq, Hg. simpl. lia.
Qed.

Lemma keys_count key d :
  map fst (count key d)
  = match get key d with Some _ => map fst d | None => map fst d ++ [key] end.
Proof.
  unfold count. destruct (get key d) as [v|] eqn:Hg.
  - rewrite Hg, keys_set, Hg. reflexivity.
  - rewrite get_set_eq, keys_set, get_set_eq, keys_set, Hg. reflexivity.
Qed.

Lemma NoDup_keys_count key d :
  List.NoDup (map fst d) -> List.NoDup (map fst (count key d)).
Proof.
  intros Hnd. rewrite keys_count. destruct (get key d) eqn:Hg; [exact Hnd|].
  apply get_None_keys in Hg.
  apply NoDup_ListNoDup. apply NoDup_app. split; [apply NoDup_ListNoDup; exact Hnd|].
  split; [|apply NoDup_singleton].
  intros x Hx Hx'. apply list_elem_of_singleton in Hx'. subst x.
  apply Hg. apply list_elem_of_In. exact Hx.
Qed.

(** A counter fed the keys [keys] from empty: each key's entry is the
    number of times it occurs, keys that never occur have no entry, the
    entries add up to the number of keys, and no key is held twice. *)
Lemma count_all (keys : list string) : forall d,
  let d' := fold_left (fun d k => count k d) keys d in
  (forall key,
     get key d'
     = if decide (count_occ string_dec keys key = 0%nat /\ get key d = None)
       then None
       else Some (default 0 (get key d) + Z.of_nat (count_occ string_dec keys key))) /\
  sum_values d' = sum_values d + Z.of_nat (length keys) /\
  (List.NoDup (map fst d) -> List.NoDup (map fst d')).
Proof.
  induction keys as [|k keys IH]; intros d.
  - simpl. split; [|split; [lia|auto]].
    intros key. destruct (get key d) as [v|] eqn:Hg.
    + rewrite decide_False by (intros [_ H]; discriminate H). simpl. f_equal. lia.
    + rewrite decide_True by auto. reflexivity.
  - cbn [fold_left]. destruct (IH (count k d)) as (Hget & Hsum & Hnd).
    split; [|split].
    + intros key. rewrite Hget. cbn [count_occ].
      destruct (string_dec k key) as [->|Hne].
      * rewrite get_count_eq.
        rewrite decide_False by (intros [_ H]; discriminate H).
        rewrite decide_False by (intros [H _]; discriminate H).
        simpl. f_equal. lia.
      * rewrite get_count_ne by congruence. reflexivity.
    + rewrite Hsum, sum_values_count. cbn [length]. lia.
    + intros H. apply Hnd. apply NoDup_keys_count. exact H.
Qed.

End CounterFacts.

Section StatsFacts.

Import Miner.

Local Open Scope Z_scope.

Local Abbreviation uid_key uid :=
  (match uid with Some n => pretty n | None => "Unknown"%string end).

Local Abbreviation feed keys d0 := (fold_left (fun d k => count k d) keys d0).

(** The three counters are fed independently of one another. *)
Lemma record_all_counters (requests : list (string * option nat * string)) :
  forall st,
    total_requests (record_all requests st)
      = total_requests st + Z.of_nat (length requests) /\
    requests_by_hotkey (record_all requests st)
      = feed (map (fun r => fst (fst r)) requests) (requests_by_hotkey st) /\
    requests_by_uid (record_all requests st)
      = feed (map (fun r : string * option nat * string => uid_key (snd (fst r)))
                requests)
             (requests_by_uid st) /\
    requests_by_ip (record_all requests st)
      = feed (map snd requests) (requests_by_ip st) /\
    start_time (record_all requests st) = start_time st.
Proof.
  induction requests as [|[[h u] i] requests IH]; intros st.
  - simpl. repeat split; lia.
  - unfold record_all in *. cbn [fold_left map length fst snd].
    destruct (IH (_update_request_stats h u i st)) as (Ht & Hh & Hu & Hi & Hs).
    rewrite Ht, Hh, Hu, Hi, Hs. cbn. repeat split; lia.
Qed.

(** The decimal text of a UID is never the word the code files
    unregistered senders under. *)
Lemma pretty_N_go_not_word x : forall s,
  (forall t, s <> String "U" t) -> forall t, pretty_N_go x s <> String "U" t.
Proof.
  induction (N.lt_wf_0 x) as [x _ IH]; intros s Hs t.
  destruct (decide (x = 0)%N) as [->|Hx].
  - rewrite pretty_N_go_0. apply Hs.
  - rewrite pretty_N_go_step by lia. apply IH.
    + apply N.div_lt; lia.
    + intros t'. unfold pretty_N_char.
      repeat case_match; intros Habs; discriminate Habs.
Qed.

Lemma str_uid_not_unknown (uid : nat) : pretty uid <> "Unknown"%string.
Proof.
  unfold pretty, pretty_nat, pretty, pretty_N.
  destruct (decide (N.of_nat uid = 0)%N); [discriminate|].
  apply pretty_N_go_not_word. intros t H. discriminate H.
Qed.

End StatsFacts.

(** X18.  The request counters add up.  After any sequence of calls of
    [_update_request_stats] on the statistics [__init__] sets up,
    [total_requests] is the number of calls, and the counts held per
    hotkey, per UID and per IP each add up to it; no key is held twice. *)
Theorem request_stats_add_up (now : float)
    (requests : list (string * option nat * string)) :
  let st := Miner.record_all requests (Miner.init_request_stats now) in
  Miner.total_requests st = Z.of_nat (length requests) /\
  Miner.sum_values (Miner.requests_by_hotkey st) = Miner.total_requests st /\
  Miner.sum_values (Miner.requests_by_uid st) = Miner.total_requests st /\
  Miner.sum_values (Miner.requests_by_ip st) = Miner.total_requests st /\
  List.NoDup (map fst (Miner.requests_by_hotkey st)) /\
  List.NoDup (map fst (Miner.requests_by_uid st)) /\
  List.NoDup (map fst (Miner.requests_by_ip st)).
Proof.
  intros st. subst st.
  destruct (record_all_counters requests (Miner.init_request_stats now))
    as (Ht & Hh & Hu & Hi & _).
  rewrite Ht, Hh, Hu, Hi. cbn [Miner.init_request_stats Miner.total_requests
    Miner.requests_by_hotkey Miner.requests_by_uid Miner.requests_by_ip].
  pose proof (count_all (map (fun r => fst (fst r)) requests) []) as (_ & Hsh & Hnh).
  pose proof (count_all
                (map (fun r : string * option nat * string =>
                        match snd (fst r) with
                        | Some n => pretty n
                        | None => "Unknown"%string
                        end) requests) []) as (_ & Hsu & Hnu).
  pose proof (count_all (map snd requests) []) as (_ & Hsi & Hni).
  cbv zeta in *. rewrite !length_map in *.
  rewrite Hsh, Hsu, Hsi. unfold Miner.sum_values at 1 2 3. simpl.
  repeat split; try lia; [apply Hnh|apply Hnu|apply Hni]; constructor.
Qed.

(** X19.  What each counter holds.  After any sequence of calls on the
    initial statistics, the entry of a hotkey is the number of requests
    that carried it, a hotkey no request carried has no entry, and the
    entry "Unknown" of the per-UID counter is the number of requests whose
    sender had no UID: the text of a UID is never that word. *)
Theorem request_stats_entries (now : float)
    (requests : list (string * option nat * string)) (sender : string) :
  let st := Miner.record_all requests (Miner.init_request_stats now) in
  let from_sender :=
    length (List.filter (fun r => String.eqb (fst (fst r)) sender) requests) in
  let unregistered :=
    length (List.filter (fun r : string * option nat * string =>
                           match snd (fst r) with None => true | Some _ => false end)
                        requests) in
  Miner.get sender (Miner.requests_by_hotkey st)
    = (if decide (from_sender = 0%nat) then None else Some (Z.of_nat from_sender)) /\
  Miner.get "Unknown" (Miner.requests_by_uid st)
    = (if decide (unregistered = 0%nat) then None else Some (Z.of_nat unregistered)).
Proof.
  intros st from_sender unregistered. subst st.
  destruct (record_all_counters requests (Miner.init_request_stats now))
    as (_ & Hh & Hu & _).
  rewrite Hh, Hu. cbn [Miner.init_request_stats Miner.requests_by_hotkey
    Miner.requests_by_uid].
  split.
  - destruct (count_all (map (fun r => fst (fst r)) requests) []) as (Hget & _).
    rewrite Hget. cbn [Miner.get default].
    assert (Hc : count_occ string_dec (map (fun r => fst (fst r)) requests) sender
                 = from_sender).
    { subst from_sender. clear. induction requests as [|[[h u] i] requests IH];
        [reflexivity|].
      cbn [map count_occ List.filter fst snd].
      destruct (string_dec h sender) as [->|Hne].
      - rewrite String.eqb_refl. cbn [length]. rewrite IH. reflexivity.
      - apply String.eqb_neq in Hne. rewrite Hne. exact IH. }
    rewrite Hc. destruct (decide (from_sender = 0%nat)) as [H0|H0].
    + rewrite decide_True by auto. reflexivity.
    + rewrite decide_False by tauto. f_equal.
  - destruct (count_all
                (map (fun r : string * option nat * string =>
                        match snd (fst r) with
                        | Some n => pretty n
                        | None => "Unknown"%string
                        end) requests) []) as (Hget & _).
    rewrite Hget. cbn [Miner.get default].
    match goal with |- context [count_occ string_dec ?l ?k] =>
      assert (Hc : count_occ string_dec l k = unregistered) end.
    { subst unregistered. clear. induction requests as [|[[h u] i] requests IH];
        [reflexivity|].
      cbn [map count_occ List.filter fst snd].
      destruct u as [n|].
      - destruct (string_dec (pretty n) "Unknown") as [Heq|_]; [|exact IH].
        exfalso. exact (str_uid_not_unknown n Heq).
      - destruct (string_dec "Unknown" "Unknown") as [_|Hne]; [|contradiction].
        cbn [length]. rewrite IH. reflexivity. }
    rewrite Hc. destruct (decide (unregistered = 0%nat)) as [H0|H0].
    + rewrite decide_True by auto. reflexivity.
    + rewrite decide_False by tauto. f_equal.
Qed.

(** ** The Request Handler: what [forward_image] does to a request *)

Section ForwardFacts.

Import Py Miner.

Lemma index_lookup (x : string) (l : list string) :
  x ∈ l -> l !! index x l = Some x.
Proof.
  induction l as [|y l IH]; intros Hin.
  - apply elem_of_nil in Hin. contradiction.
  - simpl. destruct (String.eqb y x) eqn:Hy.
    + apply String.eqb_eq in Hy. subst y. reflexivity.
    + apply String.eqb_neq in Hy. apply elem_of_cons in Hin.
      destruct Hin as [->|Hin]; [contradiction|]. simpl. apply IH. exact Hin.
Qed.

Lemma item_in_range {A : Type} (array : list A) (uid : nat) :
  (uid < length array)%nat -> exists a, item array uid = Ok a.
Proof.
  intros Hlt. unfold item.
  destruct (lookup_lt_is_Some_2 array uid Hlt) as [a ->]. exists a. reflexivity.
Qed.

(** With arrays as long as the list of hotkeys the lookup never raises:
    the UID of a registered hotkey is its first position in the list, and a
    sender without a hotkey or with an unregistered one has none. *)
Lemma sender_uid_consistent (sender_hotkey : string) (mg : Metagraph.t) :
  consistent mg ->
  exists uid,
    sender_uid sender_hotkey mg = Ok uid /\
    match uid with
    | Some n => Metagraph.hotkeys mg !! n = Some sender_hotkey /\
                sender_hotkey <> "Unknown"%string
    | None => sender_hotkey = "Unknown"%string \/
              sender_hotkey ∉ Metagraph.hotkeys mg
    end.
Proof.
  intros (HS & HT & HI & HE & HV). unfold sender_uid.
  destruct (String.eqb sender_hotkey "Unknown") eqn:Hu; simpl.
  - exists None. split; [reflexivity|]. left. apply String.eqb_eq. exact Hu.
  - destruct (bool_decide (sender_hotkey ∈ Metagraph.hotkeys mg)) eqn:Hin.
    + apply bool_decide_eq_true_1 in Hin.
      pose proof (index_lookup _ _ Hin) as Hl.
      pose proof (lookup_lt_Some _ _ _ Hl) as Hlt.
      destruct (item_in_range (Metagraph.S mg) _ ltac:(rewrite HS; exact Hlt)) as [? ->].
      destruct (item_in_range (Metagraph.T mg) _ ltac:(rewrite HT; exact Hlt)) as [? ->].
      destruct (item_in_range (Metagraph.I mg) _ ltac:(rewrite HI; exact Hlt)) as [? ->].
      destruct (item_in_range (Metagraph.E mg) _ ltac:(rewrite HE; exact Hlt)) as [? ->].
      destruct (item_in_range (Metagraph.validator_permit mg) _
                  ltac:(rewrite HV; exact Hlt)) as [? ->].
      eexists. split; [reflexivity|]. split; [exact Hl|].
      apply String.eqb_neq. exact Hu.
    + apply bool_decide_eq_false_1 in Hin.
      exists None. split; [reflexivity|]. right. exact Hin.
Qed.

Variable b64decode : string -> result (list byte).
Variable requests_post : nat -> list byte -> Z -> Client.reply.

Lemma log_sender_info_keeps syn m :
  image_detector (_log_sender_info syn m) = image_detector m /\
  config_model_url (_log_sender_info syn m) = config_model_url m /\
  metagraph (_log_sender_info syn m) = metagraph m.
Proof.
  unfold _log_sender_info.
  destruct (sender_uid _ (metagraph m)); repeat split; reflexivity.
Qed.

End ForwardFacts.

(** X20.  Every request is counted once.  With a metagraph whose arrays
    are as long as its list of hotkeys, [forward_image] raises the total
    and one entry of each counter by one, whether or not a detector is
    configured and whatever the image and the broker do; the miner's
    detector, configuration and metagraph are left as they were. *)
Theorem forward_image_counts_request
    (b64decode : string -> Py.result (list byte))
    (requests_post : nat -> list byte -> Z -> Client.reply)
    (syn : Miner.synapse) (m : Miner.miner) (w : Client.world) :
  Miner.consistent (Miner.metagraph m) ->
  let m' := snd (fst (Miner.forward_image b64decode requests_post syn m w)) in
  Miner.total_requests (Miner.stats m') = (Miner.total_requests (Miner.stats m) + 1)%Z /\
  Miner.sum_values (Miner.requests_by_hotkey (Miner.stats m'))
    = (Miner.sum_values (Miner.requests_by_hotkey (Miner.stats m)) + 1)%Z /\
  Miner.sum_values (Miner.requests_by_uid (Miner.stats m'))
    = (Miner.sum_values (Miner.requests_by_uid (Miner.stats m)) + 1)%Z /\
  Miner.sum_values (Miner.requests_by_ip (Miner.stats m'))
    = (Miner.sum_values (Miner.requests_by_ip (Miner.stats m)) + 1)%Z /\
  Miner.image_detector m' = Miner.image_detector m /\
  Miner.config_model_url m' = Miner.config_model_url m /\
  Miner.metagraph m' = Miner.metagraph m.
Proof.
  intros Hc m'.
  assert (Hm : m' = Miner._log_sender_info syn m).
  { subst m'. unfold Miner.forward_image.
    destruct (Miner.image_detector (Miner._log_sender_info syn m)); [|reflexivity].
    destruct (b64decode (Miner.image syn)) as [image_bytes|e]; [|reflexivity].
    destruct (Client.predict_with_cache requests_post image_bytes 4 2 w)
      as [w' [v|e]]; reflexivity. }
  rewrite Hm. clear Hm m'. unfold Miner._log_sender_info.
  destruct (sender_uid_consistent
              (match Miner.dendrite syn with
               | Some d => Miner.hotkey d
               | None => "Unknown"%string
               end) (Miner.metagraph m) Hc) as (uid & -> & _).
  cbn [Miner.stats Miner._update_request_stats Miner.total_requests
       Miner.requests_by_hotkey Miner.requests_by_uid Miner.requests_by_ip
       Miner.image_detector Miner.config_model_url Miner.metagraph].
  rewrite !sum_values_count. repeat split.
Qed.

Lemma forward_image_counts_request_witness :
  Miner.total_requests
    (Miner.stats
       (snd (fst (Miner.forward_image
                    (fun _ => Py.Raise (Py.Exception "binascii.Error"))
                    (Client.scripted [])
                    (Miner.Synapse "!" (-1) "" (-1)
                       (Some (Miner.Terminal "5Fvalidator" "10.0.0.7")))
                    (Miner.Miner (Some tt) "http://models/roadwork"
                       (Metagraph.Make ["5Fminer"; "5Fvalidator"]
                          [0%float; 1000%float] [0%float; 1%float]
                          [0%float; 0%float] [0%float; 0%float] [false; true])
                       (Miner.init_request_stats 0))
                    (Client.World ∅ 0)))))
  = 1%Z.
Proof.
  destruct (forward_image_counts_request
              (fun _ => Py.Raise (Py.Exception "binascii.Error"))
              (Client.scripted [])
              (Miner.Synapse "!" (-1) "" (-1)
                 (Some (Miner.Terminal "5Fvalidator" "10.0.0.7")))
              (Miner.Miner (Some tt) "http://models/roadwork"
                 (Metagraph.Make ["5Fminer"; "5Fvalidator"]
                    [0%float; 1000%float] [0%float; 1%float]
                    [0%float; 0%float] [0%float; 0%float] [false; true])
                 (Miner.init_request_stats 0))
              (Client.World ∅ 0)) as [Htotal _].
  - repeat split; reflexivity.
  - exact Htotal.
Defined.


(** X21.  What [forward_image] can do to the synapse and to the client's
    surroundings, for every decoder and broker: the image, the label and
    the sender are returned as they came; at most two requests are issued,
    and none when no detector is configured or the image does not decode;
    and the synapse comes back either untouched (no detector, an image that
    does not decode, or an exception out of [predict_with_cache], all
    swallowed) or with [prediction] set to what [predict_with_cache]
    returned for the decoded bytes and [model_url] set from the
    configuration. *)
Theorem forward_image_effect
    (b64decode : string -> Py.result (list byte))
    (requests_post : nat -> list byte -> Z -> Client.reply)
    (syn : Miner.synapse) (m : Miner.miner) (w : Client.world) :
  let syn' := fst (fst (Miner.forward_image b64decode requests_post syn m w)) in
  let w' := snd (Miner.forward_image b64decode requests_post syn m w) in
  Miner.image syn' = Miner.image syn /\
  Miner.testnet_label syn' = Miner.testnet_label syn /\
  Miner.dendrite syn' = Miner.dendrite syn /\
  (Client.posts w <= Client.posts w' <= Client.posts w + 2)%nat /\
  (Miner.image_detector m = None \/
   (exists e, b64decode (Miner.image syn) = Py.Raise e) ->
   syn' = syn /\ w' = w) /\
  (syn' = syn \/
   exists image_bytes,
     b64decode (Miner.image syn) = Py.Ok image_bytes /\
     Client.predict_with_cache requests_post image_bytes 4 2 w
       = (w', Py.Ok (Miner.prediction syn')) /\
     Miner.model_url syn' = Miner.config_model_url m).
Proof.
  intros syn' w'. subst syn' w'. unfold Miner.forward_image.
  destruct (log_sender_info_keeps syn m) as (Hd & Hu & _). rewrite Hd, Hu.
  destruct (Miner.image_detector m) as [[]|].
  - destruct (b64decode (Miner.image syn)) as [image_bytes|e] eqn:Hdec.
    + destruct (Client.predict_with_cache requests_post image_bytes 4 2 w)
        as [w' r] eqn:Hcall.
      destruct (predict_with_cache_effect requests_post image_bytes 4 2 w w' r Hcall)
        as (Hposts & _).
      change (Z.to_nat 2) with 2%nat in Hposts.
      destruct r as [v|e]; cbn [fst snd Miner.image Miner.testnet_label
        Miner.dendrite Miner.prediction Miner.model_url].
      * split; [reflexivity|]. split; [reflexivity|]. split; [reflexivity|].
        split; [exact Hposts|]. split.
        -- intros [Hn|[e0 He]]; discriminate.
        -- right. exists image_bytes. split; [reflexivity|]. split; [exact Hcall|reflexivity].
      * split; [reflexivity|]. split; [reflexivity|]. split; [reflexivity|].
        split; [exact Hposts|]. split.
        -- intros [Hn|[e0 He]]; discriminate.
        -- left. reflexivity.
    + cbn [fst snd]. split; [reflexivity|]. split; [reflexivity|].
      split; [reflexivity|]. split; [lia|]. split; [intros _; split; reflexivity|].
      left. reflexivity.
  - cbn [fst snd]. split; [reflexivity|]. split; [reflexivity|].
    split; [reflexivity|]. split; [lia|]. split; [intros _; split; reflexivity|].
    left. reflexivity.
Qed.

(** X22.  With a detector configured, an image that decodes and a broker
    that keeps to the HTTP interface, [forward_image] always answers: the
    synapse returned carries a prediction and the configured model URL,
    and when the local cache misses and neither of the two attempts
    succeeds the prediction is the sentinel 0.999999999. *)
Theorem forward_image_answers
    (b64decode : string -> Py.result (list byte))
    (requests_post : nat -> list byte -> Z -> Client.reply)
    (syn : Miner.synapse) (m : Miner.miner) (w : Client.world)
    (detector : unit) (image_bytes : list byte) :
  Miner.image_detector m = Some detector ->
  b64decode (Miner.image syn) = Py.Ok image_bytes ->
  (forall k, Client.well_formed (requests_post k image_bytes 4%Z)) ->
  exists v w',
    Miner.forward_image b64decode requests_post syn m w
    = (Miner.Synapse (Miner.image syn) v (Miner.config_model_url m)
                     (Miner.testnet_label syn) (Miner.dendrite syn),
       Miner._log_sender_info syn m, w') /\
    (Client.rdb w !! Client.hash_image_bytes image_bytes = None ->
     Client.succeeds (requests_post (Client.posts w) image_bytes 4%Z) = false ->
     Client.succeeds (requests_post (S (Client.posts w)) image_bytes 4%Z) = false ->
     v = 0.999999999%float).
Proof.
  intros Hdet Hdec Hwf. unfold Miner.forward_image.
  destruct (log_sender_info_keeps syn m) as (Hd & Hu & _). rewrite Hd, Hu, Hdet, Hdec.
  unfold Client.predict_with_cache.
  destruct (Client.rdb w !! Client.hash_image_bytes image_bytes) as [cached|] eqn:Hc.
  - exists cached, w. split; [reflexivity|]. intros Hmiss. discriminate Hmiss.
  - destruct (retry_loop_total requests_post (Client.hash_image_bytes image_bytes)
                image_bytes 4 (Z.to_nat 2) w Hwf) as (w' & o & Heq & Hor).
    rewrite Heq. destruct o as [v|].
    + exists v, w'. split; [reflexivity|]. intros _ H0 H1.
      destruct Hor as [Hno|(k & st & fc & v' & Hk & Hr & Hs & Hv)]; [discriminate Hno|].
      change (Z.to_nat 2) with 2%nat in Hk.
      assert (Hk' : k = Client.posts w \/ k = S (Client.posts w)) by lia.
      destruct Hk' as [-> | ->].
      * rewrite Hr in H0. simpl in H0. rewrite Hs in H0. discriminate H0.
      * rewrite Hr in H1. simpl in H1. rewrite Hs in H1. discriminate H1.
    + exists 0.999999999%float, w'. split; [reflexivity|]. intros _ _ _. reflexivity.
Qed.

Lemma forward_image_answers_witness :
  exists v w',
    Miner.forward_image (fun _ => Py.Ok []) 
      (Client.scripted [Client.Fails Py.Timeout; Client.Fails Py.Timeout])
      (Miner.Synapse "" (-1) "" (-1) None)
      (Miner.Miner (Some tt) "http://models/roadwork"
         (Metagraph.Make [] [] [] [] [] []) (Miner.init_request_stats 0))
      (Client.World ∅ 0)
    = (Miner.Synapse "" v "http://models/roadwork" (-1) None,
       Miner._log_sender_info (Miner.Synapse "" (-1) "" (-1) None)
         (Miner.Miner (Some tt) "http://models/roadwork"
            (Metagraph.Make [] [] [] [] [] []) (Miner.init_request_stats 0)),
       w') /\
    v = 0.999999999%float.
Proof.
  destruct (forward_image_answers (fun _ => Py.Ok [])
              (Client.scripted [Client.Fails Py.Timeout; Client.Fails Py.Timeout])
              (Miner.Synapse "" (-1) "" (-1) None)
              (Miner.Miner (Some tt) "http://models/roadwork"
                 (Metagraph.Make [] [] [] [] [] []) (Miner.init_request_stats 0))
              (Client.World ∅ 0) tt []) as (v & w' & Heq & Hsentinel).
  - reflexivity.
  - reflexivity.
  - intros k. do 2 (destruct k as [|k]; [reflexivity|]). destruct k; reflexivity.
  - exists v, w'. split; [exact Heq|].
    apply Hsentinel; reflexivity.
Defined.


Section TopSenders.

Import Miner.

Local Open Scope Z_scope.

Local Abbreviation desc := (fun a b : string * Z => snd b <= snd a).

Lemma insert_desc_perm x l : Permutation (insert_desc x l) (x :: l).
Proof.
  induction l as [|y l IH]; simpl; [reflexivity|].
  destruct (snd x <? snd y).
  - rewrite IH. apply perm_swap.
  - reflexivity.
Qed.

Lemma insert_desc_sorted x l :
  StronglySorted desc l -> StronglySorted desc (insert_desc x l).
Proof.
  induction l as [|y l IH]; intros Hs; simpl.
  - repeat constructor.
  - apply StronglySorted_inv in Hs. destruct Hs as [Hs Hall].
    destruct (snd x <? snd y) eqn:Hxy.
    + apply Z.ltb_lt in Hxy. constructor; [apply IH; exact Hs|].
      rewrite List.Forall_forall in *. intros z Hz.
      apply (Permutation_in _ (insert_desc_perm x l)) in Hz.
      destruct Hz as [<-|Hz]; [simpl; lia|apply Hall; exact Hz].
    + apply Z.ltb_ge in Hxy. constructor.
      * constructor; assumption.
      * constructor; [simpl; exact Hxy|].
        rewrite List.Forall_forall in *. intros z Hz. specialize (Hall z Hz).
        simpl in *. lia.
Qed.

Lemma sorted_desc_perm items : Permutation (sorted_desc items) items.
Proof.
  induction items as [|x items IH]; [reflexivity|].
  unfold sorted_desc in *. cbn [foldr]. rewrite insert_desc_perm, IH. reflexivity.
Qed.

Lemma sorted_desc_sorted items : StronglySorted desc (sorted_desc items).
Proof.
  induction items as [|x items IH]; [constructor|].
  unfold sorted_desc in *. cbn [foldr]. apply insert_desc_sorted. exact IH.
Qed.

End TopSenders.

(** X23.  The senders [log_request_stats] lists are the five with the most
    requests: the list has five entries, or all of them when fewer hotkeys
    have been seen; it is in descending order of count; and together with
    the entries left out, none of which has more requests than a listed
    one, it is a rearrangement of the per-hotkey counter. *)
Theorem top_senders_are_the_largest (st : Miner.request_stats) :
  let top := Miner.top_senders st in
  length top = Nat.min 5 (length (Miner.requests_by_hotkey st)) /\
  exists rest,
    Permutation (top ++ rest) (Miner.requests_by_hotkey st) /\
    StronglySorted (fun a b : string * Z => (snd b <= snd a)%Z) (top ++ rest).
Proof.
  intros top.
  assert (Htop : top = take 5 (Miner.sorted_desc (Miner.requests_by_hotkey st))).
  { subst top. unfold Miner.top_senders.
    destruct (Miner.requests_by_hotkey st); reflexivity. }
  rewrite Htop. split.
  - rewrite length_take. rewrite (Permutation_length (sorted_desc_perm _)). reflexivity.
  - exists (drop 5 (Miner.sorted_desc (Miner.requests_by_hotkey st))).
    rewrite take_drop. split; [apply sorted_desc_perm|apply sorted_desc_sorted].
Qed.
